(** * Streaming extraction and staged atomic publish

    A shallow embedding of the export pipeline of
    [John_Cowgill_Chubb_Work_Sample_Finance_Systems_Automation.py]:
    [timed], [get_dates], [build_sales_query], [stream_query_to_local_csv],
    [save_csv_via_staging_streaming], [run_sales_export] and the three jobs
    the script runs.

    Python objects that the script mutates (the [spans] dictionary, the file
    system, the database connections, the console) live in an explicit
    [world]; every function of the script is a computation that takes a
    world and gives back an outcome (a value or a raised exception) and the
    world it left behind.  What the script cannot decide itself (what the
    database answers, which system call fails, what the clock reads) is
    read from an [environment].

    The libraries the script calls are modelled by what they do here:
    [csv.writer] with the line feed as line terminator and minimal quoting;
    [Path.with_suffix]; [shutil.copyfile], which empties its target before
    it fills it and may stop half-way; [os.replace], a single step of the
    file system; [Cursor.fetchmany], which hands over at most [arraysize]
    rows, all of them for [-1] and none for another size below one.  The
    file system keeps every state it went through and the log every
    operation tried, so that what a reader could see at any instant of a
    run can be stated.  Durations are whole clock ticks where the source
    has seconds as floating-point numbers: the differences and the sums
    below are exact, those of the source are rounded, so what is stated
    of them is which readings and which entries are combined and in what
    order, and the sign of a difference of two readings. *)

From Stdlib Require Import ZArith String Ascii List Lia DecimalString.
From stdpp Require Import base gmap sets list strings.
From Equations Require Import Equations.

(* ===================================================================== *)
(** ** Text helpers *)
(* ===================================================================== *)

Module Text.

Definition LF : ascii := "010"%char.
Definition DQUOTE : ascii := "034"%char.
Definition COMMA : ascii := ","%char.
Definition DOT : ascii := "."%char.

Definition char_eqb (a b : ascii) : bool := Ascii.eqb a b.

(** [str.rfind(c)]: index of the last occurrence, [None] for -1. *)
Fixpoint rfind (c : ascii) (s : string) : option nat :=
  match s with
  | EmptyString => None
  | String a s' =>
      match rfind c s' with
      | Some i => Some (S i)
      | None => if char_eqb a c then Some 0 else None
      end
  end.

(** [s[:n]] and [s[n:]]. *)
Fixpoint take_str (n : nat) (s : string) : string :=
  match n, s with
  | S n', String a s' => String a (take_str n' s')
  | _, _ => EmptyString
  end.

Fixpoint drop_str (n : nat) (s : string) : string :=
  match n, s with
  | S n', String _ s' => drop_str n' s'
  | _, _ => s
  end.

Definition is_empty (s : string) : bool :=
  match s with EmptyString => true | _ => false end.

(** [sep.join(parts)]. *)
Fixpoint join (sep : string) (parts : list string) : string :=
  match parts with
  | [] => ""
  | [p] => p
  | p :: ps => p +:+ sep +:+ join sep ps
  end.

(** [s.zfill(n)] for a string of digits. *)
Definition zfill (n : nat) (s : string) : string :=
  String.concat "" (repeat "0" (n - String.length s)) +:+ s.

(** Lines, each followed by a line feed. *)
Fixpoint unlines (ls : list string) : string :=
  match ls with
  | [] => ""
  | l :: ls' => l +:+ String LF (unlines ls')
  end.

Definition str_of_Z (z : Z) : string := NilZero.string_of_int (Z.to_int z).
Definition str_of_nat (n : nat) : string := str_of_Z (Z.of_nat n).

End Text.

(* ===================================================================== *)
(** ** Column values and the [csv.writer] encoding *)
(* ===================================================================== *)

(** A column value as the driver hands it over.  [csv.writer] turns [None]
    into the empty field, leaves a [str] as it is and calls [str()] on
    everything else; [VObj s] stands for any other object, [s] being what
    [str()] gives for it. *)
Inductive value :=
  | VNone
  | VStr (s : string)
  | VInt (z : Z)
  | VDate (year month day : nat)
  | VObj (str : string).

Definition row := list value.

Module Csv.
Import Text.

(** [str(v)] as the writer applies it. *)
Definition field_text (v : value) : string :=
  match v with
  | VNone => ""
  | VStr s => s
  | VInt z => str_of_Z z
  | VDate y m d =>
      zfill 4 (str_of_nat y) +:+ "-" +:+ zfill 2 (str_of_nat m) +:+ "-" +:+ zfill 2 (str_of_nat d)
  | VObj s => s
  end.

(** [QUOTE_MINIMAL] with the comma as delimiter, the double quote as
    quote character and the line feed as line terminator: a field is
    quoted when it holds one of the three. *)
Definition special (c : ascii) : bool :=
  char_eqb c COMMA || char_eqb c DQUOTE || char_eqb c LF.

Fixpoint needs_quotes (s : string) : bool :=
  match s with
  | EmptyString => false
  | String a s' => special a || needs_quotes s'
  end.

(** [doublequote=True]: every quote character inside a field is doubled. *)
Fixpoint double_quotes (s : string) : string :=
  match s with
  | EmptyString => EmptyString
  | String a s' =>
      if char_eqb a DQUOTE then String DQUOTE (String DQUOTE (double_quotes s'))
      else String a (double_quotes s')
  end.

Definition quoted (s : string) : string :=
  String DQUOTE (double_quotes s +:+ String DQUOTE EmptyString).

Definition encode_field (s : string) : string :=
  if needs_quotes s then quoted s else s.

(** One record, terminator included.  A record made of a single empty
    field is written as a pair of quotes, so that it is not an empty line. *)
Definition encode_record (r : row) : string :=
  match r with
  | [v] => if is_empty (field_text v) then quoted "" +:+ String LF EmptyString
           else encode_field (field_text v) +:+ String LF EmptyString
  | _ => join (String COMMA EmptyString) (map (fun v => encode_field (field_text v)) r)
         +:+ String LF EmptyString
  end.

(** The text of a whole file: its records one after the other. *)
Fixpoint csv_text (records : list row) : string :=
  match records with
  | [] => ""
  | r :: rs => encode_record r +:+ csv_text rs
  end.

Definition header_record (cols : list string) : row := map VStr cols.

End Csv.

(* ===================================================================== *)
(** ** Exceptions, outcomes *)
(* ===================================================================== *)

Inductive exn :=
  | AttributeError
  | TypeError
  | ValueError
  | OSError
  | SameFileError
  | FileNotFoundError
  | DatabaseError.

Inductive outcome (A : Type) :=
  | Ok (a : A)
  | Raise (e : exn).
Arguments Ok {A} a.
Arguments Raise {A} e.

Definition raised {A} (o : outcome A) : bool :=
  match o with Raise _ => true | Ok _ => false end.

(* ===================================================================== *)
(** ** Paths *)
(* ===================================================================== *)

(** A [pathlib.Path] seen as its directory and its last component. *)
Record path := mkPath { parent : string; name : string }.

#[global] Instance path_eq_dec : EqDecision path.
Proof. solve_decision. Defined.

#[global] Instance path_countable : Countable path.
Proof.
  refine (inj_countable' (fun p => (parent p, name p))
                         (fun q => mkPath (fst q) (snd q)) _).
  intros [d n]; reflexivity.
Defined.

Module Pathlib.
Import Text.

(** [PurePath.suffix]: the last dot and what follows it, unless the dot
    opens or ends the name. *)
Definition suffix (nm : string) : string :=
  match rfind DOT nm with
  | Some i =>
      if (0 <? i)%nat && (i <? String.length nm - 1)%nat then drop_str i nm else ""
  | None => ""
  end.

(** [PurePath.with_suffix(sfx)], for a well-formed [sfx]. *)
Definition with_suffix (p : path) (sfx : string) : outcome path :=
  if is_empty (name p) then Raise ValueError
  else
    let old_suffix := suffix (name p) in
    if is_empty old_suffix then Ok (mkPath (parent p) (name p +:+ sfx))
    else Ok (mkPath (parent p)
               (take_str (String.length (name p) - String.length old_suffix) (name p) +:+ sfx)).

(** [Path(d) / nm] for a plain file name [nm]. *)
Definition joinpath (d : string) (nm : string) : path := mkPath d nm.

(** A parser for Windows path strings that splits at the last separator. *)
Fixpoint split_last (s : string) : option (string * string) :=
  match s with
  | EmptyString => None
  | String a s' =>
      match split_last s' with
      | Some (d, n) => Some (String a d, n)
      | None => if char_eqb a "\"%char || char_eqb a "/"%char
                then Some (EmptyString, s') else None
      end
  end.

Definition windows_path (s : string) : path :=
  match split_last s with
  | Some (d, n) => mkPath d n
  | None => mkPath "." s
  end.

End Pathlib.

(* ===================================================================== *)
(** ** The [spans] dictionaries *)
(* ===================================================================== *)

(** A [dict] from labels to durations keeps its keys in insertion order;
    durations are clock ticks. *)
Definition dict := list (string * Z).

Module Dict.

Fixpoint get (k : string) (default : Z) (d : dict) : Z :=
  match d with
  | [] => default
  | (k', v) :: d' => if String.eqb k' k then v else get k default d'
  end.

(** [d[k] = v]: in place when the key is there, at the end otherwise. *)
Fixpoint setitem (k : string) (v : Z) (d : dict) : dict :=
  match d with
  | [] => [(k, v)]
  | (k', v') :: d' =>
      if String.eqb k' k then (k', v) :: d' else (k', v') :: setitem k v d'
  end.

Definition values (d : dict) : list Z := map snd d.
Definition keys (d : dict) : list string := map fst d.

(** [sum(d.values())]. *)
Definition sum_values (d : dict) : Z := fold_left Z.add (values d) 0%Z.

End Dict.

(* ===================================================================== *)
(** ** The world the script runs in *)
(* ===================================================================== *)

(** What the script asks of the operating system and of the driver, in the
    order it asks; an attempt is recorded whether it succeeds or not. *)
Inductive event :=
  | Mkdir (d : string)
  | OpenW (p : path)
  | Write (p : path) (s : string)
  | Close (p : path)
  | CopyFile (src dst : path)
  | Replace (src dst : path)
  | Unlink (p : path)
  | Connect (database : string)
  | CursorOpen (cxn : nat)
  | Execute (cxn : nat) (sql : string) (params : list value)
  | FetchMany (cxn : nat)
  | CursorClose (cxn : nat)
  | ConnClose (cxn : nat).

(** The lines the script prints, before formatting. *)
Inductive line :=
  | SpanLine (label : string) (dt : Z)
  | StreamedLine (rows : nat) (dt : Z) (arraysize : Z)
  | TotalLine (total : Z)
  | BreakdownLine (spans : dict)
  | UnaccountedLine (residual : Z)
  | TotalRowsLine (rows : nat)
  | MessageLine (s : string)
  | FinalTotalLine (total : Z).

Record world := World {
  fs      : gmap path string;        (* regular files and their text *)
  dirs    : gset string;             (* directories known to exist *)
  past    : list (gmap path string); (* the earlier states of [fs], oldest first *)
  log     : list event;              (* oldest first *)
  reads   : nat;                     (* readings of the clock taken so far *)
  heap    : gmap nat dict;           (* the dictionaries, by reference *)
  conns   : list bool;               (* connections by handle; true while open *)
  console : list line                (* oldest first *)
}.

(** Every state a reader of the file system could have seen so far. *)
Definition instants (w : world) : list (gmap path string) := past w ++ [fs w].

Definition empty_world : world :=
  World ∅ ∅ [] [] 0 ∅ [] [].

(** What the surroundings decide during one job. *)
Record environment := Env {
  perf         : nat -> Z;            (* the n-th reading of [time.perf_counter()] *)
  pathlib_Path : string -> path;      (* [Path(s)]: parsing is the library's *)
  tempdir      : string;              (* [tempfile.gettempdir()] *)
  uuid         : string;              (* [str(uuid.uuid4())] *)
  connect_ok   : bool;
  execute_ok   : bool;
  columns      : option (list string);(* names in [cursor.description], if any *)
  result       : list row;            (* the rows the statement selects *)
  fetch_fault  : option nat;          (* fetching fails once that many rows were delivered *)
  mkdir_ok     : bool;
  open_ok      : bool;
  disk_room    : option nat;          (* characters the staging file may hold, if limited *)
  copy_fault   : option nat;          (* copying fails after that many characters *)
  replace_ok   : bool;
  unlink_ok    : bool
}.

(** A computation of the script. *)
Definition M (A : Type) : Type := world -> outcome A * world.

Definition ret {A} (a : A) : M A := fun w => (Ok a, w).
Definition raise {A} (e : exn) : M A := fun w => (Raise e, w).

Definition bind {A B} (m : M A) (k : A -> M B) : M B :=
  fun w =>
    match m w with
    | (Ok a, w') => k a w'
    | (Raise e, w') => (Raise e, w')
    end.

Notation "x <- c ;; k" := (bind c (fun x => k))
  (at level 100, c at next level, right associativity).
Notation "c ;;; k" := (bind c (fun _ => k))
  (at level 100, right associativity).

Definition lift {A} (o : outcome A) : M A := fun w => (o, w).

(** [try: body finally: fin]: [fin] runs on every exit of [body]; an
    exception of [fin] replaces whatever [body] left. *)
Definition try_finally {A} (body : M A) (fin : M unit) : M A :=
  fun w =>
    match body w with
    | (r, w') =>
        match fin w' with
        | (Ok _, w'') => (r, w'')
        | (Raise e, w'') => (Raise e, w'')
        end
    end.

(** [try: body except Exception: pass]. *)
Definition try_except_pass (body : M unit) : M unit :=
  fun w =>
    match body w with
    | (_, w') => (Ok tt, w')
    end.

(** State changes. *)
Definition emit (e : event) : M unit :=
  fun w => (Ok tt, World (fs w) (dirs w) (past w) (log w ++ [e]) (reads w)
                         (heap w) (conns w) (console w)).

(** Each change of the file system is an instant of its own. *)
Definition update_fs (F : gmap path string -> gmap path string) : M unit :=
  fun w => (Ok tt, World (F (fs w)) (dirs w) (past w ++ [fs w]) (log w) (reads w)
                         (heap w) (conns w) (console w)).

Definition update_dirs (F : gset string -> gset string) : M unit :=
  fun w => (Ok tt, World (fs w) (F (dirs w)) (past w) (log w) (reads w)
                         (heap w) (conns w) (console w)).

Definition update_heap (F : gmap nat dict -> gmap nat dict) : M unit :=
  fun w => (Ok tt, World (fs w) (dirs w) (past w) (log w) (reads w)
                         (F (heap w)) (conns w) (console w)).

Definition update_conns (F : list bool -> list bool) : M unit :=
  fun w => (Ok tt, World (fs w) (dirs w) (past w) (log w) (reads w)
                         (heap w) (F (conns w)) (console w)).

Definition print (l : line) : M unit :=
  fun w => (Ok tt, World (fs w) (dirs w) (past w) (log w) (reads w)
                         (heap w) (conns w) (console w ++ [l])).

Definition get_world : M world := fun w => (Ok w, w).

(** A dictionary by reference; a reference nobody wrote to is empty. *)
Definition deref (l : nat) (w : world) : dict := default [] (heap w !! l).

(** [{}]. *)
Definition new_dict : M nat :=
  w <- get_world ;;
  let l := fresh (dom (heap w)) in
  update_heap (insert l []) ;;;
  ret l.

(** The text of a file, empty when there is none. *)
Definition text_at (f : gmap path string) (p : path) : string := default "" (f !! p).

Definition append_to (p : path) (s : string) (f : gmap path string) : gmap path string :=
  <[p := text_at f p +:+ s]> f.

Definition inspect {A} (a : A) : {b : A | a = b} := exist _ a eq_refl.

(** A driver cursor: the connection it belongs to, its [arraysize], the
    column names of the last statement, the rows not fetched yet and the
    number of rows handed over so far. *)
Record cursor := Cursor {
  cur_cxn     : nat;
  arraysize_of : Z;
  description : option (list string);
  pending     : list row;
  delivered   : nat
}.

(* ===================================================================== *)
(** ** The pipeline *)
(* ===================================================================== *)

Section Pipeline.

Variable env : environment.

(** *** Clock and timing spans *)

Definition perf_counter : M Z :=
  fun w => (Ok (perf env (reads w)),
            World (fs w) (dirs w) (past w) (log w) (S (reads w))
                  (heap w) (conns w) (console w)).

(** [bucket.get(label, default)]; [None] has no [get]. *)
Definition bucket_get (bucket : option nat) (label : string) (default : Z) : M Z :=
  match bucket with
  | None => raise AttributeError
  | Some l => w <- get_world ;; ret (Dict.get label default (deref l w))
  end.

(** [bucket[label] = v]. *)
Definition bucket_setitem (bucket : option nat) (label : string) (v : Z) : M unit :=
  match bucket with
  | None => raise TypeError
  | Some l =>
      update_heap (fun h => <[l := Dict.setitem label v (default [] (h !! l))]> h)
  end.

(** The [finally] block of [timed]. *)
Definition timed_exit (label : string) (bucket : option nat) (t0 : Z) : M unit :=
  t1 <- perf_counter ;;
  let dt := (t1 - t0)%Z in
  old <- bucket_get bucket label 0%Z ;;
  bucket_setitem bucket label (old + dt)%Z ;;;
  print (SpanLine label dt).

(** [with timed(label, bucket): body]. *)
Definition timed {A} (label : string) (bucket : option nat) (body : M A) : M A :=
  t0 <- perf_counter ;;
  try_finally body (timed_exit label bucket t0).

(** *** File system *)

(** [d.mkdir(parents=True, exist_ok=True)]. *)
Definition mkdir_parents (d : string) : M unit :=
  emit (Mkdir d) ;;;
  if mkdir_ok env then update_dirs (fun ds => {[d]} ∪ ds)
  else raise OSError.

(** [open(p, "w")]: the file is created, or emptied when it is there. *)
Definition open_w (p : path) : M unit :=
  emit (OpenW p) ;;;
  if open_ok env then update_fs (insert p "")
  else raise OSError.

(** Appending to an open file; when the volume is full what fits is
    written and the write fails. *)
Definition write (p : path) (s : string) : M unit :=
  emit (Write p s) ;;;
  w <- get_world ;;
  let old := text_at (fs w) p in
  match disk_room env with
  | Some room =>
      if (String.length old + String.length s <=? room)%nat
      then update_fs (append_to p s)
      else (update_fs (append_to p (Text.take_str (room - String.length old) s)) ;;;
            raise OSError)
  | None => update_fs (append_to p s)
  end.

(** [with open(p, "w") as f: body]. *)
Definition with_open_w {A} (p : path) (body : path -> M A) : M A :=
  open_w p ;;;
  try_finally (body p) (emit (Close p)).

(** [shutil.copyfile(src, dst)]: the target is opened for writing, hence
    emptied, then filled; a failure leaves what was copied so far. *)
Definition copyfile (src dst : path) : M unit :=
  emit (CopyFile src dst) ;;;
  if decide (src = dst) then raise SameFileError
  else
    w <- get_world ;;
    match fs w !! src with
    | None => raise FileNotFoundError
    | Some text =>
        update_fs (insert dst "") ;;;
        match copy_fault env with
        | Some k => update_fs (insert dst (Text.take_str k text)) ;;; raise OSError
        | None => update_fs (insert dst text)
        end
    end.

(** [os.replace(src, dst)]: one step of the file system. *)
Definition os_replace (src dst : path) : M unit :=
  emit (Replace src dst) ;;;
  if replace_ok env then
    w <- get_world ;;
    match fs w !! src with
    | None => raise FileNotFoundError
    | Some text => update_fs (fun f => <[dst := text]> (delete src f))
    end
  else raise OSError.

(** [p.unlink(missing_ok=True)]. *)
Definition unlink_missing_ok (p : path) : M unit :=
  emit (Unlink p) ;;;
  if unlink_ok env then update_fs (delete p)
  else raise OSError.

(** *** Database driver *)

Definition is_open (cxn : nat) (w : world) : bool := default false (conns w !! cxn).

(** [pyodbc.connect(...)]: a new handle. *)
Definition pyodbc_connect (database : string) : M nat :=
  emit (Connect database) ;;;
  if connect_ok env then
    w <- get_world ;;
    update_conns (fun c => c ++ [true]) ;;;
    ret (length (conns w))
  else raise DatabaseError.

(** [cxn.close()]. *)
Definition conn_close (cxn : nat) : M unit :=
  emit (ConnClose cxn) ;;;
  w <- get_world ;;
  if is_open cxn w then update_conns (fun c => <[cxn := false]> c)
  else raise DatabaseError.

(** [cxn.cursor()]. *)
Definition cxn_cursor (cxn : nat) : M cursor :=
  emit (CursorOpen cxn) ;;;
  w <- get_world ;;
  if is_open cxn w then ret (Cursor cxn 1 None [] 0) else raise DatabaseError.

Definition set_arraysize (cur : cursor) (n : Z) : cursor :=
  Cursor (cur_cxn cur) n (description cur) (pending cur) (delivered cur).

(** [cur.execute(sql, params)]. *)
Definition execute (cur : cursor) (sql : string) (params : list value) : M cursor :=
  emit (Execute (cur_cxn cur) sql params) ;;;
  if execute_ok env
  then ret (Cursor (cur_cxn cur) (arraysize_of cur) (columns env) (result env) 0)
  else raise DatabaseError.

(** How many rows [fetchmany()] asks for: all of them for [-1], none for
    any other size below one. *)
Definition batch_len (arraysize : Z) (n_pending : nat) : nat :=
  if (arraysize =? -1)%Z then n_pending else Z.to_nat arraysize.

Definition fetch_due (cur : cursor) : bool :=
  match fetch_fault env with
  | Some k => (k <=? delivered cur)%nat
  | None => false
  end.

(** [cur.fetchmany()]: the next batch and the cursor after it. *)
Definition fetchmany (cur : cursor) : outcome (list row * cursor) :=
  if fetch_due cur then Raise DatabaseError
  else
    let n := batch_len (arraysize_of cur) (length (pending cur)) in
    let rows := take n (pending cur) in
    Ok (rows, Cursor (cur_cxn cur) (arraysize_of cur) (description cur)
                     (drop n (pending cur)) (delivered cur + length rows)).

(** *** [stream_query_to_local_csv] *)

Definition writerow (f : path) (r : row) : M unit := write f (Csv.encode_record r).

Fixpoint writerows (f : path) (rows : list row) : M unit :=
  match rows with
  | [] => ret tt
  | r :: rs => writerow f r ;;; writerows f rs
  end.

Definition logged (e : event) (w : world) : world := snd (emit e w).

(** The [while True] loop: fetch, stop on an empty batch, write, count. *)
Equations? stream_loop (f : path) (cur : cursor) (row_count : nat) (w : world)
  : outcome nat * world by wf (length (pending cur)) lt :=
  stream_loop f cur row_count w with inspect (fetchmany cur) := {
    | exist _ (Raise e) _ => (Raise e, logged (FetchMany (cur_cxn cur)) w);
    | exist _ (Ok ([], _)) _ => (Ok row_count, logged (FetchMany (cur_cxn cur)) w);
    | exist _ (Ok (r :: rows, cur')) Hfetch
        with writerows f (r :: rows) (logged (FetchMany (cur_cxn cur)) w) := {
        | (Raise e, w') => (Raise e, w');
        | (Ok _, w') => stream_loop f cur' (row_count + length (r :: rows)) w' } }.
Proof.
  unfold fetchmany in Hfetch.
  destruct (fetch_due cur); [discriminate|].
  injection Hfetch as Hrows Hcur. subst cur'. simpl.
  rewrite length_drop.
  assert (Hlen : length (take (batch_len (arraysize_of cur) (length (pending cur))) (pending cur)) <> 0)
    by (rewrite Hrows; discriminate).
  rewrite length_take in Hlen. lia.
Qed.

(** [encoding] is always ["utf-8"] in the script; a file is modelled by its
    text, which for the characters of one byte is also its content. *)
Definition stream_query_to_local_csv (cxn : nat) (sql : string) (params : list value)
    (local_csv_path : path) (arraysize : Z) (include_header : bool) : M nat :=
  cur <- cxn_cursor cxn ;;
  let cur := set_arraysize cur arraysize in
  cur <- execute cur sql params ;;
  cols <- lift (match description cur with
                | Some names => Ok names
                | None => Raise TypeError
                end) ;;
  let row_count := 0 in
  row_count <- with_open_w local_csv_path (fun f =>
    (if include_header then writerow f (Csv.header_record cols) else ret tt) ;;;
    stream_loop f cur row_count) ;;
  emit (CursorClose cxn) ;;;
  ret row_count.

End Pipeline.

Section Jobs.

Variable env : environment.

(** *** [save_csv_via_staging_streaming] *)

(** The paths of one publish: the final file, the temporary file next to
    it and the staging file on the local disk. *)
Definition final_unc_of (final_unc_path : string) : path :=
  pathlib_Path env final_unc_path.

Definition unc_tmp_of (final_unc_path : string) : outcome path :=
  Pathlib.with_suffix (final_unc_of final_unc_path) ".tmp.csv".

Definition local_tmp_of : path :=
  Pathlib.joinpath (tempdir env) (uuid env +:+ ".csv").

(** The block under [with timed("READ_STREAM_TO_LOCAL_CSV", spans)]. *)
Definition read_stream (cxn : nat) (sql : string) (params : list value)
    (local_tmp : path) (arraysize : Z) : M nat :=
  t0 <- perf_counter env ;;
  rows_written <- stream_query_to_local_csv env cxn sql params local_tmp arraysize true ;;
  t1 <- perf_counter env ;;
  let dt := (t1 - t0)%Z in
  (if (0 <? dt)%Z then print (StreamedLine rows_written dt arraysize) else ret tt) ;;;
  ret rows_written.

Definition save_csv_via_staging_streaming (cxn : nat) (sql : string) (params : list value)
    (final_unc_path : string) (arraysize : Z) (spans : option nat) : M nat :=
  let final_unc := final_unc_of final_unc_path in
  mkdir_parents env (parent final_unc) ;;;
  unc_tmp <- lift (unc_tmp_of final_unc_path) ;;
  let local_tmp := local_tmp_of in
  rows_written <- timed env "READ_STREAM_TO_LOCAL_CSV" spans
    (read_stream cxn sql params local_tmp arraysize) ;;
  timed env "COPY_TO_UNC" spans (copyfile env local_tmp unc_tmp) ;;;
  timed env "RENAME_ON_UNC" spans (os_replace env unc_tmp final_unc) ;;;
  try_except_pass (unlink_missing_ok env local_tmp) ;;;
  ret rows_written.

(** *** [run_sales_export] *)

(** The block under [with timed("CLEANUP", spans)]: the report, then
    [cxn.close()]. *)
Definition job_report (job_T0 : Z) (spans : nat) (cxn : nat) (rows_total : nat)
    (done_message : string) : M Z :=
  t <- perf_counter env ;;
  let total := (t - job_T0)%Z in
  w <- get_world ;;
  let accounted := Dict.sum_values (deref spans w) in
  print (TotalLine total) ;;;
  print (BreakdownLine (deref spans w)) ;;;
  print (UnaccountedLine (total - accounted)%Z) ;;;
  print (TotalRowsLine rows_total) ;;;
  print (MessageLine done_message) ;;;
  conn_close cxn ;;;
  ret total.

Definition run_sales_export (server database username password packet_size : string)
    (arraysize : Z) (final_unc_path sql : string) (params : list value)
    (done_message : string) : M Z :=
  job_T0 <- perf_counter env ;;
  spans <- new_dict ;;
  t <- perf_counter env ;;
  bucket_setitem (Some spans) "IMPORTS" (t - job_T0)%Z ;;;
  timed env "PREP" (Some spans) (ret tt) ;;;
  cxn <- timed env "CONNECT" (Some spans) (pyodbc_connect env database) ;;
  rows_total <- save_csv_via_staging_streaming cxn sql params final_unc_path arraysize
                  (Some spans) ;;
  timed env "CLEANUP" (Some spans) (job_report job_T0 spans cxn rows_total done_message).

End Jobs.

(* ===================================================================== *)
(** ** The script *)
(* ===================================================================== *)

Module Script.

Definition SERVER : string := "<redacted_server>".
Definition USERNAME : string := "<redacted_user>".
Definition PASSWORD : string := "<redacted_password>".

Definition final_unc_path_job1 : string :=
  "\\<file_share>\Accounting\<redacted_path>\SW_Sales_Chart_Data.csv".
Definition final_unc_path_job2 : string :=
  "\\<file_share>\Accounting\<redacted_path>\SW_Sales_Chart_Data.csv".
Definition final_unc_path_job3 : string :=
  "\\<file_share>\Accounting\<redacted_path>\SW_Sales_Chart_Data.csv".

(** The three jobs, one after the other.  [ARRAY_SIZE] and [PACKET_SIZE]
    come from the process environment, the dates from [get_dates()] and the
    statements from [build_sales_query]; each job meets its own
    surroundings. *)
Definition main (env1 env2 env3 : environment) (ARRAY_SIZE : Z) (PACKET_SIZE : string)
    (start_date end_date : value) (sql_job1 sql_job2 sql_job3 : string) : M Z :=
  let final_total := 0%Z in
  t1 <- run_sales_export env1 SERVER "PDICompany_2875_10" USERNAME PASSWORD PACKET_SIZE
          ARRAY_SIZE final_unc_path_job1 sql_job1 [start_date; end_date]
          "CoA Sales Chart Data Import Finished" ;;
  let final_total := (final_total + t1)%Z in
  t2 <- run_sales_export env2 SERVER "PDICompany_2875_70" USERNAME PASSWORD PACKET_SIZE
          ARRAY_SIZE final_unc_path_job2 sql_job2 [start_date; end_date]
          "CoA Sales Chart Data Import Finished" ;;
  let final_total := (final_total + t2)%Z in
  t3 <- run_sales_export env3 SERVER "PDICompany_2875_10" USERNAME PASSWORD PACKET_SIZE
          ARRAY_SIZE final_unc_path_job3 sql_job3 [start_date; end_date]
          "CoA Sales Chart Data Import Finished" ;;
  let final_total := (final_total + t3)%Z in
  print (FinalTotalLine final_total) ;;;
  ret final_total.

End Script.


(* ===================================================================== *)
(** ** Vocabulary of the statements *)
(* ===================================================================== *)

(** What a run added to the log, to the instants and to the console. *)
Definition fresh_log (w w' : world) : list event := drop (length (log w)) (log w').
Definition fresh_instants (w w' : world) : list (gmap path string) :=
  drop (length (instants w)) (instants w').
Definition fresh_console (w w' : world) : list line :=
  drop (length (console w)) (console w').

(** The paths an operation changes. *)
Definition writes_to (p : path) (e : event) : Prop :=
  match e with
  | OpenW q | Write q _ | Unlink q => q = p
  | CopyFile _ dst => dst = p
  | Replace src dst => src = p \/ dst = p
  | _ => False
  end.

Definition is_replace (e : event) : Prop :=
  match e with Replace _ _ => True | _ => False end.

Definition is_unlink (e : event) : Prop :=
  match e with Unlink _ => True | _ => False end.

Definition is_file_op (e : event) : Prop :=
  match e with
  | OpenW _ | Write _ _ | Close _ | CopyFile _ _ | Replace _ _ | Unlink _ => True
  | _ => False
  end.

(** The rows a cursor with that [arraysize] yields before its first empty
    batch. *)
Definition fetched_rows (arraysize : Z) (rows : list row) : list row :=
  if (arraysize =? -1)%Z || (0 <? arraysize)%Z then rows else [].

(** The complete export of a statement: header, then the rows yielded. *)
Definition export_text (cols : list string) (rows : list row) : string :=
  Csv.csv_text (Csv.header_record cols :: rows).

Definition no_fault (o : option nat) : bool :=
  match o with None => true | Some _ => false end.

(** Surroundings in which nothing fails up to the rename; whether the
    final deletion works is left open. *)
Definition healthy (env : environment) : bool :=
  connect_ok env && execute_ok env && bool_decide (is_Some (columns env))
  && no_fault (fetch_fault env) && mkdir_ok env && open_ok env
  && no_fault (disk_room env) && no_fault (copy_fault env) && replace_ok env.

(** How a run may move the world: every new state of the file system is
    [J]-related to the state at the start, every new event is in [E], and
    the connection handles move along [K]. *)
Record evolves (J : relation (gmap path string)) (E : event -> Prop)
    (K : relation (list bool)) (w w' : world) : Prop := Evolves {
  ev_fs : exists l, instants w' = instants w ++ l /\ Forall (J (fs w)) l;
  ev_log : exists l, log w' = log w ++ l /\ Forall E l;
  ev_conns : K (conns w) (conns w')
}.

Definition preserves {A} (R : relation world) (m : M A) : Prop :=
  forall w, R w (snd (m w)).

(** Where [J] lets a path be written or removed, and where [J] and [E]
    together let a file be opened, written and closed. *)
Definition writable (J : relation (gmap path string)) (p : path) : Prop :=
  forall f v, J f (<[p := v]> f).

Definition removable (J : relation (gmap path string)) (p : path) : Prop :=
  forall f, J f (delete p f).

Definition may_write (J : relation (gmap path string)) (E : event -> Prop) (p : path) : Prop :=
  writable J p /\ E (OpenW p) /\ (forall s, E (Write p s)) /\ E (Close p).

(** File-system states that agree at [p]. *)
Definition same_at (p : path) : relation (gmap path string) :=
  fun f g => g !! p = f !! p.

Definition any_state : relation (gmap path string) := fun _ _ => True.

(** The export a run is about to publish. *)
Definition export_of (env : environment) (arraysize : Z) : string :=
  export_text (default [] (columns env)) (fetched_rows arraysize (result env)).

(** File-system states whose file [p] is the one of the first state or
    holds [text]. *)
Definition same_or (p : path) (text : string) : relation (gmap path string) :=
  fun f g => g !! p = f !! p \/ g !! p = Some text.

(** The number of records a reader of the format finds in a text: line
    feeds outside quotes end a record, a quote opens or closes a quoted
    stretch. *)
Fixpoint count_records_from (in_quotes : bool) (s : string) : nat :=
  match s with
  | EmptyString => 0
  | String c s' =>
      if Text.char_eqb c Text.DQUOTE then count_records_from (negb in_quotes) s'
      else if Text.char_eqb c Text.LF && negb in_quotes
           then S (count_records_from false s')
           else count_records_from in_quotes s'
  end.

Definition count_records (s : string) : nat := count_records_from false s.

(** A world whose only connection, handle 0, is open. *)
Definition connected_world : world := World ∅ ∅ [] [] 0 ∅ [true] [].

(** The three stretches of [save_csv_via_staging_streaming]: everything up
    to the copy, the rename, the deletion of the staging file. *)
Definition stage (env : environment) (cxn : nat) (sql : string) (params : list value)
    (final_unc_path : string) (arraysize : Z) (spans : option nat) : M (path * nat) :=
  mkdir_parents env (parent (final_unc_of env final_unc_path)) ;;;
  unc_tmp <- lift (unc_tmp_of env final_unc_path) ;;
  rows_written <- timed env "READ_STREAM_TO_LOCAL_CSV" spans
    (read_stream env cxn sql params (local_tmp_of env) arraysize) ;;
  timed env "COPY_TO_UNC" spans (copyfile env (local_tmp_of env) unc_tmp) ;;;
  ret (unc_tmp, rows_written).

Definition publish (env : environment) (unc_tmp : path) (final_unc_path : string)
    (spans : option nat) : M unit :=
  timed env "RENAME_ON_UNC" spans (os_replace env unc_tmp (final_unc_of env final_unc_path)).

Definition cleanup (env : environment) : M unit :=
  try_except_pass (unlink_missing_ok env (local_tmp_of env)).

(** The events that leave the destination alone, but for the rename of
    the temporary file onto it. *)
Definition only_renamed (env : environment) (final_unc_path : string) (e : event) : Prop :=
  writes_to (final_unc_of env final_unc_path) e ->
  exists u, unc_tmp_of env final_unc_path = Ok u /\
            e = Replace u (final_unc_of env final_unc_path).

(** At most one event of a log is a [P]. *)
Definition at_most_once (P : event -> Prop) (l : list event) : Prop :=
  forall i j e e', l !! i = Some e -> l !! j = Some e' -> P e -> P e' -> i = j.

(** Events of the first stretch: neither a rename nor a deletion. *)
Definition staging_event (e : event) : Prop := ~ is_replace e /\ ~ is_unlink e.

(** What keeps the first stretch from completing. *)
Definition stage_fault (env : environment) (cxn : nat) (final_unc_path : string)
    (spans : option nat) (w : world) : Prop :=
  spans = None \/ healthy env = false \/ is_open cxn w = false \/
  (exists e, unc_tmp_of env final_unc_path = Raise e) \/
  unc_tmp_of env final_unc_path = Ok (local_tmp_of env).

(** The three ways a run of [save_csv_via_staging_streaming] can go: it
    fails before the rename is tried, the rename fails, or the export is
    published and the deletion of the staging file is tried. *)
Inductive run_shape (J : relation (gmap path string)) (env : environment) (cxn : nat)
    (final_unc_path : string) (arraysize : Z) (spans : option nat) (w : world)
    : outcome nat -> world -> Prop :=
  | StageFailed e w' :
      evolves J staging_event eq w w' ->
      stage_fault env cxn final_unc_path spans w ->
      run_shape J env cxn final_unc_path arraysize spans w (Raise e) w'
  | RenameFailed e w1 w' u :
      evolves J staging_event eq w w1 ->
      is_Some spans ->
      unc_tmp_of env final_unc_path = Ok u ->
      copy_fault env = None ->
      replace_ok env = false ->
      fs w' = fs w1 -> past w' = past w1 ->
      log w' = log w1 ++ [Replace u (final_unc_of env final_unc_path)] ->
      conns w' = conns w ->
      run_shape J env cxn final_unc_path arraysize spans w (Raise e) w'
  | Published w1 w2 w' u cols :
      evolves J staging_event eq w w1 ->
      is_Some spans ->
      unc_tmp_of env final_unc_path = Ok u ->
      local_tmp_of env <> u ->
      columns env = Some cols ->
      copy_fault env = None ->
      fs w1 = <[u := export_of env arraysize]>
                (<[local_tmp_of env := export_of env arraysize]> (fs w)) ->
      fs w2 = <[final_unc_of env final_unc_path := export_of env arraysize]>
                (delete u (fs w1)) ->
      past w2 = past w1 ++ [fs w1] ->
      log w2 = log w1 ++ [Replace u (final_unc_of env final_unc_path)] ->
      log w' = log w2 ++ [Unlink (local_tmp_of env)] ->
      fs w' = (if unlink_ok env then delete (local_tmp_of env) (fs w2) else fs w2) ->
      conns w' = conns w ->
      run_shape J env cxn final_unc_path arraysize spans w
        (Ok (length (fetched_rows arraysize (result env)))) w'.

(** What [save_csv_via_staging_streaming] comes to when [spans] is [None]:
    the first [with timed] block runs its body, then fails in its
    [finally] on [bucket.get]. *)
Definition save_csv_without_spans (env : environment) (cxn : nat) (sql : string)
    (params : list value) (final_unc_path : string) (arraysize : Z) : M nat :=
  mkdir_parents env (parent (final_unc_of env final_unc_path)) ;;;
  _ <- lift (unc_tmp_of env final_unc_path) ;;
  perf_counter env ;;;
  try_except_pass (read_stream env cxn sql params (local_tmp_of env) arraysize ;;; ret tt) ;;;
  perf_counter env ;;;
  raise AttributeError.

(** Events of a run that never reaches the copy. *)
Definition no_publish_event (e : event) : Prop :=
  match e with
  | CopyFile _ _ | Replace _ _ | Unlink _ => False
  | _ => True
  end.

(** The start of [run_sales_export], up to the connection: the clock is
    read, the dictionary of spans is made and gets its first two entries. *)
Definition job_start (env : environment) : M (Z * nat) :=
  job_T0 <- perf_counter env ;;
  spans <- new_dict ;;
  t <- perf_counter env ;;
  bucket_setitem (Some spans) "IMPORTS" (t - job_T0)%Z ;;;
  timed env "PREP" (Some spans) (ret tt) ;;;
  ret (job_T0, spans).

(* ===================================================================== *)
(** ** Concrete surroundings *)
(* ===================================================================== *)

Module Scenario.

(** A clock that advances by one tick at every reading. *)
Definition ticking : nat -> Z := fun n => Z.of_nat n.

(** Surroundings in which nothing fails. *)
Definition surroundings (uid : string) (cols : list string) (rows : list row) : environment :=
  Env ticking Pathlib.windows_path "C:\Temp" uid true true (Some cols) rows
      None true true None None true true.

Definition with_copy_fault (k : nat) (env : environment) : environment :=
  Env (perf env) (pathlib_Path env) (tempdir env) (uuid env) (connect_ok env)
      (execute_ok env) (columns env) (result env) (fetch_fault env) (mkdir_ok env)
      (open_ok env) (disk_room env) (Some k) (replace_ok env) (unlink_ok env).

Definition with_fetch_fault (k : nat) (env : environment) : environment :=
  Env (perf env) (pathlib_Path env) (tempdir env) (uuid env) (connect_ok env)
      (execute_ok env) (columns env) (result env) (Some k) (mkdir_ok env)
      (open_ok env) (disk_room env) (copy_fault env) (replace_ok env) (unlink_ok env).

Definition with_execute_failure (env : environment) : environment :=
  Env (perf env) (pathlib_Path env) (tempdir env) (uuid env) (connect_ok env)
      false (columns env) (result env) (fetch_fault env) (mkdir_ok env)
      (open_ok env) (disk_room env) (copy_fault env) (replace_ok env) (unlink_ok env).

Definition with_rename_failure (env : environment) : environment :=
  Env (perf env) (pathlib_Path env) (tempdir env) (uuid env) (connect_ok env)
      (execute_ok env) (columns env) (result env) (fetch_fault env) (mkdir_ok env)
      (open_ok env) (disk_room env) (copy_fault env) false (unlink_ok env).

(** The source of the specification's scenario. *)
Definition cols : list string := ["Date"; "Site"; "Amount"].
Definition rows : list row :=
  [[VDate 2024 1 1; VStr "A"; VInt 10]; [VDate 2024 1 2; VStr "B"; VInt 20]].
Definition env : environment := surroundings "1b4e28ba-2fa1-11d2-883f-0016d3cca427" cols rows.

Definition destination : string := "\\fs\Accounting\Sales.csv".
Definition final : path := mkPath "\\fs\Accounting" "Sales.csv".
Definition unc_tmp : path := mkPath "\\fs\Accounting" "Sales.tmp.csv".
Definition local_tmp : path := mkPath "C:\Temp" "1b4e28ba-2fa1-11d2-883f-0016d3cca427.csv".

(** A destination that already holds an export. *)
Definition previous_export : string := "Date,Site,Amount" +:+ String Text.LF "".
Definition world_with_export : world :=
  World {[ final := previous_export ]} ∅ [] [] 0 ∅ [true] [].

(** Three result sets, one per job of the script. *)
Definition rows_job1 : list row := [[VStr "2210"; VInt 1]].
Definition rows_job2 : list row := [[VStr "7001"; VInt 2]; [VStr "7002"; VInt 3]].
Definition rows_job3 : list row := [[VStr "2230"; VInt 4]].
Definition env_job1 : environment := surroundings "uuid-1" ["Site_ID"; "CalcAmount"] rows_job1.
Definition env_job2 : environment := surroundings "uuid-2" ["Site_ID"; "CalcAmount"] rows_job2.
Definition env_job3 : environment := surroundings "uuid-3" ["Site_ID"; "CalcAmount"] rows_job3.

(** The script on these three result sets, from an empty world. *)
Definition script_run : outcome Z * world :=
  Script.main env_job1 env_job2 env_job3 100000 "32767" (VDate 2023 12 18)
    (VDate 2023 12 24) "job1" "job2" "job3" empty_world.

Definition script_destination : path := Pathlib.windows_path Script.final_unc_path_job1.

End Scenario.

(* ===================================================================== *)
(** ** Text methods of [str] *)
(* ===================================================================== *)

Module Str.

(** [c.isspace()] for the characters below 128; the others count as no
    blank. *)
Definition isspace (c : ascii) : bool :=
  let n := nat_of_ascii c in
  ((9 <=? n)%nat && (n <=? 13)%nat) || ((28 <=? n)%nat && (n <=? 32)%nat).

(** [s.lstrip()], [s.rstrip()] and [s.strip()]. *)
Fixpoint lstrip (s : string) : string :=
  match s with
  | EmptyString => EmptyString
  | String a s' => if isspace a then lstrip s' else s
  end.

Fixpoint rstrip (s : string) : string :=
  match s with
  | EmptyString => EmptyString
  | String a s' =>
      match rstrip s' with
      | EmptyString => if isspace a then EmptyString else String a EmptyString
      | r => String a r
      end
  end.

Definition strip (s : string) : string := rstrip (lstrip s).

(** [s.count(c)] for one character. *)
Fixpoint count (c : ascii) (s : string) : nat :=
  match s with
  | EmptyString => 0
  | String a s' => (if Text.char_eqb a c then 1 else 0) + count c s'
  end.

(** [s.isascii()]: every character is below 128. *)
Fixpoint isascii (s : string) : bool :=
  match s with
  | EmptyString => true
  | String a s' => (nat_of_ascii a <? 128)%nat && isascii s'
  end.

(** [str(v)]; unlike the writer of [csv], [str] turns [None] into a word. *)
Definition str (v : value) : string :=
  match v with
  | VNone => "None"
  | _ => Csv.field_text v
  end.

End Str.

(* ===================================================================== *)
(** ** [build_sales_query] *)
(* ===================================================================== *)

Module Sql.

Definition nl : string := String Text.LF "".

(** [", ".join(str(k) for k in dataid_keys)]. *)
Definition keys_csv (dataid_keys : list Z) : string :=
  Text.join ", " (map Text.str_of_Z dataid_keys).

Definition extra_filters (include_qsr : bool) (site_between : option (string * string))
  : list string :=
  let extra_filters := [] in
  let extra_filters :=
    if include_qsr then extra_filters ++ ["pca.ProfCtr_Type_Desc = 'QSR'"]
    else extra_filters in
  match site_between with
  | Some (lo, hi) =>
      extra_filters ++ ["pca.Site_ID BETWEEN '" +:+ lo +:+ "' AND '" +:+ hi +:+ "'"]
  | None => extra_filters
  end.

Definition extra_where (include_qsr : bool) (site_between : option (string * string))
  : string :=
  match extra_filters include_qsr site_between with
  | [] => ""
  | filters => "    AND " +:+ Text.join (nl +:+ "    AND ") filters +:+ nl
  end.

Definition year_of_week_expr : string :=
  "DATEPART(YEAR, DATEADD(DAY, 4 - DATEPART(WEEKDAY, pb.PaperworkBatch_BusDate), pb.PaperworkBatch_BusDate))".

(** The text between the triple quotes, one line of the source a line. *)
Definition template (datefirst : Z) (week_expr : string) (dataid_keys : list Z)
    (include_qsr : bool) (site_between : option (string * string)) : string :=
  nl +:+
  "SET NOCOUNT ON;" +:+ nl +:+
  "SET DATEFIRST " +:+ Text.str_of_Z datefirst +:+ ";" +:+ nl +:+
  "SET TRANSACTION ISOLATION LEVEL READ UNCOMMITTED;" +:+ nl +:+
  nl +:+
  "SELECT" +:+ nl +:+
  "    CONCAT(" +:+ nl +:+
  "        " +:+ year_of_week_expr +:+ "," +:+ nl +:+
  "        '|', " +:+ week_expr +:+ "," +:+ nl +:+
  "        '|', DATEPART(WEEKDAY,  pb.PaperworkBatch_BusDate)," +:+ nl +:+
  "        '|', pca.Site_ID," +:+ nl +:+
  "        '|', di.DataID_Key" +:+ nl +:+
  "    ) AS LookupValue," +:+ nl +:+
  "    " +:+ week_expr +:+ " AS CalcWeek," +:+ nl +:+
  "    DATEPART(WEEKDAY,  pb.PaperworkBatch_BusDate) AS CalcDay," +:+ nl +:+
  "    pca.Site_ID," +:+ nl +:+
  "    pca.Site_Description," +:+ nl +:+
  "    pb.PaperworkBatch_BusDate," +:+ nl +:+
  "    di.DataID_Key," +:+ nl +:+
  "    di.[DataID_Description]," +:+ nl +:+
  "    dv.[DataIDValue_Value]," +:+ nl +:+
  "    SUM(dv.DataIDValue_Value) OVER (" +:+ nl +:+
  "        PARTITION BY" +:+ nl +:+
  "            pca.Site_ID," +:+ nl +:+
  "            di.DataID_Key," +:+ nl +:+
  "            " +:+ week_expr +:+ "," +:+ nl +:+
  "            " +:+ year_of_week_expr +:+ nl +:+
  "    ) AS CalcAmount" +:+ nl +:+
  "FROM dbo.DataID_Values      AS dv" +:+ nl +:+
  "JOIN dbo.Data_IDs           AS di  ON di.DataID_Key          = dv.DataIDValue_DataID_Key" +:+ nl +:+
  "JOIN dbo.Paperwork_Batches  AS pb  ON pb.PaperworkBatch_Key  = dv.DataIDValue_PaperworkBatch_Key" +:+ nl +:+
  "JOIN dbo.Profit_Centers_All AS pca ON pca.ProfCtr_Site_Key   = pb.PaperworkBatch_Site_Key" +:+ nl +:+
  "WHERE" +:+ nl +:+
  "    pb.PaperworkBatch_BusDate >= ?" +:+ nl +:+
  "    AND pb.PaperworkBatch_BusDate < DATEADD(DAY, 1, ?)" +:+ nl +:+
  extra_where include_qsr site_between +:+ "    AND di.DataID_Key IN (" +:+ nl +:+
  "        " +:+ keys_csv dataid_keys +:+ nl +:+
  "    )" +:+ nl +:+
  "OPTION (OPTIMIZE FOR UNKNOWN);" +:+ nl.

Definition build_sales_query (datefirst : Z) (week_expr : string) (dataid_keys : list Z)
    (include_qsr : bool) (site_between : option (string * string)) : string :=
  Str.strip (template datefirst week_expr dataid_keys include_qsr site_between).

End Sql.

(* ===================================================================== *)
(** ** [get_dates] *)
(* ===================================================================== *)

(** [datetime.strptime(s, "%Y%m%d").date()].  The format becomes the
    pattern [(\d\d\d\d)(1[0-2]|0[1-9]|[1-9])(3[0-1]|[1-2]\d|0[1-9]|[1-9]| [1-9])],
    matched at the start of the text with the alternatives tried from left
    to right; text left over after the match and a day the month does not
    have are both a [ValueError].  Digits are the ten of ASCII: on a text
    of ASCII characters this is what the library does.  The library reads
    the other decimal digits of Unicode as well; a string here holds such
    a digit as several characters and the text raises [ValueError], so
    what is stated of the texts accepted is stated of ASCII texts. *)
Module Strptime.

Definition is_digit (c : ascii) : bool :=
  (48 <=? nat_of_ascii c)%nat && (nat_of_ascii c <=? 57)%nat.

Definition digit (c : ascii) : nat := nat_of_ascii c - 48.

(** [[lo-hi]]. *)
Definition in_range (lo hi : nat) (c : ascii) : bool :=
  is_digit c && (lo <=? digit c)%nat && (digit c <=? hi)%nat.

(** What a directive may read at the head of a text: the number and the
    text after it, one entry per alternative that matches, in the order of
    the pattern. *)
Definition directive_Y (s : string) : list (nat * string) :=
  match s with
  | String a (String b (String c (String d rest))) =>
      if is_digit a && is_digit b && is_digit c && is_digit d
      then [(((digit a * 10 + digit b) * 10 + digit c) * 10 + digit d, rest)]
      else []
  | _ => []
  end.

(** One alternative of two characters and one of a single character. *)
Definition two (first : ascii -> bool) (second : ascii -> bool) (s : string)
  : list (nat * string) :=
  match s with
  | String a (String b rest) =>
      if first a && second b then [(10 * digit a + digit b, rest)] else []
  | _ => []
  end.

Definition one (first : ascii -> bool) (s : string) : list (nat * string) :=
  match s with
  | String a rest => if first a then [(digit a, rest)] else []
  | _ => []
  end.

Definition blank_then (second : ascii -> bool) (s : string) : list (nat * string) :=
  match s with
  | String a (String b rest) =>
      if Text.char_eqb a " " && second b then [(digit b, rest)] else []
  | _ => []
  end.

Definition directive_m (s : string) : list (nat * string) :=
  two (in_range 1 1) (in_range 0 2) s ++
  two (in_range 0 0) (in_range 1 9) s ++
  one (in_range 1 9) s.

Definition directive_d (s : string) : list (nat * string) :=
  two (in_range 3 3) (in_range 0 1) s ++
  two (in_range 1 2) is_digit s ++
  two (in_range 0 0) (in_range 1 9) s ++
  one (in_range 1 9) s ++
  blank_then (in_range 1 9) s.

(** The first way the month and the day match, and the first way the whole
    pattern does. *)
Definition found_md (s : string) : option (nat * nat * string) :=
  head (flat_map (fun '(m, s2) => map (fun '(d, s3) => (m, d, s3)) (directive_d s2))
                 (directive_m s)).

Definition found (s : string) : option (nat * nat * nat * string) :=
  match directive_Y s with
  | (y, s1) :: _ =>
      match found_md s1 with
      | Some (m, d, rest) => Some (y, m, d, rest)
      | None => None
      end
  | [] => None
  end.

(** [date(year, month, day)] exists. *)
Definition is_leap (y : nat) : bool :=
  (y mod 4 =? 0)%nat && (negb (y mod 100 =? 0)%nat || (y mod 400 =? 0)%nat).

Definition days_in_month (y m : nat) : nat :=
  match m with
  | 2 => if is_leap y then 29 else 28
  | 4 | 6 | 9 | 11 => 30
  | _ => 31
  end.

Definition valid_date (y m d : nat) : bool :=
  (1 <=? y)%nat && (Z.of_nat y <=? 9999)%Z && (1 <=? m)%nat && (m <=? 12)%nat &&
  (1 <=? d)%nat && (d <=? days_in_month y m)%nat.

Definition strptime (s : string) : outcome value :=
  match found s with
  | None => Raise ValueError
  | Some (y, m, d, rest) =>
      if Text.is_empty rest
      then (if valid_date y m d then Ok (VDate y m d) else Raise ValueError)
      else Raise ValueError
  end.

End Strptime.

(** What [configparser] and [openpyxl] raise; these are kept apart from the
    exceptions of the pipeline and travel as values: [get_dates] handles
    none of them, and [timed] passes on whatever its body left. *)
Inductive config_error :=
  | KeyError (key : string)
  | ConfigParserError
  | WorkbookError.

(** The two places the dates may come from.  [ini_exists] is the answer of
    [os.path.exists(ini_path)].  [ini_read] is what [ConfigParser] shows
    after [cfg.read(ini_path)]: for each section its options and their
    values, with [None] for a value whose interpolation fails; a file
    that cannot be opened is skipped by [cfg.read] and shows no section,
    and [ini_read] is [None] when parsing raises.  [workbook] holds the
    values of [C14] and [C15] of the active sheet, and is [None] when the
    workbook cannot be loaded. *)
Record date_sources := DateSources {
  ini_exists : bool;
  ini_read   : option (gmap string (gmap string (option string)));
  workbook   : option (value * value)
}.

Definition cfg_getitem (cfg : gmap string (gmap string (option string)))
    (section key : string) : config_error + string :=
  match cfg !! section with
  | None => inl (KeyError section)
  | Some options =>
      match options !! key with
      | None => inl (KeyError key)
      | Some None => inl ConfigParserError
      | Some (Some v) => inr v
      end
  end.

(** The block under [with timed("READ_DATE_VARS_INI", ...)]. *)
Definition read_date_vars_ini (src : date_sources) : config_error + (string * string) :=
  match ini_read src with
  | None => inl ConfigParserError
  | Some cfg =>
      match cfg_getitem cfg "dates" "sc_start" with
      | inl e => inl e
      | inr v =>
          let sc_start := Str.strip v in
          match cfg_getitem cfg "dates" "sc_end" with
          | inl e => inl e
          | inr v' => let sc_end := Str.strip v' in inr (sc_start, sc_end)
          end
      end
  end.

(** The block under [with timed("READ_DATE_VARS_XLSM", ...)]. *)
Definition read_date_vars_xlsm (src : date_sources) : config_error + (value * value) :=
  match workbook src with
  | None => inl WorkbookError
  | Some (start, end_) => inr (start, end_)
  end.

(** [get_dates()].  The dictionary of spans is made for the block and
    dropped after it.  A [ValueError] of [strptime] is raised; an error of
    [configparser] or [openpyxl] is what the function returns on the
    left. *)
Definition get_dates (env : environment) (src : date_sources)
  : M (config_error + (value * value)) :=
  if ini_exists src then
    spans_tmp <- new_dict ;;
    r <- timed env "READ_DATE_VARS_INI" (Some spans_tmp) (ret (read_date_vars_ini src)) ;;
    match r with
    | inl e => ret (inl e)
    | inr (sc_start, sc_end) =>
        d1 <- lift (Strptime.strptime sc_start) ;;
        d2 <- lift (Strptime.strptime sc_end) ;;
        ret (inr (d1, d2))
    end
  else
    spans_tmp <- new_dict ;;
    r <- timed env "READ_DATE_VARS_XLSM" (Some spans_tmp) (ret (read_date_vars_xlsm src)) ;;
    match r with
    | inl e => ret (inl e)
    | inr (start, end_) =>
        d1 <- lift (Strptime.strptime (Str.str start)) ;;
        d2 <- lift (Strptime.strptime (Str.str end_)) ;;
        ret (inr (d1, d2))
    end.

(* ===================================================================== *)
(** ** The script from its first statement *)
(* ===================================================================== *)

Module Program.

Definition sql_job1 : string :=
  Sql.build_sales_query 3 "DATEPART(wk, pb.PaperworkBatch_BusDate)"
    [675; 1205; 1310; 673; 674; 683; 960]%Z true (Some ("2210", "2295")).

Definition sql_job2 : string :=
  Sql.build_sales_query 1 "DATEPART(ISO_WEEK, pb.PaperworkBatch_BusDate)"
    [95; 149; 150; 151; 152; 153; 156; 157; 122; 123; 124; 125; 126; 129; 130; 107; 121]%Z
    false None.

Definition sql_job3 : string :=
  Sql.build_sales_query 1 "DATEPART(ISO_WEEK, pb.PaperworkBatch_BusDate)"
    [689; 690; 697; 701; 961; 962; 963; 964; 966; 1141; 1206; 1207; 1208; 1209; 1211;
     1311; 1312; 1313; 1314; 1316; 1986; 1987; 1995; 1996; 2000; 2001; 2002; 2004; 2005;
     2009; 2010; 2025; 2026; 2027]%Z
    true None.

(** The dates are read first; an error there ends the script before any
    job.  [env0] is the clock of [get_dates]. *)
Definition script (src : date_sources) (env0 env1 env2 env3 : environment)
    (ARRAY_SIZE : Z) (PACKET_SIZE : string) : M (config_error + Z) :=
  dates <- get_dates env0 src ;;
  match dates with
  | inl e => ret (inl e)
  | inr (start_date, end_date) =>
      final_total <- Script.main env1 env2 env3 ARRAY_SIZE PACKET_SIZE start_date end_date
                       sql_job1 sql_job2 sql_job3 ;;
      ret (inr final_total)
  end.

End Program.

(* ===================================================================== *)
(** ** Vocabulary of the further statements *)
(* ===================================================================== *)

(** Texts that end with [last] and a line feed. *)
Definition ends_with_line (last t : string) : Prop :=
  exists b, t = (b +:+ last) +:+ Sql.nl.

(** Surroundings of two runs that meet the same database and the same
    share: the statement selects the same rows under the same columns and
    a destination is parsed alike.  The staging names, the clocks and the
    faults are those of each run. *)
Definition same_source (env1 env2 : environment) : Prop :=
  columns env2 = columns env1 /\ result env2 = result env1 /\
  pathlib_Path env2 = pathlib_Path env1.

(** A clock that never runs backwards. *)
Definition monotone (clock : nat -> Z) : Prop :=
  forall i j, i <= j -> (clock i <= clock j)%Z.

(** Lines that show no negative duration; the line of the streaming rate
    divides by its duration, which has to be positive.  The durations
    meant are differences of two readings of the clock and sums of such
    differences: their sign is the same whether they are computed exactly,
    as here, or with the rounding of the source's floating-point numbers.
    The unaccounted time is a difference of two sums, which rounding can
    take below zero; no condition is put on its line. *)
Definition nonneg_line (l : line) : Prop :=
  match l with
  | SpanLine _ dt => (0 <= dt)%Z
  | StreamedLine _ dt _ => (0 < dt)%Z
  | TotalLine total => (0 <= total)%Z
  | BreakdownLine spans => Forall (fun kv => (0 <= snd kv)%Z) spans
  | _ => True
  end.

Definition any_heap : relation (gmap nat dict) := fun _ _ => True.
Definition any_event : event -> Prop := fun _ => True.
Definition any_line : line -> Prop := fun _ => True.

(** How a run may move the clock, the dictionaries, the log and the
    console: the clock is only read, the dictionaries move along [H], every
    new event is in [E] and every new line in [N]. *)
Record advances (H : relation (gmap nat dict)) (E : event -> Prop) (N : line -> Prop)
    (w w' : world) : Prop := Advances {
  adv_reads : reads w <= reads w';
  adv_heap : H (heap w) (heap w');
  adv_log : exists es, log w' = log w ++ es /\ Forall E es;
  adv_console : exists ls, console w' = console w ++ ls /\ Forall N ls
}.

(** Nothing but readings of the clock, events and lines without a
    negative duration: the dictionaries are as they were. *)
Definition calm : relation world := advances eq any_event nonneg_line.

(** No span recorded in the dictionary [l] is negative. *)
Definition nonneg_entries (l : nat) (w : world) : Prop :=
  Forall (fun kv => (0 <= snd kv)%Z) (deref l w).

Definition ticks (l : nat) : relation world :=
  fun w w' =>
    advances any_heap any_event nonneg_line w w' /\
    (nonneg_entries l w -> nonneg_entries l w').

(** The keys of a dictionary after [d[k] = v]: a new key goes to the end. *)
Definition push_label (k : string) (ks : list string) : list string :=
  if bool_decide (k ∈ ks) then ks else ks ++ [k].

(** Statements with as many parameter markers as parameters. *)
Definition markers_match (e : event) : Prop :=
  match e with
  | Execute _ sql params => Str.count "?" sql = length params
  | _ => True
  end.

Definition is_cursor_close (e : event) : Prop :=
  match e with CursorClose _ => True | _ => False end.

(** Date variables as the two sources may hold them. *)
Module Dates.

Definition ini : date_sources :=
  DateSources true
    (Some {[ "dates" := {[ "sc_start" := Some " 20231218"; "sc_end" := Some "20231224 " ]} ]})
    None.

Definition xlsm : date_sources :=
  DateSources false None (Some (VInt 20231218, VInt 20231224)).

(** An INI file without the section, next to a workbook that has the dates. *)
Definition ini_without_section : date_sources :=
  DateSources true (Some ∅) (Some (VInt 20231218, VInt 20231224)).

End Dates.

(** The delimiters a reader of the format finds in a text: commas outside
    quotes.  *)
Fixpoint count_delimiters_from (in_quotes : bool) (s : string) : nat :=
  match s with
  | EmptyString => 0
  | String c s' =>
      if Text.char_eqb c Text.DQUOTE then count_delimiters_from (negb in_quotes) s'
      else if Text.char_eqb c Text.COMMA && negb in_quotes
           then S (count_delimiters_from false s')
           else count_delimiters_from in_quotes s'
  end.

Definition count_delimiters (s : string) : nat := count_delimiters_from false s.

(* ===================================================================== *)
(** * Properties *)
(* ===================================================================== *)

(** ** The library operations on small inputs *)

Example encode_record_plain :
  Csv.encode_record [VDate 2024 1 1; VStr "A"; VInt 10]
  = "2024-01-01,A,10" +:+ String Text.LF "".
Proof. reflexivity. Qed.

Example encode_record_quoting :
  Csv.encode_record [VStr "e,f"; VNone; VInt (-5)]
  = String Text.DQUOTE ("e,f" +:+ String Text.DQUOTE (",,-5" +:+ String Text.LF "")).
Proof. reflexivity. Qed.

Example encode_record_carriage_return_unquoted :
  Csv.encode_record [VStr (String "013"%char "b"); VStr " x"]
  = String "013"%char "b, x" +:+ String Text.LF "".
Proof. reflexivity. Qed.

Example encode_record_single_empty :
  Csv.encode_record [VNone] = String Text.DQUOTE (String Text.DQUOTE (String Text.LF "")).
Proof. reflexivity. Qed.

Example encode_record_no_field : Csv.encode_record [] = String Text.LF "".
Proof. reflexivity. Qed.

Example suffix_examples :
  Pathlib.suffix "foo" = "" /\ Pathlib.suffix "foo.csv" = ".csv" /\
  Pathlib.suffix ".bashrc" = "" /\ Pathlib.suffix "foo." = "" /\
  Pathlib.suffix "a.b.c" = ".c".
Proof. repeat split. Qed.

Example with_suffix_examples :
  Pathlib.with_suffix (mkPath "d" "foo") ".tmp.csv" = Ok (mkPath "d" "foo.tmp.csv") /\
  Pathlib.with_suffix (mkPath "d" "foo.csv") ".tmp.csv" = Ok (mkPath "d" "foo.tmp.csv") /\
  Pathlib.with_suffix (mkPath "d" "foo.tmp.csv") ".tmp.csv"
  = Ok (mkPath "d" "foo.tmp.tmp.csv") /\
  Pathlib.with_suffix (mkPath "d" "foo.") ".tmp.csv" = Ok (mkPath "d" "foo..tmp.csv") /\
  Pathlib.with_suffix (mkPath "d" "") ".tmp.csv" = Raise ValueError.
Proof. repeat split. Qed.

Example windows_path_example :
  Pathlib.windows_path Script.final_unc_path_job1
  = mkPath "\\<file_share>\Accounting\<redacted_path>" "SW_Sales_Chart_Data.csv".
Proof. reflexivity. Qed.

Example batch_len_examples :
  batch_len 3 7 = 3 /\ batch_len 1 7 = 1 /\ batch_len (-1) 7 = 7 /\
  batch_len 0 7 = 0 /\ batch_len (-2) 7 = 0.
Proof. repeat split. Qed.

Example dict_examples :
  Dict.setitem "b" 5 [("a", 1); ("b", 2)]%Z = [("a", 1); ("b", 5)]%Z /\
  Dict.setitem "c" 5 [("a", 1); ("b", 2)]%Z = [("a", 1); ("b", 2); ("c", 5)]%Z /\
  Dict.get "c" 0 [("a", 1); ("b", 2)]%Z = 0%Z /\
  Dict.sum_values [("a", 1); ("b", 2)]%Z = 3%Z.
Proof. repeat split. Qed.

(** ** Text *)

Lemma append_cons (x : ascii) (a b : string) : String x a +:+ b = String x (a +:+ b).
Proof. reflexivity. Qed.

Lemma append_empty_l (a : string) : "" +:+ a = a.
Proof. reflexivity. Qed.

Lemma append_assoc_str (a b c : string) : (a +:+ b) +:+ c = a +:+ (b +:+ c).
Proof.
  induction a as [|x a IH]; [reflexivity|].
  now rewrite !append_cons, IH.
Qed.

Lemma append_empty_r (a : string) : a +:+ "" = a.
Proof.
  induction a as [|x a IH]; [reflexivity|].
  now rewrite append_cons, IH.
Qed.

Lemma length_append_str (a b : string) :
  String.length (a +:+ b) = String.length a + String.length b.
Proof.
  induction a as [|x a IH]; [reflexivity|].
  rewrite append_cons. simpl. now rewrite IH.
Qed.

Lemma csv_text_app (r1 r2 : list row) :
  Csv.csv_text (r1 ++ r2) = Csv.csv_text r1 +:+ Csv.csv_text r2.
Proof.
  induction r1 as [|r r1 IH]; simpl; [reflexivity|].
  now rewrite IH, append_assoc_str.
Qed.

(** ** The loop, one turn at a time *)

Lemma stream_loop_step env f cur k w :
  stream_loop env f cur k w =
  match fetchmany env cur with
  | Raise e => (Raise e, logged (FetchMany (cur_cxn cur)) w)
  | Ok ([], _) => (Ok k, logged (FetchMany (cur_cxn cur)) w)
  | Ok (r :: rows, cur') =>
      match writerows env f (r :: rows) (logged (FetchMany (cur_cxn cur)) w) with
      | (Raise e, w') => (Raise e, w')
      | (Ok _, w') => stream_loop env f cur' (k + length (r :: rows)) w'
      end
  end.
Proof.
  rewrite stream_loop_equation_1.
  assert (H : forall x : {b | fetchmany env cur = b},
    stream_loop_unfold_clause_1 env f cur x k w =
    match proj1_sig x with
    | Raise e => (Raise e, logged (FetchMany (cur_cxn cur)) w)
    | Ok ([], _) => (Ok k, logged (FetchMany (cur_cxn cur)) w)
    | Ok (r :: rows, cur') =>
      match writerows env f (r :: rows) (logged (FetchMany (cur_cxn cur)) w) with
      | (Raise e, w') => (Raise e, w')
      | (Ok _, w') => stream_loop env f cur' (k + length (r :: rows)) w'
      end
    end).
  { intros [[[[|r rows] cur']|e] Heq]; cbn [proj1_sig]; simp stream_loop; try reflexivity.
    generalize (writerows env f (r :: rows) (logged (FetchMany (cur_cxn cur)) w)).
    intros [[[]|e] w']; simp stream_loop; reflexivity. }
  apply (H (inspect (fetchmany env cur))).
Qed.

(** A non-empty batch leaves fewer rows pending. *)
Lemma fetchmany_shrinks env cur r rows cur' :
  fetchmany env cur = Ok (r :: rows, cur') ->
  length (pending cur') < length (pending cur).
Proof.
  unfold fetchmany. destruct (fetch_due env cur); [discriminate|].
  intros H. injection H as Hrows Hcur. subst cur'. simpl.
  rewrite length_drop.
  assert (Hlen : length (take (batch_len (arraysize_of cur) (length (pending cur)))
                              (pending cur)) <> 0) by (rewrite Hrows; discriminate).
  rewrite length_take in Hlen. lia.
Qed.

(** ** Runs written as their three stretches *)

Lemma save_csv_phases env cxn sql params final_unc_path arraysize spans w :
  save_csv_via_staging_streaming env cxn sql params final_unc_path arraysize spans w
  = (x <- stage env cxn sql params final_unc_path arraysize spans ;;
     publish env (fst x) final_unc_path spans ;;;
     cleanup env ;;;
     ret (snd x)) w.
Proof.
  unfold save_csv_via_staging_streaming, stage, publish, cleanup, bind.
  repeat (case_match; simplify_eq/=; try reflexivity).
Qed.

(** ** How runs move the world *)

Lemma instants_snoc_inv (w w' : world) l :
  instants w' = instants w ++ l ->
  l = [] /\ fs w' = fs w \/ exists l', l = l' ++ [fs w'].
Proof.
  unfold instants. intros H.
  destruct l as [|x l _] using rev_ind.
  - left. rewrite app_nil_r in H. apply app_inj_tail in H as [_ H]. auto.
  - right. rewrite !app_assoc in H. apply app_inj_tail in H as [_ H].
    exists l. now rewrite H.
Qed.

Section Evolution.

Context (J : relation (gmap path string)) `{!PreOrder J}.
Context (E : event -> Prop).
Context (K : relation (list bool)) `{!PreOrder K}.

Local Abbreviation R := (evolves J E K).

Lemma evolves_fs w w' : R w w' -> J (fs w) (fs w').
Proof.
  intros [(l & Hl & HF) _ _].
  apply instants_snoc_inv in Hl as [[_ ->] | [l' ->]]; [reflexivity|].
  apply Forall_app in HF as [_ HF]. now inversion HF.
Qed.

#[local] Instance evolves_refl : Reflexive R.
Proof.
  intros w. split; [exists []; split; [now rewrite app_nil_r | constructor]
                   |exists []; split; [now rewrite app_nil_r | constructor]
                   |reflexivity].
Qed.

#[local] Instance evolves_trans : Transitive R.
Proof.
  intros w1 w2 w3 H12 H23.
  pose proof (evolves_fs _ _ H12) as HJ.
  destruct H12 as [(l1 & Hl1 & HF1) (e1 & He1 & HE1) HK1].
  destruct H23 as [(l2 & Hl2 & HF2) (e2 & He2 & HE2) HK2].
  split.
  - exists (l1 ++ l2). split; [now rewrite Hl2, Hl1, app_assoc|].
    apply Forall_app. split; [assumption|].
    eapply Forall_impl; [exact HF2|]. intros f Hf. simpl in Hf. now transitivity (fs w2).
  - exists (e1 ++ e2). split; [now rewrite He2, He1, app_assoc|].
    apply Forall_app. now split.
  - now transitivity (conns w2).
Qed.

(** *** The combinators *)

Lemma preserves_ret {A} (a : A) : preserves R (ret a).
Proof. intros w. reflexivity. Qed.

Lemma preserves_raise {A} e : preserves R (@raise A e).
Proof. intros w. reflexivity. Qed.

Lemma preserves_lift {A} (o : outcome A) : preserves R (lift o).
Proof. intros w. reflexivity. Qed.

Lemma preserves_get_world : preserves R get_world.
Proof. intros w. reflexivity. Qed.

Lemma preserves_bind {A B} (m : M A) (k : A -> M B) :
  preserves R m -> (forall a, preserves R (k a)) -> preserves R (bind m k).
Proof.
  intros Hm Hk w. unfold bind. specialize (Hm w).
  destruct (m w) as [[a|e] w1]; simpl in *; [|assumption].
  etransitivity; [exact Hm | apply Hk].
Qed.

Lemma preserves_bind_lift {A B} (o : outcome A) (k : A -> M B) :
  (forall a, o = Ok a -> preserves R (k a)) -> preserves R (bind (lift o) k).
Proof.
  intros Hk w. unfold bind, lift. destruct o as [a|e]; [now apply Hk | reflexivity].
Qed.

Lemma preserves_try_finally {A} (body : M A) (fin : M unit) :
  preserves R body -> preserves R fin -> preserves R (try_finally body fin).
Proof.
  intros Hb Hf w. unfold try_finally. specialize (Hb w).
  destruct (body w) as [r w1]. specialize (Hf w1).
  destruct (fin w1) as [[[]|e] w2]; simpl in *; etransitivity; eauto.
Qed.

Lemma preserves_try_except_pass (body : M unit) :
  preserves R body -> preserves R (try_except_pass body).
Proof.
  intros Hb w. unfold try_except_pass. specialize (Hb w).
  now destruct (body w) as [r w1].
Qed.

(** *** The state changes *)

Lemma preserves_emit e : E e -> preserves R (emit e).
Proof.
  intros He w. split; simpl.
  - exists []. split; [now rewrite app_nil_r | constructor].
  - exists [e]. split; [reflexivity | now constructor].
  - reflexivity.
Qed.

Lemma preserves_update_fs F : (forall f, J f (F f)) -> preserves R (update_fs F).
Proof.
  intros HF w. split; simpl.
  - exists [F (fs w)]. split; [reflexivity | constructor; [apply HF | constructor]].
  - exists []. split; [now rewrite app_nil_r | constructor].
  - reflexivity.
Qed.

Lemma quiet_step (w w' : world) :
  fs w' = fs w -> past w' = past w -> log w' = log w -> conns w' = conns w -> R w w'.
Proof.
  intros Hf Hp Hl Hc. split.
  - exists []. split; [unfold instants; now rewrite Hf, Hp, app_nil_r | constructor].
  - exists []. split; [now rewrite Hl, app_nil_r | constructor].
  - rewrite Hc. reflexivity.
Qed.

Lemma preserves_update_dirs F : preserves R (update_dirs F).
Proof. intros w. now apply quiet_step. Qed.

Lemma preserves_update_heap F : preserves R (update_heap F).
Proof. intros w. now apply quiet_step. Qed.

Lemma preserves_print l : preserves R (print l).
Proof. intros w. now apply quiet_step. Qed.

Lemma preserves_perf_counter env : preserves R (perf_counter env).
Proof. intros w. now apply quiet_step. Qed.

Lemma preserves_update_conns F : (forall c, K c (F c)) -> preserves R (update_conns F).
Proof.
  intros HF w. split; simpl.
  - exists []. split; [now rewrite app_nil_r | constructor].
  - exists []. split; [now rewrite app_nil_r | constructor].
  - apply HF.
Qed.

(** *** The operations *)

(** Events that are not file operations are always admitted. *)
Context (HE : forall e, ~ is_file_op e -> E e).

Ltac evolve_step :=
  lazymatch goal with
  | |- preserves _ (bind _ _) => apply preserves_bind; [|intros ?]
  | |- preserves _ (try_finally _ _) => apply preserves_try_finally
  | |- preserves _ (try_except_pass _) => apply preserves_try_except_pass
  | |- preserves _ (ret _) => apply preserves_ret
  | |- preserves _ (raise _) => apply preserves_raise
  | |- preserves _ (lift _) => apply preserves_lift
  | |- preserves _ get_world => apply preserves_get_world
  | |- preserves _ (emit _) => apply preserves_emit; try (apply HE; simpl; tauto)
  | |- preserves _ (update_fs _) => apply preserves_update_fs
  | |- preserves _ (update_dirs _) => apply preserves_update_dirs
  | |- preserves _ (update_heap _) => apply preserves_update_heap
  | |- preserves _ (print _) => apply preserves_print
  | |- preserves _ (perf_counter _) => apply preserves_perf_counter
  | |- preserves _ (if ?b then _ else _) => destruct b
  | |- preserves _ (match ?x with _ => _ end) => destruct x
  end.

Ltac evolve := repeat evolve_step.

Lemma preserves_mkdir_parents env d : preserves R (mkdir_parents env d).
Proof. unfold mkdir_parents. evolve. Qed.

Lemma preserves_open_w env p : may_write J E p -> preserves R (open_w env p).
Proof.
  intros (Hw & Ho & _). unfold open_w. evolve; [assumption|].
  intros f. apply Hw.
Qed.

Lemma preserves_write env p s : may_write J E p -> preserves R (write env p s).
Proof.
  intros (Hw & _ & Hwr & _). unfold write. evolve; try apply Hwr.
  all: intros f; apply Hw.
Qed.

Lemma preserves_with_open_w {A} env p (body : path -> M A) :
  may_write J E p -> preserves R (body p) -> preserves R (with_open_w env p body).
Proof.
  intros Hp Hb. unfold with_open_w. evolve_step; [now apply preserves_open_w|].
  evolve_step; [assumption|]. evolve. apply Hp.
Qed.

Lemma preserves_copyfile env src dst :
  E (CopyFile src dst) -> writable J dst -> preserves R (copyfile env src dst).
Proof.
  intros He Hw. unfold copyfile. evolve; try assumption.
  all: intros f; apply Hw.
Qed.

Lemma preserves_os_replace env src dst :
  E (Replace src dst) -> (forall f text, J f (<[dst := text]> (delete src f))) ->
  preserves R (os_replace env src dst).
Proof.
  intros He Hw. unfold os_replace. evolve; try assumption.
  intros f; apply Hw.
Qed.

Lemma preserves_unlink env p :
  E (Unlink p) -> removable J p -> preserves R (unlink_missing_ok env p).
Proof.
  intros He Hw. unfold unlink_missing_ok. evolve; assumption.
Qed.

Lemma preserves_timed_exit env label bucket t0 :
  preserves R (timed_exit env label bucket t0).
Proof.
  unfold timed_exit, bucket_get, bucket_setitem. evolve.
Qed.

Lemma preserves_timed {A} env label bucket (body : M A) :
  preserves R body -> preserves R (timed env label bucket body).
Proof.
  intros Hb. unfold timed. evolve; [assumption|]. apply preserves_timed_exit.
Qed.

Lemma preserves_cxn_cursor cxn : preserves R (cxn_cursor cxn).
Proof. unfold cxn_cursor. evolve. Qed.

Lemma preserves_execute env cur sql params : preserves R (execute env cur sql params).
Proof. unfold execute. evolve. Qed.

Lemma preserves_writerows env f rows :
  may_write J E f -> preserves R (writerows env f rows).
Proof.
  intros Hf. induction rows as [|r rows IH]; simpl; evolve; [|assumption].
  now apply preserves_write.
Qed.

Lemma preserves_stream_loop env f cur k :
  may_write J E f -> preserves R (stream_loop env f cur k).
Proof.
  intros Hf.
  remember (length (pending cur)) as n eqn:Hn.
  revert cur k Hn. induction n as [n IH] using lt_wf_ind. intros cur k Hn w.
  rewrite stream_loop_step.
  assert (Hlog : R w (logged (FetchMany (cur_cxn cur)) w)).
  { apply (preserves_emit (FetchMany (cur_cxn cur))). apply HE. simpl. tauto. }
  destruct (fetchmany env cur) as [[[|r rows] cur']|e] eqn:Hfetch; try exact Hlog.
  pose proof (preserves_writerows env f (r :: rows) Hf
                (logged (FetchMany (cur_cxn cur)) w)) as Hw.
  destruct (writerows env f (r :: rows) (logged (FetchMany (cur_cxn cur)) w))
    as [[[]|e] w1]; cbn [snd] in Hw |- *.
  - transitivity w1; [now transitivity (logged (FetchMany (cur_cxn cur)) w)|].
    apply (IH (length (pending cur'))); [|reflexivity].
    subst n. eapply fetchmany_shrinks; eassumption.
  - now transitivity (logged (FetchMany (cur_cxn cur)) w).
Qed.

Lemma preserves_stream_query env cxn sql params local_csv_path arraysize include_header :
  may_write J E local_csv_path ->
  preserves R (stream_query_to_local_csv env cxn sql params local_csv_path arraysize
                 include_header).
Proof.
  intros Hf. unfold stream_query_to_local_csv.
  evolve_step; [apply preserves_cxn_cursor|].
  evolve_step; [apply preserves_execute|].
  evolve_step; [apply preserves_lift|].
  evolve_step; [|evolve].
  apply preserves_with_open_w; [assumption|].
  evolve_step; [|now apply preserves_stream_loop].
  evolve_step; [now apply preserves_write | apply preserves_ret].
Qed.

Lemma preserves_read_stream env cxn sql params local_tmp arraysize :
  may_write J E local_tmp ->
  preserves R (read_stream env cxn sql params local_tmp arraysize).
Proof.
  intros Hf. unfold read_stream.
  evolve_step; [evolve|].
  evolve_step; [now apply preserves_stream_query|].
  evolve.
Qed.

Lemma preserves_stage env cxn sql params final_unc_path arraysize spans :
  may_write J E (local_tmp_of env) ->
  (forall u, unc_tmp_of env final_unc_path = Ok u ->
             E (CopyFile (local_tmp_of env) u) /\ writable J u) ->
  preserves R (stage env cxn sql params final_unc_path arraysize spans).
Proof.
  intros Hl Hu. unfold stage.
  evolve_step; [apply preserves_mkdir_parents|].
  apply preserves_bind_lift. intros u Hunc. destruct (Hu u Hunc) as [Hc Hw].
  evolve_step; [apply preserves_timed; now apply preserves_read_stream|].
  evolve_step; [apply preserves_timed; now apply preserves_copyfile|].
  apply preserves_ret.
Qed.

Lemma preserves_cleanup env :
  E (Unlink (local_tmp_of env)) -> removable J (local_tmp_of env) ->
  preserves R (cleanup env).
Proof.
  intros He Hr. unfold cleanup. evolve_step. now apply preserves_unlink.
Qed.

End Evolution.

(** ** What the operations compute *)

Lemma timed_run {A} env label bucket (body : M A) w :
  timed env label bucket body w =
  let t0 := perf env (reads w) in
  let '(r, w1) := body (snd (perf_counter env w)) in
  match timed_exit env label bucket t0 w1 with
  | (Ok _, w2) => (r, w2)
  | (Raise e, w2) => (Raise e, w2)
  end.
Proof. reflexivity. Qed.

(** With a dictionary the [finally] block never fails: it takes one
    reading of the clock, updates the entry and prints. *)
Lemma timed_exit_Some env label l t0 w :
  timed_exit env label (Some l) t0 w =
  (Ok tt,
   let dt := (perf env (reads w) - t0)%Z in
   World (fs w) (dirs w) (past w) (log w) (S (reads w))
         (<[l := Dict.setitem label (Dict.get label 0 (deref l w) + dt) (deref l w)]> (heap w))
         (conns w) (console w ++ [SpanLine label dt])).
Proof. reflexivity. Qed.

(** Without one it fails on [bucket.get], before anything is stored or
    printed. *)
Lemma timed_exit_None env label t0 w :
  timed_exit env label None t0 w =
  (Raise AttributeError,
   World (fs w) (dirs w) (past w) (log w) (S (reads w)) (heap w) (conns w) (console w)).
Proof. reflexivity. Qed.

Lemma timed_None {A} env label (body : M A) w :
  fst (timed env label None body w) = Raise AttributeError.
Proof.
  rewrite timed_run. cbv zeta.
  destruct (body (snd (perf_counter env w))) as [r w1].
  now rewrite timed_exit_None.
Qed.

Lemma timed_Some {A} env label l (body : M A) w :
  timed env label (Some l) body w =
  (fst (body (snd (perf_counter env w))),
   snd (timed_exit env label (Some l) (perf env (reads w))
          (snd (body (snd (perf_counter env w)))))).
Proof.
  rewrite timed_run. cbv zeta.
  destruct (body (snd (perf_counter env w))) as [r w1].
  now rewrite timed_exit_Some.
Qed.

Lemma text_at_lookup (f : gmap path string) p c : f !! p = Some c -> text_at f p = c.
Proof. unfold text_at. now intros ->. Qed.

Lemma append_to_lookup (f : gmap path string) p s c :
  f !! p = Some c -> append_to p s f !! p = Some (c +:+ s).
Proof.
  intros H. unfold append_to. rewrite lookup_insert_eq. now rewrite (text_at_lookup _ _ _ H).
Qed.

Lemma write_spec env p s w :
  match write env p s w with
  | (Ok _, w') => fs w' = append_to p s (fs w)
  | (Raise _, _) => disk_room env <> None
  end.
Proof.
  unfold write, bind, emit, get_world. simpl.
  destruct (disk_room env) as [room|]; [|reflexivity].
  destruct (_ <=? _)%nat; simpl; [reflexivity | discriminate].
Qed.

Lemma append_to_insert (f : gmap path string) p s c :
  f !! p = Some c -> append_to p s f = <[p := c +:+ s]> f.
Proof. intros H. unfold append_to. now rewrite (text_at_lookup _ _ _ H). Qed.

Lemma writerows_spec env f rows : forall w c,
  fs w !! f = Some c ->
  match writerows env f rows w with
  | (Ok _, w') => fs w' = <[f := c +:+ Csv.csv_text rows]> (fs w)
  | (Raise _, _) => disk_room env <> None
  end.
Proof.
  induction rows as [|r rows IH]; intros w c Hc; simpl.
  - rewrite append_empty_r. symmetry. now apply insert_id.
  - unfold bind, writerow. pose proof (write_spec env f (Csv.encode_record r) w) as Hw.
    destruct (write env f (Csv.encode_record r) w) as [[[]|e] w1]; [|assumption].
    rewrite (append_to_insert _ _ _ _ Hc) in Hw.
    specialize (IH w1 (c +:+ Csv.encode_record r)).
    rewrite Hw in IH. specialize (IH (lookup_insert_eq _ _ _)).
    destruct (writerows env f rows w1) as [[[]|e] w2]; [|assumption].
    now rewrite IH, insert_insert_eq, append_assoc_str.
Qed.

Lemma fetched_rows_nil a : fetched_rows a [] = [].
Proof. unfold fetched_rows. now destruct (_ || _). Qed.

(** What one call of [fetchmany] says about the rows the cursor yields. *)
Lemma fetchmany_batch env cur rows cur' :
  fetchmany env cur = Ok (rows, cur') ->
  arraysize_of cur' = arraysize_of cur /\
  fetched_rows (arraysize_of cur) (pending cur)
  = rows ++ match rows with
            | [] => []
            | _ => fetched_rows (arraysize_of cur) (pending cur')
            end.
Proof.
  unfold fetchmany. destruct (fetch_due env cur); [discriminate|].
  intros H. injection H as Hrows Hcur. subst cur'. simpl. split; [reflexivity|].
  subst rows. unfold fetched_rows, batch_len.
  destruct (arraysize_of cur =? -1)%Z eqn:Hall; simpl.
  - rewrite firstn_all, drop_all.
    destruct (pending cur); [reflexivity | now rewrite app_nil_r].
  - destruct (0 <? arraysize_of cur)%Z eqn:Hpos.
    + destruct (pending cur) as [|x xs] eqn:Hp.
      * now rewrite take_nil.
      * destruct (Z.to_nat (arraysize_of cur)) as [|n] eqn:Hz; [lia|].
        rewrite <- (take_drop (S n) (x :: xs)) at 1. reflexivity.
    + assert (Hz : Z.to_nat (arraysize_of cur) = 0) by lia.
      now rewrite Hz.
Qed.

Lemma stream_loop_spec env f : forall cur k w c,
  fs w !! f = Some c ->
  match stream_loop env f cur k w with
  | (Ok n, w') =>
      n = k + length (fetched_rows (arraysize_of cur) (pending cur)) /\
      fs w' = <[f := c +:+ Csv.csv_text (fetched_rows (arraysize_of cur) (pending cur))]> (fs w)
  | (Raise _, _) => disk_room env <> None \/ fetch_fault env <> None
  end.
Proof.
  intros cur. remember (length (pending cur)) as n eqn:Hn.
  revert cur Hn. induction n as [n IH] using lt_wf_ind. intros cur Hn k w c Hc.
  rewrite stream_loop_step.
  destruct (fetchmany env cur) as [[[|r rows] cur']|e] eqn:Hfetch.
  - apply fetchmany_batch in Hfetch as [_ ->]. simpl.
    split; [lia|]. rewrite append_empty_r. symmetry. now apply insert_id.
  - pose proof (fetchmany_shrinks _ _ _ _ _ Hfetch) as Hlt.
    apply fetchmany_batch in Hfetch as [Ha Hrows].
    pose proof (writerows_spec env f (r :: rows) (logged (FetchMany (cur_cxn cur)) w) c Hc) as Hw.
    destruct (writerows env f (r :: rows) (logged (FetchMany (cur_cxn cur)) w))
      as [[[]|e] w1]; [|now left].
    change (fs (logged (FetchMany (cur_cxn cur)) w)) with (fs w) in Hw.
    specialize (IH (length (pending cur')) ltac:(lia) cur' eq_refl
                   (k + length (r :: rows)) w1 (c +:+ Csv.csv_text (r :: rows))).
    rewrite Hw in IH. specialize (IH (lookup_insert_eq _ _ _)).
    destruct (stream_loop env f cur' (k + length (r :: rows)) w1) as [[n'|e] w2];
      [|assumption].
    destruct IH as [-> IH]. rewrite Hrows, Ha in *. split.
    + rewrite length_app. simpl. lia.
    + rewrite IH, insert_insert_eq.
      rewrite (csv_text_app (r :: rows)). now rewrite append_assoc_str.
  - unfold fetchmany in Hfetch. right.
    unfold fetch_due in Hfetch. destruct (fetch_fault env); [discriminate|].
    discriminate.
Qed.

(** One step of a sequence: name the outcome of the first computation and
    bring in what is known of it. *)
Ltac step H :=
  let Hs := fresh "Hs" in
  pose proof H as Hs;
  unfold bind at 1;
  match type of Hs with
  | match ?mw with _ => _ end =>
      let a := fresh "a" in let e := fresh "e" in let w := fresh "w" in
      destruct mw as [[a|e] w]; cbn beta iota in Hs |- *
  end.

Lemma cursor_spec cxn w :
  match cxn_cursor cxn w with
  | (Ok cur, w') => cur = Cursor cxn 1 None [] 0 /\ fs w' = fs w
  | (Raise _, _) => is_open cxn w = false
  end.
Proof.
  unfold cxn_cursor, bind, emit, get_world. cbn beta iota.
  replace (is_open cxn _) with (is_open cxn w) by reflexivity.
  destruct (is_open cxn w); [now split | reflexivity].
Qed.

Lemma execute_spec env cur sql params w :
  match execute env cur sql params w with
  | (Ok cur', w') =>
      cur' = Cursor (cur_cxn cur) (arraysize_of cur) (columns env) (result env) 0 /\
      fs w' = fs w
  | (Raise _, _) => execute_ok env = false
  end.
Proof.
  unfold execute, bind, emit. cbn beta iota.
  destruct (execute_ok env); [now split | reflexivity].
Qed.

Lemma open_w_spec env p w :
  match open_w env p w with
  | (Ok _, w') => fs w' = <[p := ""]> (fs w)
  | (Raise _, _) => open_ok env = false
  end.
Proof.
  unfold open_w, bind, emit. cbn beta iota.
  destruct (open_ok env); reflexivity.
Qed.

Lemma stream_body_spec env (f : path) cols (include_header : bool) cur (w : world)
    (c : string) :
  fs w !! f = Some c ->
  match ((if include_header then writerow env f (Csv.header_record cols) else ret tt) ;;;
         stream_loop env f cur 0) w with
  | (Ok n, w') =>
      n = length (fetched_rows (arraysize_of cur) (pending cur)) /\
      fs w' = <[f := c +:+ Csv.csv_text
                        ((if include_header then [Csv.header_record cols] else [])
                         ++ fetched_rows (arraysize_of cur) (pending cur))]> (fs w)
  | (Raise _, _) => disk_room env <> None \/ fetch_fault env <> None
  end.
Proof.
  intros Hc. destruct include_header.
  - unfold writerow. step (write_spec env f (Csv.encode_record (Csv.header_record cols)) w);
      [|now left].
    rewrite (append_to_insert _ _ _ _ Hc) in Hs.
    pose proof (stream_loop_spec env f cur 0 w0 (c +:+ Csv.encode_record (Csv.header_record cols)))
      as Hl.
    rewrite Hs in Hl. specialize (Hl (lookup_insert_eq _ _ _)).
    destruct (stream_loop env f cur 0 w0) as [[n|e] w1]; [|assumption].
    destruct Hl as [-> Hl]. split; [reflexivity|].
    rewrite Hl, insert_insert_eq. simpl. now rewrite append_assoc_str.
  - unfold bind, ret. cbn beta iota.
    pose proof (stream_loop_spec env f cur 0 w c Hc) as Hl.
    destruct (stream_loop env f cur 0 w) as [[n|e] w1]; [|assumption].
    destruct Hl as [-> Hl]. now split.
Qed.

Lemma stream_query_spec env cxn sql params p arraysize include_header w :
  match stream_query_to_local_csv env cxn sql params p arraysize include_header w with
  | (Ok n, w') =>
      exists cols, columns env = Some cols /\
        n = length (fetched_rows arraysize (result env)) /\
        fs w' = <[p := Csv.csv_text
                         ((if include_header then [Csv.header_record cols] else [])
                          ++ fetched_rows arraysize (result env))]> (fs w)
  | (Raise _, _) =>
      is_open cxn w = false \/ execute_ok env = false \/ columns env = None \/
      open_ok env = false \/ disk_room env <> None \/ fetch_fault env <> None
  end.
Proof.
  unfold stream_query_to_local_csv.
  step (cursor_spec cxn w); [destruct Hs as [-> Hfs0] | now left].
  step (execute_spec env (set_arraysize (Cursor cxn 1 None [] 0) arraysize) sql params w0);
    [destruct Hs as [-> Hfs1] | now auto].
  unfold bind at 1, lift. cbn [description].
  destruct (columns env) as [cols|]; [|now auto 6]. cbn beta iota.
  unfold bind at 1, with_open_w. 
  step (open_w_spec env p w1); [|now auto 6].
  unfold try_finally.
  match goal with |- context [stream_loop env p ?c 0] => set (cur := c) end.
  assert (Hp : fs w2 !! p = Some "") by (rewrite Hs; apply lookup_insert_eq).
  pose proof (stream_body_spec env p cols include_header cur w2 "" Hp) as Hb.
  match type of Hb with
  | match ?t with _ => _ end => destruct t as [[n|e] w3]
  end; unfold emit, bind, ret; cbn beta iota; cbn [fs]; [|now auto 6].
  destruct Hb as [-> Hb]. exists cols. split; [reflexivity|]. split; [reflexivity|].
  rewrite Hb, Hs, insert_insert_eq, Hfs1, Hfs0. reflexivity.
Qed.

Lemma read_stream_spec env cxn sql params p arraysize w :
  match read_stream env cxn sql params p arraysize w with
  | (Ok n, w') =>
      exists cols, columns env = Some cols /\
        n = length (fetched_rows arraysize (result env)) /\
        fs w' = <[p := export_text cols (fetched_rows arraysize (result env))]> (fs w)
  | (Raise _, _) =>
      is_open cxn w = false \/ execute_ok env = false \/ columns env = None \/
      open_ok env = false \/ disk_room env <> None \/ fetch_fault env <> None
  end.
Proof.
  unfold read_stream. unfold bind at 1. unfold perf_counter at 1. cbn beta iota.
  unfold bind at 1.
  match goal with
  | |- context [stream_query_to_local_csv env cxn sql params p arraysize true ?w0] =>
      pose proof (stream_query_spec env cxn sql params p arraysize true w0) as Hs;
      destruct (stream_query_to_local_csv env cxn sql params p arraysize true w0)
        as [[n|e] w1]
  end; cbn beta iota; [|exact Hs].
  unfold bind, perf_counter, print, ret. cbn beta iota.
  destruct (0 <? _)%Z; cbn beta iota; cbn [fs]; exact Hs.
Qed.

Lemma copyfile_spec env src dst w :
  match copyfile env src dst w with
  | (Ok _, w') =>
      exists text, fs w !! src = Some text /\ src <> dst /\ copy_fault env = None /\
                   fs w' = <[dst := text]> (fs w)
  | (Raise _, _) => src = dst \/ fs w !! src = None \/ copy_fault env <> None
  end.
Proof.
  unfold copyfile, bind, emit, get_world, update_fs, raise. cbn beta iota.
  destruct (decide (src = dst)) as [Heq|Hne]; [now left|]. cbn [fs].
  destruct (fs w !! src) as [text|] eqn:Hsrc; [|now auto].
  cbn beta iota. destruct (copy_fault env); cbn beta iota; [right; right; discriminate|].
  cbn [fs]. exists text. now rewrite insert_insert_eq.
Qed.

Lemma os_replace_spec env src dst w :
  match os_replace env src dst w with
  | (Ok _, w') =>
      exists text, fs w !! src = Some text /\
        fs w' = <[dst := text]> (delete src (fs w)) /\
        past w' = past w ++ [fs w] /\ log w' = log w ++ [Replace src dst] /\
        conns w' = conns w
  | (Raise _, w') =>
      (replace_ok env = false \/ fs w !! src = None) /\
      fs w' = fs w /\ past w' = past w /\ log w' = log w ++ [Replace src dst] /\
      conns w' = conns w
  end.
Proof.
  unfold os_replace, bind, emit, get_world, update_fs, raise. cbn beta iota.
  destruct (replace_ok env); cbn beta iota; [|now auto]. cbn [fs].
  destruct (fs w !! src) as [text|] eqn:Hsrc; cbn beta iota; [|now auto].
  exists text. easy.
Qed.

Lemma mkdir_spec env d w :
  match mkdir_parents env d w with
  | (Ok _, w') => fs w' = fs w /\ conns w' = conns w
  | (Raise _, _) => mkdir_ok env = false
  end.
Proof.
  unfold mkdir_parents, bind, emit, update_dirs, raise. cbn beta iota.
  destruct (mkdir_ok env); easy.
Qed.

Lemma healthy_inv env :
  healthy env = true ->
  connect_ok env = true /\ execute_ok env = true /\ (exists cols, columns env = Some cols) /\
  fetch_fault env = None /\ mkdir_ok env = true /\ open_ok env = true /\
  disk_room env = None /\ copy_fault env = None /\ replace_ok env = true.
Proof.
  unfold healthy, no_fault. intros H.
  repeat (apply andb_prop in H as [H ?]).
  destruct (fetch_fault env), (disk_room env), (copy_fault env); try discriminate.
  match goal with Hc : bool_decide _ = true |- _ => apply bool_decide_eq_true in Hc as [cols Hc] end.
  repeat split; eauto.
Qed.

Ltac unhealthy :=
  match goal with
  | |- healthy ?env = false =>
      let H := fresh in
      destruct (healthy env) eqn:H; [|reflexivity];
      apply healthy_inv in H; destruct H as (? & ? & [? ?] & ? & ? & ? & ? & ? & ?);
      intuition congruence
  end.

(** What the first stretch leaves behind, and the ways it can fail. *)
Lemma stage_spec env cxn sql params final_unc_path arraysize spans w :
  match stage env cxn sql params final_unc_path arraysize spans w with
  | (Ok (u, n), w') =>
      unc_tmp_of env final_unc_path = Ok u /\ is_Some spans /\ local_tmp_of env <> u /\
      copy_fault env = None /\
      exists cols, columns env = Some cols /\
        n = length (fetched_rows arraysize (result env)) /\
        fs w' = <[u := export_text cols (fetched_rows arraysize (result env))]>
                  (<[local_tmp_of env := export_text cols (fetched_rows arraysize (result env))]>
                     (fs w))
  | (Raise _, _) =>
      spans = None \/ healthy env = false \/ is_open cxn w = false \/
      (exists e, unc_tmp_of env final_unc_path = Raise e) \/
      unc_tmp_of env final_unc_path = Ok (local_tmp_of env)
  end.
Proof.
  unfold stage.
  step (mkdir_spec env (parent (final_unc_of env final_unc_path)) w);
    [destruct Hs as [Hfs0 Hc0] | right; left; unhealthy].
  unfold bind at 1, lift.
  destruct (unc_tmp_of env final_unc_path) as [u|e0] eqn:Hu; cbn beta iota;
    [|right; right; right; left; eauto].
  destruct spans as [l|].
  2:{ unfold bind at 1.
      pose proof (timed_None env "READ_STREAM_TO_LOCAL_CSV"
                    (read_stream env cxn sql params (local_tmp_of env) arraysize) w0) as Hn.
      destruct (timed _ _ _ _ _) as [[n|e] w1]; [discriminate | now left]. }
  unfold bind at 1. rewrite timed_Some. cbn beta iota.
  pose proof (read_stream_spec env cxn sql params (local_tmp_of env) arraysize
                (snd (perf_counter env w0))) as Hr.
  destruct (read_stream env cxn sql params (local_tmp_of env) arraysize
              (snd (perf_counter env w0))) as [[n|e] w1]; cbn [fst snd].
  2:{ right. replace (is_open cxn (snd (perf_counter env w0))) with (is_open cxn w) in Hr
        by (unfold is_open; cbn [snd perf_counter conns]; now rewrite Hc0).
      destruct Hr as [Hr|Hr]; [now auto|]. left. unhealthy. }
  destruct Hr as (cols & Hcols & -> & Hlocal).
  change (fs (snd (perf_counter env w0))) with (fs w0) in Hlocal. rewrite Hfs0 in Hlocal.
  unfold bind at 1. rewrite timed_Some. cbn beta iota.
  match goal with
  | |- context [copyfile env (local_tmp_of env) u ?w2] =>
      pose proof (copyfile_spec env (local_tmp_of env) u w2) as Hc;
      assert (Hfs2 : fs w2 = fs w1) by reflexivity;
      destruct (copyfile env (local_tmp_of env) u w2) as [[[]|e] w3]
  end; cbn [fst snd].
  2:{ rewrite Hfs2, Hlocal, lookup_insert_eq in Hc.
      destruct Hc as [Hc|[Hc|Hc]]; [|discriminate|].
      - right; right; right; right. congruence.
      - right; left. unhealthy. }
  destruct Hc as (text & Hsrc & Hne & Hcf & Hfs3).
  rewrite Hfs2, Hlocal, lookup_insert_eq in Hsrc. injection Hsrc as <-.
  unfold ret. cbn beta iota.
  match goal with
  | |- context [fs ?w4 = _] => assert (Hfs4 : fs w4 = fs w3) by reflexivity; rewrite Hfs4
  end.
  split; [reflexivity|]. split; [eauto|]. split; [assumption|]. split; [assumption|].
  exists cols. split; [assumption|]. split; [reflexivity|].
  now rewrite Hfs3, Hfs2, Hlocal.
Qed.

Lemma publish_spec env u final_unc_path l w :
  match publish env u final_unc_path (Some l) w with
  | (Ok _, w') =>
      exists text, fs w !! u = Some text /\
        fs w' = <[final_unc_of env final_unc_path := text]> (delete u (fs w)) /\
        past w' = past w ++ [fs w] /\
        log w' = log w ++ [Replace u (final_unc_of env final_unc_path)] /\
        conns w' = conns w
  | (Raise _, w') =>
      (replace_ok env = false \/ fs w !! u = None) /\
      fs w' = fs w /\ past w' = past w /\
      log w' = log w ++ [Replace u (final_unc_of env final_unc_path)] /\
      conns w' = conns w
  end.
Proof.
  unfold publish. rewrite timed_Some.
  pose proof (os_replace_spec env u (final_unc_of env final_unc_path)
                (snd (perf_counter env w))) as Hr.
  destruct (os_replace env u (final_unc_of env final_unc_path) (snd (perf_counter env w)))
    as [[[]|e] w1]; cbn [fst snd]; exact Hr.
Qed.

Lemma cleanup_spec env w :
  exists w', cleanup env w = (Ok tt, w') /\
    log w' = log w ++ [Unlink (local_tmp_of env)] /\ conns w' = conns w /\
    fs w' = (if unlink_ok env then delete (local_tmp_of env) (fs w) else fs w).
Proof.
  unfold cleanup, try_except_pass, unlink_missing_ok, bind, emit, update_fs, raise.
  cbn beta iota. destruct (unlink_ok env); cbn beta iota; eexists; repeat split.
Qed.

(** ** The temporary name differs from the final name *)

Lemma take_drop_str n s : Text.take_str n s +:+ Text.drop_str n s = s.
Proof.
  revert s. induction n as [|n IH]; intros [|a s]; try reflexivity.
  simpl. now rewrite append_cons, IH.
Qed.

Lemma length_drop_str n s : String.length (Text.drop_str n s) = String.length s - n.
Proof. revert s. induction n as [|n IH]; intros [|a s]; simpl; auto. Qed.

Lemma drop_str_S n s : Text.drop_str (S n) s = Text.drop_str 1 (Text.drop_str n s).
Proof.
  revert s. induction n as [|n IH]; intros [|a s]; try reflexivity.
  change (Text.drop_str (S (S n)) (String a s)) with (Text.drop_str (S n) s).
  now rewrite IH.
Qed.

(** After the last occurrence there is no other. *)
Lemma rfind_last c s i :
  Text.rfind c s = Some i -> Text.rfind c (Text.drop_str (S i) s) = None.
Proof.
  revert i. induction s as [|a s IH]; intros i; simpl; [discriminate|].
  destruct (Text.rfind c s) as [j|] eqn:Hj.
  - intros H. injection H as <-. now apply IH.
  - destruct (Text.char_eqb a c); [|discriminate].
    intros H. injection H as <-. simpl. exact Hj.
Qed.

Lemma with_suffix_name_fresh p u :
  Pathlib.with_suffix p ".tmp.csv" = Ok u -> name u <> name p.
Proof.
  unfold Pathlib.with_suffix.
  destruct (Text.is_empty (name p)); [discriminate|].
  destruct (Text.is_empty (Pathlib.suffix (name p))) eqn:Hsfx.
  - intros H. injection H as <-. simpl. intros Heq.
    apply (f_equal String.length) in Heq. rewrite length_append_str in Heq.
    simpl in Heq. lia.
  - intros H. injection H as <-. simpl. intros Heq.
    unfold Pathlib.suffix in *.
    destruct (Text.rfind Text.DOT (name p)) as [i|] eqn:Hi; [|discriminate].
    destruct ((0 <? i)%nat && (i <? String.length (name p) - 1)%nat) eqn:Hrange;
      [|discriminate].
    apply andb_prop in Hrange as [_ Hlt]. apply Nat.ltb_lt in Hlt.
    rewrite length_drop_str in Heq.
    replace (String.length (name p) - (String.length (name p) - i)) with i in Heq by lia.
    rewrite <- (take_drop_str i (name p)) in Heq at 2.
    apply String.app_inj in Heq.
    apply rfind_last in Hi. rewrite drop_str_S, <- Heq in Hi. discriminate.
Qed.

Lemma unc_tmp_fresh env final_unc_path u :
  unc_tmp_of env final_unc_path = Ok u -> u <> final_unc_of env final_unc_path.
Proof.
  unfold unc_tmp_of. intros H Heq. apply with_suffix_name_fresh in H.
  now rewrite Heq in H.
Qed.

(** ** Relations between file-system states *)

#[global] Instance same_at_preorder p : PreOrder (same_at p).
Proof.
  split; [intros f; reflexivity|].
  intros f g h Hfg Hgh. unfold same_at in *. congruence.
Qed.

#[global] Instance same_or_preorder p text : PreOrder (same_or p text).
Proof.
  split; [intros f; now left|].
  intros f g h [Hfg|Hfg] [Hgh|Hgh]; unfold same_or; rewrite ?Hgh, ?Hfg; auto.
Qed.

#[global] Instance any_state_preorder : PreOrder any_state.
Proof. split; [intros f | intros f g h _ _]; exact I. Qed.

Lemma fresh_of_evolves J E K w w' :
  evolves J E K w w' ->
  Forall (J (fs w)) (fresh_instants w w') /\ Forall E (fresh_log w w') /\
  K (conns w) (conns w').
Proof.
  intros [(l & Hl & HF) (e & He & HE) HK]. unfold fresh_instants, fresh_log.
  rewrite Hl, He, !drop_app_length. auto.
Qed.

(** One new state and one new event. *)
Lemma evolves_single (J : relation (gmap path string)) (E : event -> Prop) (w w' : world) e :
  past w' = past w ++ [fs w] -> log w' = log w ++ [e] -> conns w' = conns w ->
  J (fs w) (fs w') -> E e -> evolves J E eq w w'.
Proof.
  intros Hp Hl Hc HJ He. split.
  - exists [fs w']. split; [unfold instants; now rewrite Hp | now repeat constructor].
  - exists [e]. split; [assumption | now repeat constructor].
  - now symmetry.
Qed.

(** One new event and nothing else. *)
Lemma evolves_event (J : relation (gmap path string)) (E : event -> Prop) (w w' : world) e :
  fs w' = fs w -> past w' = past w -> log w' = log w ++ [e] -> conns w' = conns w ->
  E e -> evolves J E eq w w'.
Proof.
  intros Hf Hp Hl Hc He. split.
  - exists []. split; [unfold instants; now rewrite Hf, Hp, app_nil_r | constructor].
  - exists [e]. split; [assumption | now repeat constructor].
  - now symmetry.
Qed.

(** ** The destination during a run *)

Lemma save_csv_evolves env cxn sql params final_unc_path arraysize spans w :
  local_tmp_of env <> final_unc_of env final_unc_path ->
  evolves (same_or (final_unc_of env final_unc_path) (export_of env arraysize))
          (only_renamed env final_unc_path) eq
          w (snd (save_csv_via_staging_streaming env cxn sql params final_unc_path
                    arraysize spans w)).
Proof.
  intros Hlocal.
  set (final := final_unc_of env final_unc_path) in *.
  set (J := same_or final (export_of env arraysize)).
  set (E := only_renamed env final_unc_path).
  assert (HE : forall e, ~ is_file_op e -> E e).
  { intros e He Hw. destruct e; simpl in *; tauto. }
  assert (Hwr : forall p, p <> final -> writable J p).
  { intros p Hp f v. left. now apply lookup_insert_ne. }
  assert (Hmw : may_write J E (local_tmp_of env)).
  { split; [now apply Hwr|]. repeat split; intros; intros Hw; simpl in Hw; contradiction. }
  rewrite save_csv_phases. unfold bind at 1.
  pose proof (stage_spec env cxn sql params final_unc_path arraysize spans w) as Hsp.
  assert (Hst : evolves J E eq w
                  (snd (stage env cxn sql params final_unc_path arraysize spans w))).
  { apply preserves_stage; try assumption; try apply _.
    intros u Hu. apply unc_tmp_fresh in Hu. split; [|now apply Hwr].
    intros Hw. simpl in Hw. contradiction. }
  destruct (stage env cxn sql params final_unc_path arraysize spans w) as [[[u n]|e] w1];
    cbn [fst snd] in *; [|exact Hst].
  destruct Hsp as (Hu & [l ->] & Hne & Hcf & cols & Hcols & -> & Hfs1).
  unfold bind at 1.
  pose proof (publish_spec env u final_unc_path l w1) as Hp.
  destruct (publish env u final_unc_path (Some l) w1) as [[[]|e] w2].
  - destruct Hp as (text & Hsrc & Hfs2 & Hpast2 & Hlog2 & Hc2).
    rewrite Hfs1, lookup_insert_eq in Hsrc. injection Hsrc as <-.
    assert (H12 : evolves J E eq w1 w2).
    { eapply evolves_single; try eassumption.
      - right. fold final in Hfs2. rewrite Hfs2, lookup_insert_eq.
        unfold export_of. now rewrite Hcols.
      - intros _. now exists u. }
    unfold bind at 1.
    assert (H23 : evolves J E eq w2 (snd (cleanup env w2))).
    { apply preserves_cleanup; try assumption; try apply _.
      - intros Hw. simpl in Hw. contradiction.
      - intros f. left. now apply lookup_delete_ne. }
    destruct (cleanup env w2) as [[[]|e] w3]; cbn [fst snd] in *.
    + eapply evolves_trans; [apply _ | apply _ | exact Hst |].
      eapply evolves_trans; [apply _ | apply _ | exact H12 | exact H23].
    + eapply evolves_trans; [apply _ | apply _ | exact Hst |].
      eapply evolves_trans; [apply _ | apply _ | exact H12 | exact H23].
  - destruct Hp as (_ & Hfs2 & Hpast2 & Hlog2 & Hc2). cbn [snd].
    eapply evolves_trans; [apply _ | apply _ | exact Hst |].
    eapply evolves_event; try eassumption.
    intros _. now exists u.
Qed.

(** ** The three ways a run can go *)

Lemma save_csv_shape (J : relation (gmap path string)) `{!PreOrder J}
    env cxn sql params final_unc_path arraysize spans w :
  writable J (local_tmp_of env) ->
  (forall u, unc_tmp_of env final_unc_path = Ok u -> writable J u) ->
  run_shape J env cxn final_unc_path arraysize spans w
    (fst (save_csv_via_staging_streaming env cxn sql params final_unc_path arraysize spans w))
    (snd (save_csv_via_staging_streaming env cxn sql params final_unc_path arraysize spans w)).
Proof.
  intros Hwl Hwu.
  assert (HE : forall e, ~ is_file_op e -> staging_event e).
  { intros e He. destruct e; simpl in *; split; tauto. }
  assert (Hmw : may_write J staging_event (local_tmp_of env)).
  { split; [assumption|]. repeat split; simpl; tauto. }
  destruct (save_csv_via_staging_streaming env cxn sql params final_unc_path arraysize
              spans w) as [r w'] eqn:Hrun; cbn [fst snd].
  revert Hrun. rewrite save_csv_phases. unfold bind at 1.
  pose proof (stage_spec env cxn sql params final_unc_path arraysize spans w) as Hsp.
  assert (Hst : evolves J staging_event eq w
                  (snd (stage env cxn sql params final_unc_path arraysize spans w))).
  { apply preserves_stage; try assumption; try apply _.
    intros u Hu. split; [split; simpl; tauto | now apply Hwu]. }
  destruct (stage env cxn sql params final_unc_path arraysize spans w) as [[[u n]|e] w1];
    cbn [fst snd] in *.
  2:{ intros Hrun. injection Hrun as <- <-. apply StageFailed; [exact Hst | exact Hsp]. }
  destruct Hsp as (Hu & [l ->] & Hne & Hcf & cols & Hcols & -> & Hfs1).
  assert (Hexp : export_text cols (fetched_rows arraysize (result env))
                 = export_of env arraysize) by (unfold export_of; now rewrite Hcols).
  rewrite Hexp in Hfs1.
  assert (Hc1 : conns w1 = conns w).
  { destruct (fresh_of_evolves _ _ _ _ _ Hst) as (_ & _ & Hc1). now symmetry. }
  unfold bind at 1.
  pose proof (publish_spec env u final_unc_path l w1) as Hp.
  destruct (publish env u final_unc_path (Some l) w1) as [[[]|e] w2]; cbn [fst snd].
  - destruct Hp as (text & Hsrc & Hfs2 & Hpast2 & Hlog2 & Hc2).
    rewrite Hfs1, lookup_insert_eq in Hsrc. injection Hsrc as <-.
    unfold bind at 1.
    destruct (cleanup_spec env w2) as (w3 & -> & Hlog3 & Hc3 & Hfs3). cbn [fst snd].
    intros Hrun. injection Hrun as <- <-.
    eapply Published; eauto. congruence.
  - destruct Hp as (Hwhy & Hfs2 & Hpast2 & Hlog2 & Hc2).
    intros Hrun. injection Hrun as <- <-.
    eapply RenameFailed; eauto; [|congruence].
    destruct Hwhy as [Hwhy|Hwhy]; [assumption|].
    rewrite Hfs1, lookup_insert_eq in Hwhy. discriminate.
Qed.

(** ** Runs in which nothing fails *)

Lemma fetched_rows_all arraysize rows :
  (1 <= arraysize)%Z -> fetched_rows arraysize rows = rows.
Proof.
  intros H. unfold fetched_rows.
  assert (Hpos : (0 <? arraysize)%Z = true) by lia.
  now rewrite Hpos, orb_true_r.
Qed.

Lemma stream_query_healthy env cxn sql params p arraysize include_header w cols :
  healthy env = true -> columns env = Some cols -> is_open cxn w = true ->
  exists w',
    stream_query_to_local_csv env cxn sql params p arraysize include_header w
    = (Ok (length (fetched_rows arraysize (result env))), w') /\
    fs w' = <[p := Csv.csv_text
                     ((if include_header then [Csv.header_record cols] else [])
                      ++ fetched_rows arraysize (result env))]> (fs w).
Proof.
  intros Hh Hcols Hopen.
  pose proof (stream_query_spec env cxn sql params p arraysize include_header w) as Hs.
  apply healthy_inv in Hh as (_ & Hex & _ & Hff & _ & Hop & Hdr & _).
  destruct (stream_query_to_local_csv env cxn sql params p arraysize include_header w)
    as [[n|e] w'].
  - destruct Hs as (cols' & Hcols' & -> & Hfs). exists w'. split; [reflexivity|].
    assert (cols' = cols) by congruence. now subst cols'.
  - exfalso. intuition congruence.
Qed.

Lemma save_csv_healthy env cxn sql params final_unc_path arraysize l w u :
  healthy env = true -> is_open cxn w = true ->
  unc_tmp_of env final_unc_path = Ok u -> local_tmp_of env <> u ->
  exists w',
    save_csv_via_staging_streaming env cxn sql params final_unc_path arraysize (Some l) w
    = (Ok (length (fetched_rows arraysize (result env))), w') /\
    fs w' = (if unlink_ok env then delete (local_tmp_of env) else id)
              (<[final_unc_of env final_unc_path := export_of env arraysize]>
                 (delete u (<[u := export_of env arraysize]>
                              (<[local_tmp_of env := export_of env arraysize]> (fs w))))) /\
    conns w' = conns w.
Proof.
  intros Hh Hopen Hu Hne.
  pose proof (save_csv_shape any_state env cxn sql params final_unc_path arraysize (Some l) w
                ltac:(intros f v; exact I) ltac:(intros u' _ f v; exact I)) as Hshape.
  destruct (save_csv_via_staging_streaming env cxn sql params final_unc_path arraysize
              (Some l) w) as [r w']; cbn [fst snd] in Hshape.
  destruct Hshape as [e w' _ Hfault | e w1 w' u' _ _ _ _ Hrep | w1 w2 w' u' cols ].
  - exfalso. unfold stage_fault in Hfault. rewrite Hu in Hfault.
    destruct Hfault as [Hf|[Hf|[Hf|[[e' Hf]|Hf]]]]; try congruence.
  - exfalso. apply healthy_inv in Hh. intuition congruence.
  - exists w'. split; [reflexivity|]. split; [|assumption].
    assert (u' = u) by congruence. subst u'.
    destruct (unlink_ok env); simpl; congruence.
Qed.

(** The published file, looked up at the destination. *)
Lemma published_lookup (f : gmap path string) (unlink : bool) (local u final : path) text :
  local <> final ->
  (if unlink then delete local else id)
    (<[final := text]> (delete u (<[u := text]> (<[local := text]> f)))) !! final
  = Some text.
Proof.
  intros Hne. destruct unlink; simpl.
  - rewrite lookup_delete_ne by assumption. apply lookup_insert_eq.
  - apply lookup_insert_eq.
Qed.

(** ** Counting the records of an export *)

Lemma count_plain b s t :
  Csv.needs_quotes s = false ->
  count_records_from b (s +:+ t) = count_records_from b t.
Proof.
  induction s as [|a s IH]; [reflexivity|]. simpl. intros H.
  apply orb_false_elim in H as [Ha Hs]. unfold Csv.special in Ha.
  apply orb_false_elim in Ha as [Ha Hlf]. apply orb_false_elim in Ha as [_ Hq].
  rewrite Hq, Hlf. simpl. now apply IH.
Qed.

Lemma count_quoted_body s t :
  count_records_from true (Csv.double_quotes s +:+ t) = count_records_from true t.
Proof.
  induction s as [|a s IH]; [reflexivity|]. simpl.
  destruct (Text.char_eqb a Text.DQUOTE) eqn:Hq.
  - simpl. exact IH.
  - simpl. rewrite Hq, andb_false_r. exact IH.
Qed.

Lemma count_quoted s t :
  count_records_from false (Csv.quoted s +:+ t) = count_records_from false t.
Proof.
  unfold Csv.quoted. rewrite append_cons, append_assoc_str. simpl.
  rewrite count_quoted_body. reflexivity.
Qed.

Lemma count_field s t :
  count_records_from false (Csv.encode_field s +:+ t) = count_records_from false t.
Proof.
  unfold Csv.encode_field. destruct (Csv.needs_quotes s) eqn:H.
  - apply count_quoted.
  - now apply count_plain.
Qed.

Lemma count_join (fields : list string) t :
  count_records_from false
    (Text.join (String Text.COMMA EmptyString) (map Csv.encode_field fields) +:+ t)
  = count_records_from false t.
Proof.
  induction fields as [|s fields IH]; [reflexivity|].
  destruct fields as [|s' fields].
  - simpl. apply count_field.
  - change (Text.join _ (map Csv.encode_field (s :: s' :: fields)))
      with (Csv.encode_field s +:+ String Text.COMMA EmptyString
            +:+ Text.join (String Text.COMMA EmptyString)
                  (map Csv.encode_field (s' :: fields))).
    rewrite !append_assoc_str, count_field. rewrite append_cons. simpl. exact IH.
Qed.

Lemma count_record r t :
  count_records_from false (Csv.encode_record r +:+ t) = S (count_records_from false t).
Proof.
  assert (Hgen : count_records_from false
            ((Text.join (String Text.COMMA EmptyString)
                (map (fun v => Csv.encode_field (Csv.field_text v)) r)
              +:+ String Text.LF EmptyString) +:+ t) = S (count_records_from false t)).
  { rewrite append_assoc_str. rewrite <- (map_map Csv.field_text Csv.encode_field).
    rewrite count_join. reflexivity. }
  destruct r as [|v [|v' r]]; try exact Hgen.
  unfold Csv.encode_record. destruct (Text.is_empty (Csv.field_text v)); [|exact Hgen].
  rewrite append_assoc_str, count_quoted. reflexivity.
Qed.

Lemma count_records_csv_text records :
  count_records (Csv.csv_text records) = length records.
Proof.
  unfold count_records. induction records as [|r records IH]; [reflexivity|].
  simpl. now rewrite count_record, IH.
Qed.

(** ** Failures and the destination *)

Lemma fresh_log_snoc (w w1 w' : world) l1 l :
  log w1 = log w ++ l1 -> log w' = log w1 ++ l -> fresh_log w w' = l1 ++ l.
Proof.
  intros H1 H'. unfold fresh_log. now rewrite H', H1, <- app_assoc, drop_app_length.
Qed.

Lemma fresh_instants_same (w w1 w' : world) :
  fs w' = fs w1 -> past w' = past w1 -> fresh_instants w w' = fresh_instants w w1.
Proof. intros Hf Hp. unfold fresh_instants, instants. now rewrite Hf, Hp. Qed.

(** C3: when the staging file is not the destination itself, a copy that
    fails makes the run fail without any rename being tried; and whenever
    the run fails, at whatever step, the destination holds at every instant
    of the run, and at its end, what it held before. *)
Theorem failure_leaves_destination env cxn sql params final_unc_path arraysize spans w :
  local_tmp_of env <> final_unc_of env final_unc_path ->
  let final := final_unc_of env final_unc_path in
  let r := fst (save_csv_via_staging_streaming env cxn sql params final_unc_path
                  arraysize spans w) in
  let w' := snd (save_csv_via_staging_streaming env cxn sql params final_unc_path
                   arraysize spans w) in
  (copy_fault env <> None ->
   raised r = true /\ Forall (fun e => ~ is_replace e) (fresh_log w w')) /\
  (raised r = true ->
   Forall (fun f => f !! final = fs w !! final) (fresh_instants w w') /\
   fs w' !! final = fs w !! final).
Proof.
  intros Hlocal final r w'. subst r w'.
  pose proof (save_csv_shape (same_at final) env cxn sql params final_unc_path arraysize
                spans w) as Hshape.
  destruct (save_csv_via_staging_streaming env cxn sql params final_unc_path arraysize
              spans w) as [r w']; cbn [fst snd] in *.
  assert (Hsh : run_shape (same_at final) env cxn final_unc_path arraysize spans w r w').
  { apply Hshape.
    - intros f v. now apply lookup_insert_ne.
    - intros u Hu f v. apply lookup_insert_ne. now apply unc_tmp_fresh. }
  clear Hshape.
  destruct Hsh as [e w' Hev _ | e w1 w' u Hev _ _ Hcf _ Hfs Hpast _ _
                  | w1 w2 w' u cols _ _ _ _ _ Hcf].
  - pose proof (evolves_fs _ _ _ _ _ Hev) as Hlast.
    apply fresh_of_evolves in Hev as (HJ & HE & _). split.
    + intros _. split; [reflexivity|].
      eapply Forall_impl; [exact HE|]. now intros x [Hx _].
    + intros _. split; [exact HJ | exact Hlast].
  - split; [intros Hc; contradiction|].
    intros _. rewrite (fresh_instants_same w w1 w' Hfs Hpast), Hfs.
    pose proof (evolves_fs _ _ _ _ _ Hev) as Hlast.
    apply fresh_of_evolves in Hev as (HJ & _). split; [exact HJ | exact Hlast].
  - split; [intros Hc; contradiction | discriminate].
Qed.

Lemma failure_leaves_destination_witness :
  local_tmp_of (Scenario.with_copy_fault 9 Scenario.env)
  <> final_unc_of (Scenario.with_copy_fault 9 Scenario.env) Scenario.destination /\
  let env := Scenario.with_copy_fault 9 Scenario.env in
  let w := Scenario.world_with_export in
  let final := final_unc_of env Scenario.destination in
  let r := fst (save_csv_via_staging_streaming env 0 "SELECT" [] Scenario.destination
                  100000 (Some 0) w) in
  let w' := snd (save_csv_via_staging_streaming env 0 "SELECT" [] Scenario.destination
                   100000 (Some 0) w) in
  (raised r = true /\ Forall (fun e => ~ is_replace e) (fresh_log w w')) /\
  (Forall (fun f => f !! final = fs w !! final) (fresh_instants w w') /\
   fs w' !! final = fs w !! final).
Proof.
  assert (H : local_tmp_of (Scenario.with_copy_fault 9 Scenario.env)
              <> final_unc_of (Scenario.with_copy_fault 9 Scenario.env) Scenario.destination)
    by (vm_compute; discriminate).
  split; [exact H|].
  destruct (failure_leaves_destination (Scenario.with_copy_fault 9 Scenario.env) 0 "SELECT" []
              Scenario.destination 100000 (Some 0) Scenario.world_with_export H) as [P1 P2].
  split; [apply P1; vm_compute; discriminate | apply P2; reflexivity].
Defined.

(** ** At most one rename *)

Lemma only_at_end (P : event -> Prop) (l tail : list event) i e :
  Forall (fun x => ~ P x) l -> (l ++ tail) !! i = Some e -> P e ->
  exists k, i = length l + k /\ tail !! k = Some e.
Proof.
  intros Hl Hi HP. destruct (decide (i < length l)) as [Hlt|Hge].
  - rewrite lookup_app_l in Hi by assumption.
    exfalso. eapply Forall_lookup_1 in Hl; [|exact Hi]. contradiction.
  - rewrite lookup_app_r in Hi by lia. exists (i - length l). split; [lia | assumption].
Qed.

Lemma at_most_once_tail (P : event -> Prop) (l tail : list event) :
  Forall (fun x => ~ P x) l -> at_most_once P tail -> at_most_once P (l ++ tail).
Proof.
  intros Hl Ht i j e e' Hi Hj He He'.
  destruct (only_at_end P l tail i e Hl Hi He) as (k & -> & Hk).
  destruct (only_at_end P l tail j e' Hl Hj He') as (k' & -> & Hk').
  f_equal. eapply Ht; eassumption.
Qed.

Lemma save_csv_renames_once env cxn sql params final_unc_path arraysize spans w :
  at_most_once is_replace
    (fresh_log w (snd (save_csv_via_staging_streaming env cxn sql params final_unc_path
                         arraysize spans w))).
Proof.
  pose proof (save_csv_shape any_state env cxn sql params final_unc_path arraysize spans w
                ltac:(intros f v; exact I) ltac:(intros u' _ f v; exact I)) as Hshape.
  destruct (save_csv_via_staging_streaming env cxn sql params final_unc_path arraysize
              spans w) as [r w']; cbn [fst snd] in *.
  assert (Hno : forall l, Forall staging_event l -> Forall (fun x => ~ is_replace x) l).
  { intros l Hl. eapply Forall_impl; [exact Hl|]. now intros x [Hx _]. }
  destruct Hshape as [e w' Hev _ | e w1 w' u Hev _ _ _ _ _ _ Hlog _
                     | w1 w2 w' u cols Hev _ _ _ _ _ _ _ _ Hlog2 Hlog' _ _].
  - apply fresh_of_evolves in Hev as (_ & HE & _).
    rewrite <- (app_nil_r (fresh_log w w')).
    apply at_most_once_tail; [now apply Hno|]. intros i j e1 e2 Hi. discriminate.
  - destruct Hev as [_ (l1 & Hl1 & HE) _].
    rewrite (fresh_log_snoc w w1 w' l1 _ Hl1 Hlog).
    apply at_most_once_tail; [now apply Hno|].
    intros [|i] [|j] e1 e2 Hi Hj _ _; try reflexivity; discriminate.
  - destruct Hev as [_ (l1 & Hl1 & HE) _].
    rewrite Hlog2, <- app_assoc in Hlog'.
    rewrite (fresh_log_snoc w w1 w' l1 _ Hl1 Hlog').
    apply at_most_once_tail; [now apply Hno|].
    intros [|[|i]] [|[|j]] e1 e2 Hi Hj H1 H2; try reflexivity;
      simpl in Hi, Hj; try discriminate;
      injection Hi as <-; injection Hj as <-; simpl in *; contradiction.
Qed.

(** C1: during a run of [save_csv_via_staging_streaming] whose staging
    file is not the destination itself, the only operation that changes
    the destination path is the rename onto it of the temporary file, which
    lies in the same directory under another name; there is at most one
    rename; and at every instant of the run the destination holds what it
    held before the run or the complete new export. *)
Theorem destination_changes_by_rename_only env cxn sql params final_unc_path arraysize spans w :
  local_tmp_of env <> final_unc_of env final_unc_path ->
  let final := final_unc_of env final_unc_path in
  let w' := snd (save_csv_via_staging_streaming env cxn sql params final_unc_path
                   arraysize spans w) in
  Forall (only_renamed env final_unc_path) (fresh_log w w') /\
  at_most_once is_replace (fresh_log w w') /\
  (forall u, unc_tmp_of env final_unc_path = Ok u -> parent u = parent final /\ u <> final) /\
  Forall (fun f => f !! final = fs w !! final \/ f !! final = Some (export_of env arraysize))
         (fresh_instants w w').
Proof.
  intros Hlocal final w'.
  destruct (fresh_of_evolves _ _ _ _ _
              (save_csv_evolves env cxn sql params final_unc_path arraysize spans w Hlocal))
    as (HJ & HE & _).
  split; [assumption|]. split; [apply save_csv_renames_once|]. split; [|assumption].
  intros u Hu. split; [|now apply unc_tmp_fresh].
  unfold unc_tmp_of, Pathlib.with_suffix in Hu. fold final in Hu.
  destruct (Text.is_empty (name final)); [discriminate|].
  destruct (Text.is_empty (Pathlib.suffix (name final))); injection Hu as <-; reflexivity.
Qed.

Lemma destination_changes_by_rename_only_witness :
  local_tmp_of Scenario.env <> final_unc_of Scenario.env Scenario.destination /\
  let env := Scenario.env in
  let w := Scenario.world_with_export in
  let final := final_unc_of env Scenario.destination in
  let w' := snd (save_csv_via_staging_streaming env 0 "SELECT" [] Scenario.destination
                   100000 (Some 0) w) in
  Forall (only_renamed env Scenario.destination) (fresh_log w w') /\
  at_most_once is_replace (fresh_log w w') /\
  (forall u, unc_tmp_of env Scenario.destination = Ok u ->
             parent u = parent final /\ u <> final) /\
  Forall (fun f => f !! final = fs w !! final \/ f !! final = Some (export_of env 100000))
         (fresh_instants w w').
Proof.
  assert (H : local_tmp_of Scenario.env <> final_unc_of Scenario.env Scenario.destination)
    by (vm_compute; discriminate).
  split; [exact H|].
  exact (destination_changes_by_rename_only Scenario.env 0 "SELECT" []
           Scenario.destination 100000 (Some 0) Scenario.world_with_export H).
Defined.

(** ** The staging file after a run *)

(** C8, as amended: the deletion of the staging file is tried once the
    export is published, and only then.  After a run that succeeds the
    deletion was tried, and the staging file is gone when the deletion
    worked; after a run that fails, whether while streaming, copying or
    renaming, no deletion was tried. *)
Theorem staging_file_deleted_after_publish_only env cxn sql params final_unc_path
    arraysize spans w :
  let r := fst (save_csv_via_staging_streaming env cxn sql params final_unc_path
                  arraysize spans w) in
  let w' := snd (save_csv_via_staging_streaming env cxn sql params final_unc_path
                   arraysize spans w) in
  match r with
  | Ok _ =>
      In (Unlink (local_tmp_of env)) (fresh_log w w') /\
      (if unlink_ok env then fs w' !! local_tmp_of env = None
       else fs w' !! local_tmp_of env = Some (export_of env arraysize))
  | Raise _ => Forall (fun e => ~ is_unlink e) (fresh_log w w')
  end.
Proof.
  intros r w'. subst r w'.
  pose proof (save_csv_shape any_state env cxn sql params final_unc_path arraysize spans w
                ltac:(intros f v; exact I) ltac:(intros u' _ f v; exact I)) as Hshape.
  destruct (save_csv_via_staging_streaming env cxn sql params final_unc_path arraysize
              spans w) as [r w']; cbn [fst snd] in *.
  destruct Hshape as [e w' Hev _ | e w1 w' u Hev _ _ _ _ _ _ Hlog _
                     | w1 w2 w' u cols Hev _ Hu Hne _ _ Hfs1 Hfs2 _ Hlog2 Hlog' Hfs' _].
  - apply fresh_of_evolves in Hev as (_ & HE & _).
    eapply Forall_impl; [exact HE|]. now intros x [_ Hx].
  - destruct Hev as [_ (l1 & Hl1 & HE) _].
    rewrite (fresh_log_snoc w w1 w' l1 _ Hl1 Hlog).
    apply Forall_app. split.
    + eapply Forall_impl; [exact HE|]. now intros x [_ Hx].
    + repeat constructor. simpl. tauto.
  - destruct Hev as [_ (l1 & Hl1 & HE) _].
    rewrite Hlog2, <- app_assoc in Hlog'.
    rewrite (fresh_log_snoc w w1 w' l1 _ Hl1 Hlog'). split.
    + apply in_or_app. right. simpl. auto.
    + rewrite Hfs'. destruct (unlink_ok env).
      * apply lookup_delete_eq.
      * rewrite Hfs2.
        destruct (decide (final_unc_of env final_unc_path = local_tmp_of env)) as [->|Hf].
        { apply lookup_insert_eq. }
        rewrite lookup_insert_ne by assumption.
        rewrite lookup_delete_ne by (intros Heq; now apply Hne).
        rewrite Hfs1, lookup_insert_ne by (intros Heq; now apply Hne).
        apply lookup_insert_eq.
Qed.

(** The claim as first stated fails: when the copy fails the run ends with
    an error, the staging file is still on the local disk and nothing
    tried to delete it. *)
Lemma staging_file_left_when_copy_fails :
  let env := Scenario.with_copy_fault 9 Scenario.env in
  let w := Scenario.world_with_export in
  let r := fst (save_csv_via_staging_streaming env 0 "SELECT" [] Scenario.destination
                  100000 (Some 0) w) in
  let w' := snd (save_csv_via_staging_streaming env 0 "SELECT" [] Scenario.destination
                   100000 (Some 0) w) in
  r = Raise OSError /\
  In (CopyFile Scenario.local_tmp Scenario.unc_tmp) (log w') /\
  ~ In (Unlink Scenario.local_tmp) (log w') /\
  fs w' !! Scenario.local_tmp = Some (export_of env 100000).
Proof.
  vm_compute. repeat split; auto 20.
  intros H. repeat (destruct H as [H|H]; [discriminate H|]). exact H.
Qed.

(** ** Counts and content of the export *)

(** C5: when nothing fails and the batch size is at least one, streaming a
    result set of N rows returns N and leaves a staging file made of the
    header record and the N data records; the run then returns N too and
    the published file is made of the same N + 1 records. *)
Theorem row_count_matches_export env cxn sql params final_unc_path arraysize l w cols u :
  healthy env = true -> columns env = Some cols -> is_open cxn w = true ->
  (1 <= arraysize)%Z ->
  unc_tmp_of env final_unc_path = Ok u -> local_tmp_of env <> u ->
  local_tmp_of env <> final_unc_of env final_unc_path ->
  let N := length (result env) in
  (exists w1,
     stream_query_to_local_csv env cxn sql params (local_tmp_of env) arraysize true w
     = (Ok N, w1) /\
     fs w1 !! local_tmp_of env = Some (Csv.csv_text (Csv.header_record cols :: result env))) /\
  (exists w',
     save_csv_via_staging_streaming env cxn sql params final_unc_path arraysize (Some l) w
     = (Ok N, w') /\
     fs w' !! final_unc_of env final_unc_path
     = Some (Csv.csv_text (Csv.header_record cols :: result env))) /\
  count_records (Csv.csv_text (Csv.header_record cols :: result env)) = 1 + N.
Proof.
  intros Hh Hcols Hopen Ha Hu Hne Hlf N. subst N.
  split; [|split].
  - destruct (stream_query_healthy env cxn sql params (local_tmp_of env) arraysize true w
                cols Hh Hcols Hopen) as (w1 & Hrun & Hfs).
    rewrite (fetched_rows_all _ _ Ha) in *.
    exists w1. split; [exact Hrun|]. rewrite Hfs. apply lookup_insert_eq.
  - destruct (save_csv_healthy env cxn sql params final_unc_path arraysize l w u
                Hh Hopen Hu Hne) as (w' & Hrun & Hfs & _).
    rewrite (fetched_rows_all _ _ Ha) in *.
    exists w'. split; [exact Hrun|]. rewrite Hfs, (published_lookup _ _ _ _ _ _ Hlf).
    unfold export_of, export_text. now rewrite Hcols, (fetched_rows_all _ _ Ha).
  - apply count_records_csv_text.
Qed.

Lemma row_count_matches_export_witness :
  let env := Scenario.env in
  let w := Scenario.world_with_export in
  let N := length (result env) in
  (exists w1,
     stream_query_to_local_csv env 0 "SELECT" [] (local_tmp_of env) 100000 true w
     = (Ok N, w1) /\
     fs w1 !! local_tmp_of env
     = Some (Csv.csv_text (Csv.header_record Scenario.cols :: result env))) /\
  (exists w',
     save_csv_via_staging_streaming env 0 "SELECT" [] Scenario.destination 100000 (Some 0) w
     = (Ok N, w') /\
     fs w' !! final_unc_of env Scenario.destination
     = Some (Csv.csv_text (Csv.header_record Scenario.cols :: result env))) /\
  count_records (Csv.csv_text (Csv.header_record Scenario.cols :: result env)) = 1 + N.
Proof.
  apply (row_count_matches_export Scenario.env 0 "SELECT" [] Scenario.destination 100000 0
           Scenario.world_with_export Scenario.cols Scenario.unc_tmp).
  - reflexivity.
  - reflexivity.
  - reflexivity.
  - lia.
  - reflexivity.
  - vm_compute; discriminate.
  - vm_compute; discriminate.
Defined.

(** C6: for the source that yields the rows (2024-01-01, A, 10) and
    (2024-01-02, B, 20) under the columns Date, Site, Amount, a run in
    which nothing fails publishes exactly the header line and one line per
    row, comma-delimited, each ended by a line feed. *)
Theorem scenario_published_text env cxn sql params final_unc_path arraysize l w u :
  healthy env = true ->
  columns env = Some ["Date"; "Site"; "Amount"] ->
  result env = [[VDate 2024 1 1; VStr "A"; VInt 10]; [VDate 2024 1 2; VStr "B"; VInt 20]] ->
  is_open cxn w = true -> (1 <= arraysize)%Z ->
  unc_tmp_of env final_unc_path = Ok u -> local_tmp_of env <> u ->
  local_tmp_of env <> final_unc_of env final_unc_path ->
  exists w',
    save_csv_via_staging_streaming env cxn sql params final_unc_path arraysize (Some l) w
    = (Ok 2, w') /\
    fs w' !! final_unc_of env final_unc_path
    = Some (Text.unlines ["Date,Site,Amount"; "2024-01-01,A,10"; "2024-01-02,B,20"]).
Proof.
  intros Hh Hcols Hrows Hopen Ha Hu Hne Hlf.
  destruct (save_csv_healthy env cxn sql params final_unc_path arraysize l w u
              Hh Hopen Hu Hne) as (w' & Hrun & Hfs & _).
  rewrite (fetched_rows_all _ _ Ha), Hrows in Hrun.
  exists w'. split; [exact Hrun|].
  rewrite Hfs, (published_lookup _ _ _ _ _ _ Hlf).
  unfold export_of. rewrite Hcols, (fetched_rows_all _ _ Ha), Hrows. reflexivity.
Qed.

Lemma scenario_published_text_witness :
  exists w',
    save_csv_via_staging_streaming Scenario.env 0 "SELECT" [] Scenario.destination 100000
      (Some 0) Scenario.world_with_export
    = (Ok 2, w') /\
    fs w' !! final_unc_of Scenario.env Scenario.destination
    = Some (Text.unlines ["Date,Site,Amount"; "2024-01-01,A,10"; "2024-01-02,B,20"]).
Proof.
  apply (scenario_published_text Scenario.env 0 "SELECT" [] Scenario.destination 100000 0
           Scenario.world_with_export Scenario.unc_tmp).
  - reflexivity.
  - reflexivity.
  - reflexivity.
  - reflexivity.
  - lia.
  - reflexivity.
  - vm_compute; discriminate.
  - vm_compute; discriminate.
Defined.

(** Two runs that differ only in their batch size and both succeed return
    the same count and leave the same file system, even in surroundings
    where something could have failed. *)
Lemma successes_agree_across_batch_sizes env cxn sql params final_unc_path a1 a2 spans w
    n1 n2 w1 w2 :
  (1 <= a1)%Z -> (1 <= a2)%Z ->
  save_csv_via_staging_streaming env cxn sql params final_unc_path a1 spans w = (Ok n1, w1) ->
  save_csv_via_staging_streaming env cxn sql params final_unc_path a2 spans w = (Ok n2, w2) ->
  n1 = n2 /\ fs w1 = fs w2.
Proof.
  intros H1 H2 Hr1 Hr2.
  assert (Hexp : export_of env a1 = export_of env a2).
  { unfold export_of. now rewrite !fetched_rows_all. }
  pose proof (save_csv_shape any_state env cxn sql params final_unc_path a1 spans w
                ltac:(intros f v; exact I) ltac:(intros u' _ f v; exact I)) as S1.
  pose proof (save_csv_shape any_state env cxn sql params final_unc_path a2 spans w
                ltac:(intros f v; exact I) ltac:(intros u' _ f v; exact I)) as S2.
  rewrite Hr1 in S1. rewrite Hr2 in S2. cbn [fst snd] in *.
  inversion S1 as [| | x1 x2 x' u cols _ _ Hu _ _ _ Hf1 Hf2 _ _ _ Hf' _ Hn1 Hw1].
  inversion S2 as [| | v1 v2 v' u' cols' _ _ Hu' _ _ _ Hg1 Hg2 _ _ _ Hg' _ Hn2 Hw2].
  assert (u' = u) by congruence. subst u'.
  split; [now rewrite !fetched_rows_all|].
  rewrite Hf', Hg', Hf2, Hg2, Hf1, Hg1, Hexp. reflexivity.
Qed.

(** C7: for a fixed result set, in surroundings where nothing fails, runs
    with any two batch sizes of at least one return the same count and
    leave the same file system, the published file included; so do the
    streaming steps alone with the staging file.  The batch size only
    changes how the rows are grouped into fetches. *)
Theorem batch_size_invariance env cxn sql params final_unc_path a1 a2 l w u cols :
  (1 <= a1)%Z -> (1 <= a2)%Z ->
  healthy env = true -> columns env = Some cols -> is_open cxn w = true ->
  unc_tmp_of env final_unc_path = Ok u -> local_tmp_of env <> u ->
  local_tmp_of env <> final_unc_of env final_unc_path ->
  let run a := save_csv_via_staging_streaming env cxn sql params final_unc_path a (Some l) w in
  let stream a := stream_query_to_local_csv env cxn sql params (local_tmp_of env) a true w in
  fst (run a1) = fst (run a2) /\
  fs (snd (run a1)) = fs (snd (run a2)) /\
  fs (snd (run a1)) !! final_unc_of env final_unc_path
  = Some (Csv.csv_text (Csv.header_record cols :: result env)) /\
  fst (stream a1) = fst (stream a2) /\
  fs (snd (stream a1)) = fs (snd (stream a2)).
Proof.
  intros H1 H2 Hh Hcols Hopen Hu Hne Hlf run stream. subst run stream. cbv beta.
  assert (Hexp : export_of env a1 = export_of env a2).
  { unfold export_of. now rewrite !fetched_rows_all. }
  destruct (save_csv_healthy env cxn sql params final_unc_path a1 l w u Hh Hopen Hu Hne)
    as (w1 & -> & Hf1 & _).
  destruct (save_csv_healthy env cxn sql params final_unc_path a2 l w u Hh Hopen Hu Hne)
    as (w2 & -> & Hf2 & _).
  destruct (stream_query_healthy env cxn sql params (local_tmp_of env) a1 true w cols
              Hh Hcols Hopen) as (v1 & -> & Hg1).
  destruct (stream_query_healthy env cxn sql params (local_tmp_of env) a2 true w cols
              Hh Hcols Hopen) as (v2 & -> & Hg2).
  cbn [fst snd]. rewrite !fetched_rows_all in * by assumption.
  repeat split; try congruence.
  rewrite Hf1, (published_lookup _ _ _ _ _ _ Hlf).
  unfold export_of, export_text. now rewrite Hcols, fetched_rows_all.
Qed.

Lemma batch_size_invariance_witness :
  let run a := save_csv_via_staging_streaming Scenario.env 0 "SELECT" []
                 Scenario.destination a (Some 0) Scenario.world_with_export in
  let stream a := stream_query_to_local_csv Scenario.env 0 "SELECT" []
                    (local_tmp_of Scenario.env) a true Scenario.world_with_export in
  fst (run 1%Z) = fst (run 100000%Z) /\
  fs (snd (run 1%Z)) = fs (snd (run 100000%Z)) /\
  fs (snd (run 1%Z)) !! final_unc_of Scenario.env Scenario.destination
  = Some (Csv.csv_text (Csv.header_record Scenario.cols :: result Scenario.env)) /\
  fst (stream 1%Z) = fst (stream 100000%Z) /\
  fs (snd (stream 1%Z)) = fs (snd (stream 100000%Z)).
Proof.
  apply (batch_size_invariance Scenario.env 0 "SELECT" [] Scenario.destination 1 100000 0
           Scenario.world_with_export Scenario.unc_tmp Scenario.cols).
  - lia.
  - lia.
  - reflexivity.
  - reflexivity.
  - reflexivity.
  - reflexivity.
  - vm_compute; discriminate.
  - vm_compute; discriminate.
Defined.

(** ** Runs without a dictionary of spans *)

Lemma pair_of_fst {A B} (x : A * B) (a : A) : fst x = a -> x = (a, snd x).
Proof. intros <-. now destruct x. Qed.

Lemma bind_assoc {A B C} (m : M A) (k1 : A -> M B) (k2 : B -> M C) w :
  bind (bind m k1) k2 w = bind m (fun a => bind (k1 a) k2) w.
Proof. unfold bind. now destruct (m w) as [[a|e] w']. Qed.

Lemma bind_ext {A B} (m : M A) (k1 k2 : A -> M B) w :
  (forall a w', k1 a w' = k2 a w') -> bind m k1 w = bind m k2 w.
Proof. intros H. unfold bind. destruct (m w) as [[a|e] w']; [apply H | reflexivity]. Qed.

Lemma save_csv_None env cxn sql params final_unc_path arraysize w :
  save_csv_via_staging_streaming env cxn sql params final_unc_path arraysize None w
  = save_csv_without_spans env cxn sql params final_unc_path arraysize w.
Proof.
  unfold save_csv_via_staging_streaming, save_csv_without_spans.
  apply bind_ext. intros _ w0. apply bind_ext. intros u w1.
  unfold timed, timed_exit, bucket_get, try_finally, try_except_pass.
  unfold bind, perf_counter, raise, ret.
  cbn beta iota.
  match goal with
  | |- context [read_stream env cxn sql params (local_tmp_of env) arraysize ?w2] =>
      destruct (read_stream env cxn sql params (local_tmp_of env) arraysize w2)
        as [[n|e] w3]
  end; reflexivity.
Qed.

(** C10: called with its default [spans=None],
    [save_csv_via_staging_streaming] always ends with an error.  When the
    destination directory could be made and the destination has a file
    name, the error is the [AttributeError] of [bucket.get] at the exit of
    the first timed block, and this even when streaming itself succeeded
    and left the complete staging file; the copy, the rename and the
    deletion are never reached. *)
Theorem spans_none_always_raises env cxn sql params final_unc_path arraysize w :
  let r := fst (save_csv_via_staging_streaming env cxn sql params final_unc_path
                  arraysize None w) in
  let w' := snd (save_csv_via_staging_streaming env cxn sql params final_unc_path
                   arraysize None w) in
  raised r = true /\
  Forall no_publish_event (fresh_log w w') /\
  (mkdir_ok env = true -> (exists u, unc_tmp_of env final_unc_path = Ok u) ->
   r = Raise AttributeError) /\
  (healthy env = true -> is_open cxn w = true ->
   (exists u, unc_tmp_of env final_unc_path = Ok u) ->
   r = Raise AttributeError /\
   fs w' !! local_tmp_of env = Some (export_of env arraysize)).
Proof.
  intros r w'. subst r w'. rewrite save_csv_None.
  assert (Hev : evolves any_state no_publish_event eq w
                  (snd (save_csv_without_spans env cxn sql params final_unc_path arraysize w))).
  { assert (HE : forall e, ~ is_file_op e -> no_publish_event e)
      by (intros e He; destruct e; simpl in *; tauto).
    unfold save_csv_without_spans.
    apply preserves_bind; try apply _;
      [apply preserves_mkdir_parents; try apply _; exact HE|]. intros _.
    apply preserves_bind; try apply _; [apply preserves_lift; apply _|]. intros _.
    apply preserves_bind; try apply _; [apply preserves_perf_counter; apply _|]. intros _.
    apply preserves_bind; try apply _.
    - apply preserves_try_except_pass; try apply _.
      apply preserves_bind; try apply _; [|intros _; apply preserves_ret; apply _].
      apply preserves_read_stream; try apply _; [exact HE|].
      split; [intros f v; exact I | repeat split; exact I].
    - intros _. apply preserves_bind; try apply _; [apply preserves_perf_counter; apply _|].
      intros _. apply preserves_raise; apply _. }
  apply fresh_of_evolves in Hev as (_ & Hlog & _).
  destruct (save_csv_without_spans env cxn sql params final_unc_path arraysize w)
    as [r w'] eqn:Hrun; cbn [fst snd] in *.
  split; [|split; [exact Hlog|]]; revert Hrun; clear Hlog.
  - unfold save_csv_without_spans, bind, lift, try_except_pass, raise.
    repeat case_match; intros Hrun; injection Hrun as <- <-; reflexivity.
  - unfold save_csv_without_spans. unfold bind at 1.
    pose proof (mkdir_spec env (parent (final_unc_of env final_unc_path)) w) as Hmk.
    destruct (mkdir_parents env _ w) as [[[]|e] w0].
    2:{ intros Hrun. injection Hrun as <- <-. split.
        - intros Hok. congruence.
        - intros Hh. apply healthy_inv in Hh. intuition congruence. }
    destruct Hmk as [Hfs0 Hc0]. unfold bind at 1, lift.
    destruct (unc_tmp_of env final_unc_path) as [u|e] eqn:Hu.
    2:{ intros Hrun. injection Hrun as <- <-. split.
        - intros _ [u' Hu']. discriminate.
        - intros _ _ [u' Hu']. discriminate. }
    unfold bind, try_except_pass, perf_counter, raise, ret. cbn beta iota.
    match goal with
    | |- context [read_stream env cxn sql params (local_tmp_of env) arraysize ?w1] =>
        pose proof (read_stream_spec env cxn sql params (local_tmp_of env) arraysize w1) as Hr;
        assert (Hopen1 : is_open cxn w1 = is_open cxn w)
          by (unfold is_open; cbn [conns]; now rewrite Hc0);
        assert (Hfs1 : fs w1 = fs w) by (cbn [fs]; exact Hfs0);
        destruct (read_stream env cxn sql params (local_tmp_of env) arraysize w1)
          as [[n|e] w2]
    end; intros Hrun; injection Hrun as <- <-; cbn [fs].
    + split; [reflexivity|]. intros _ _ _. split; [reflexivity|].
      destruct Hr as (cols & Hcols & _ & Hfs2).
      rewrite Hfs2, lookup_insert_eq. unfold export_of. now rewrite Hcols.
    + split; [reflexivity|]. intros Hh Hopen _. exfalso. rewrite Hopen1 in Hr.
      apply healthy_inv in Hh. destruct Hh as (? & ? & [? ?] & ? & ? & ? & ? & ? & ?).
      intuition congruence.
Qed.

(** ** The job: connection and report *)

Lemma run_phases env server database username password packet_size arraysize
    final_unc_path sql params done_message w :
  run_sales_export env server database username password packet_size arraysize
    final_unc_path sql params done_message w
  = (x <- job_start env ;;
     cxn <- timed env "CONNECT" (Some (snd x)) (pyodbc_connect env database) ;;
     rows_total <- save_csv_via_staging_streaming env cxn sql params final_unc_path
                     arraysize (Some (snd x)) ;;
     timed env "CLEANUP" (Some (snd x))
       (job_report env (fst x) (snd x) cxn rows_total done_message)) w.
Proof.
  unfold run_sales_export, job_start.
  do 5 (rewrite bind_assoc; apply bind_ext; intros ? ?).
  reflexivity.
Qed.

Lemma job_start_spec env w :
  exists l w1, job_start env w = (Ok (perf env (reads w), l), w1) /\
    conns w1 = conns w /\ fs w1 = fs w /\ past w1 = past w /\ log w1 = log w.
Proof.
  unfold job_start.
  unfold bind at 1, perf_counter at 1. cbn beta iota.
  unfold bind at 1, new_dict. unfold bind at 1, get_world. cbn beta iota.
  unfold bind at 1, update_heap. cbn beta iota. unfold ret at 1. cbn beta iota.
  unfold bind at 1, perf_counter at 1.
  cbn [reads fs dirs past log heap conns console]. cbn beta iota.
  unfold bind at 1, bucket_setitem, update_heap.
  cbn [reads fs dirs past log heap conns console]. cbn beta iota.
  unfold bind at 1. rewrite timed_Some. cbn [fst snd].
  rewrite timed_exit_Some. unfold ret, perf_counter.
  cbn [fst snd reads fs dirs past log heap conns console].
  eexists. eexists. split; [reflexivity|]. repeat split.
Qed.

Lemma connect_spec env database l w :
  match timed env "CONNECT" (Some l) (pyodbc_connect env database) w with
  | (Ok cxn, w') =>
      connect_ok env = true /\ cxn = length (conns w) /\ conns w' = conns w ++ [true]
  | (Raise _, w') => connect_ok env = false /\ conns w' = conns w
  end.
Proof.
  rewrite timed_Some. unfold pyodbc_connect, bind, emit, get_world, update_conns, raise, ret.
  cbn beta iota. destruct (connect_ok env); cbn; auto.
Qed.

Lemma job_report_spec env job_T0 l cxn rows_total done_message w :
  is_open cxn w = true ->
  exists w',
    let total := (perf env (S (reads w)) - job_T0)%Z in
    let dt := (perf env (S (S (reads w))) - perf env (reads w))%Z in
    timed env "CLEANUP" (Some l) (job_report env job_T0 l cxn rows_total done_message) w
    = (Ok total, w') /\
    conns w' = <[cxn := false]> (conns w) /\
    console w' = console w ++
      [TotalLine total; BreakdownLine (deref l w);
       UnaccountedLine (total - Dict.sum_values (deref l w));
       TotalRowsLine rows_total; MessageLine done_message; SpanLine "CLEANUP" dt] /\
    deref l w' = Dict.setitem "CLEANUP" (Dict.get "CLEANUP" 0 (deref l w) + dt) (deref l w).
Proof.
  intros Hopen. rewrite timed_Some.
  destruct w as [f d p lg r h c co]. unfold is_open in Hopen. cbn [conns] in Hopen.
  lazy beta iota zeta delta
    [job_report conn_close is_open timed_exit bucket_get bucket_setitem bind perf_counter
     get_world print emit update_conns update_heap raise ret fst snd reads fs dirs past
     log heap conns console].
  rewrite Hopen.
  cbn [fst snd reads fs dirs past log heap conns console].
  eexists. split; [reflexivity|]. cbn [fst snd reads fs dirs past log heap conns console].
  repeat split.
  - now rewrite <- !app_assoc.
  - unfold deref. cbn [heap]. now rewrite lookup_insert_eq.
Qed.

Lemma save_csv_conns env cxn sql params final_unc_path arraysize spans w :
  conns (snd (save_csv_via_staging_streaming env cxn sql params final_unc_path arraysize
                spans w)) = conns w.
Proof.
  pose proof (save_csv_shape any_state env cxn sql params final_unc_path arraysize spans w
                ltac:(intros f v; exact I) ltac:(intros u' _ f v; exact I)) as Hshape.
  destruct (save_csv_via_staging_streaming env cxn sql params final_unc_path arraysize
              spans w) as [r w']; cbn [fst snd] in *.
  destruct Hshape as [e w' Hev _ | |]; try assumption.
  apply fresh_of_evolves in Hev as (_ & _ & Hc). now symmetry.
Qed.

(** C2, as amended: the connection that [run_sales_export] opens is closed
    when the job succeeds.  When a step after the connection fails
    (executing the statement, streaming, copying, renaming), the error
    leaves [run_sales_export] without [cxn.close()] being reached: the
    connection is still open at exit.  When connecting itself fails there
    is no connection to close. *)
Theorem connection_closed_on_success_only env server database username password
    packet_size arraysize final_unc_path sql params done_message w :
  let r := fst (run_sales_export env server database username password packet_size
                  arraysize final_unc_path sql params done_message w) in
  let w' := snd (run_sales_export env server database username password packet_size
                   arraysize final_unc_path sql params done_message w) in
  match r with
  | Ok _ => conns w' = conns w ++ [false]
  | Raise _ =>
      if connect_ok env then conns w' = conns w ++ [true] else conns w' = conns w
  end.
Proof.
  intros r w'. subst r w'.
  destruct (run_sales_export env server database username password packet_size arraysize
              final_unc_path sql params done_message w) as [r w'] eqn:Hrun; cbn [fst snd].
  revert Hrun. rewrite run_phases.
  destruct (job_start_spec env w) as (l & w1 & Hstart & Hc1 & _).
  unfold bind at 1. rewrite Hstart. cbn [fst snd].
  unfold bind at 1.
  pose proof (connect_spec env database l w1) as Hcon.
  destruct (timed env "CONNECT" (Some l) (pyodbc_connect env database) w1)
    as [[cxn|e] w2].
  2:{ intros Hrun. injection Hrun as <- <-. destruct Hcon as [-> Hc2]. congruence. }
  destruct Hcon as (Hok & -> & Hc2). rewrite Hok.
  unfold bind at 1.
  pose proof (save_csv_conns env (length (conns w1)) sql params final_unc_path arraysize
                (Some l) w2) as Hc3.
  destruct (save_csv_via_staging_streaming env (length (conns w1)) sql params
              final_unc_path arraysize (Some l) w2) as [[rows|e] w3]; cbn [fst snd] in *.
  2:{ intros Hrun. injection Hrun as <- <-. congruence. }
  assert (Hopen : is_open (length (conns w1)) w3 = true).
  { unfold is_open. rewrite Hc3, Hc2, list_lookup_middle by reflexivity. reflexivity. }
  destruct (job_report_spec env (perf env (reads w)) l (length (conns w1)) rows
              done_message w3 Hopen) as (w4 & Hrep & Hc4 & _).
  cbv zeta in Hrep. rewrite Hrep. intros Hrun. injection Hrun as <- <-.
  rewrite Hc4, Hc3, Hc2, <- Hc1.
  rewrite insert_app_r_alt by lia. now rewrite Nat.sub_diag.
Qed.

(** The claim as first stated fails: when the statement cannot be executed
    the job ends with an error, nothing closed the connection and it is
    still open. *)
Lemma connection_left_open_when_execute_fails :
  let env := Scenario.with_execute_failure Scenario.env in
  let r := fst (run_sales_export env "server" "PDICompany_2875_10" "user" "password"
                  "32767" 100000 Scenario.destination "SELECT" [] "done" empty_world) in
  let w' := snd (run_sales_export env "server" "PDICompany_2875_10" "user" "password"
                   "32767" 100000 Scenario.destination "SELECT" [] "done" empty_world) in
  r = Raise DatabaseError /\
  In (Connect "PDICompany_2875_10") (log w') /\
  ~ In (ConnClose 0) (log w') /\
  is_open 0 w' = true.
Proof.
  vm_compute. repeat split; auto 20.
  intros H. repeat (destruct H as [H|H]; [discriminate H|]). exact H.
Qed.

(** ** Timing spans *)

Lemma dict_get_setitem_eq k v default d :
  Dict.get k default (Dict.setitem k v d) = v.
Proof.
  induction d as [|[k' v'] d IH]; simpl.
  - now rewrite String.eqb_refl.
  - destruct (String.eqb k' k) eqn:Hk; simpl; now rewrite Hk.
Qed.

Lemma dict_get_setitem_ne k k' v default d :
  k' <> k -> Dict.get k' default (Dict.setitem k v d) = Dict.get k' default d.
Proof.
  intros Hne. induction d as [|[k0 v0] d IH]; simpl.
  - destruct (String.eqb k k') eqn:Hk; [|reflexivity].
    apply String.eqb_eq in Hk. congruence.
  - destruct (String.eqb k0 k) eqn:Hk; simpl.
    + apply String.eqb_eq in Hk. subst k0.
      destruct (String.eqb k k') eqn:Hk'; [|reflexivity].
      apply String.eqb_eq in Hk'. congruence.
    + now rewrite IH.
Qed.

Lemma deref_timed_exit env label l t0 w :
  deref l (snd (timed_exit env label (Some l) t0 w))
  = Dict.setitem label (Dict.get label 0 (deref l w) + (perf env (reads w) - t0)) (deref l w).
Proof.
  rewrite timed_exit_Some. cbn [snd]. unfold deref at 1. cbn [heap].
  now rewrite lookup_insert_eq.
Qed.

Lemma spans_none_example :
  let r := fst (save_csv_via_staging_streaming Scenario.env 0 "SELECT" []
                  Scenario.destination 100000 None Scenario.world_with_export) in
  let w' := snd (save_csv_via_staging_streaming Scenario.env 0 "SELECT" []
                   Scenario.destination 100000 None Scenario.world_with_export) in
  r = Raise AttributeError /\
  fs w' !! local_tmp_of Scenario.env = Some (export_of Scenario.env 100000).
Proof.
  apply (proj2 (proj2 (proj2 (spans_none_always_raises Scenario.env 0 "SELECT" []
           Scenario.destination 100000 Scenario.world_with_export)))).
  - reflexivity.
  - reflexivity.
  - exists Scenario.unc_tmp. reflexivity.
Defined.

(** ** The three jobs of the script *)

Lemma jobs_share_one_destination env :
  final_unc_of env Script.final_unc_path_job1 = final_unc_of env Script.final_unc_path_job2 /\
  final_unc_of env Script.final_unc_path_job2 = final_unc_of env Script.final_unc_path_job3.
Proof. split; reflexivity. Qed.

(** C4 does not hold of the script: its three jobs are given the same
    destination path.  Run on three different result sets, each job opens
    and closes a connection of its own and stages in a file of its own, but
    the export that job 1 published is replaced by that of job 2, then by
    that of job 3, which is all that is left at the end. *)
Theorem later_jobs_overwrite_first_export :
  Script.final_unc_path_job1 = Script.final_unc_path_job2 /\
  Script.final_unc_path_job2 = Script.final_unc_path_job3 /\
  let dest := Scenario.script_destination in
  let w' := snd Scenario.script_run in
  let held := map (fun f : gmap path string => f !! dest) (instants w') in
  fst Scenario.script_run = Ok 45%Z /\
  conns w' = [false; false; false] /\
  held !! 6 = Some (Some (export_of Scenario.env_job1 100000)) /\
  held !! 14 = Some (Some (export_of Scenario.env_job2 100000)) /\
  fs w' !! dest = Some (export_of Scenario.env_job3 100000) /\
  export_of Scenario.env_job1 100000 <> export_of Scenario.env_job3 100000 /\
  map_to_list (fs w') = [(dest, export_of Scenario.env_job3 100000)].
Proof.
  vm_compute. repeat split; discriminate.
Qed.

(** ** Two more failing runs *)

(** A fetch that fails after the first row: the staging file holds the
    header and that row, the destination its previous export. *)
Example fetch_fault_after_one_row :
  let env := Scenario.with_fetch_fault 1 Scenario.env in
  let run := save_csv_via_staging_streaming env 0 "SELECT" [] Scenario.destination 1
               (Some 0) Scenario.world_with_export in
  fst run = Raise DatabaseError /\
  fs (snd run) !! Scenario.local_tmp
  = Some (Text.unlines ["Date,Site,Amount"; "2024-01-01,A,10"]) /\
  fs (snd run) !! Scenario.unc_tmp = None /\
  fs (snd run) !! Scenario.final = Some Scenario.previous_export.
Proof. vm_compute. repeat split. Qed.

(** A rename that fails: the complete export waits under the temporary
    name, the destination holds its previous export. *)
Example rename_failure :
  let env := Scenario.with_rename_failure Scenario.env in
  let run := save_csv_via_staging_streaming env 0 "SELECT" [] Scenario.destination 100000
               (Some 0) Scenario.world_with_export in
  fst run = Raise OSError /\
  fs (snd run) !! Scenario.unc_tmp = Some (export_of env 100000) /\
  fs (snd run) !! Scenario.local_tmp = Some (export_of env 100000) /\
  fs (snd run) !! Scenario.final = Some Scenario.previous_export.
Proof. vm_compute. repeat split. Qed.

(* ===================================================================== *)
(** * Further properties: statements, dates, resources and timing *)
(* ===================================================================== *)

(** ** The statement text *)

Lemma count_app c (a b : string) : Str.count c (a +:+ b) = Str.count c a + Str.count c b.
Proof.
  induction a as [|x a IH]; [reflexivity|].
  rewrite append_cons. simpl. rewrite IH. lia.
Qed.

Lemma count_string_of_uint d : Str.count "?" (NilEmpty.string_of_uint d) = 0.
Proof. induction d; simpl; auto. Qed.

Lemma count_str_of_Z z : Str.count "?" (Text.str_of_Z z) = 0.
Proof.
  unfold Text.str_of_Z, NilZero.string_of_int.
  assert (H : forall d, Str.count "?" (NilZero.string_of_uint d) = 0).
  { intros d. unfold NilZero.string_of_uint.
    destruct d; try reflexivity; apply (count_string_of_uint (_ _)). }
  destruct (Z.to_int z) as [d|d]; [apply H|].
  change (0 + Str.count "?" (NilZero.string_of_uint d) = 0). rewrite H. reflexivity.
Qed.

Lemma count_join_zero c sep (parts : list string) :
  Str.count c sep = 0 -> Forall (fun p => Str.count c p = 0) parts ->
  Str.count c (Text.join sep parts) = 0.
Proof.
  intros Hsep Hparts. induction Hparts as [|p ps Hp Hps IH]; [reflexivity|].
  destruct ps as [|q ps]; [exact Hp|].
  change (Text.join sep (p :: q :: ps)) with (p +:+ sep +:+ Text.join sep (q :: ps)).
  rewrite !count_app, Hp, Hsep, IH. reflexivity.
Qed.

Lemma count_keys_csv keys : Str.count "?" (Sql.keys_csv keys) = 0.
Proof.
  apply count_join_zero; [reflexivity|].
  apply Forall_map, Forall_forall. intros z _. apply count_str_of_Z.
Qed.

Lemma count_extra_where (qsr : bool) (site : option (string * string)) :
  Str.count "?" (Sql.extra_where qsr site) =
  match site with
  | Some (lo, hi) => Str.count "?" lo + Str.count "?" hi
  | None => 0
  end.
Proof.
  destruct qsr, site as [[lo hi]|]; unfold Sql.extra_where, Sql.extra_filters;
    cbn [app Text.join]; rewrite ?count_app; cbn [Str.count]; try reflexivity;
    rewrite ?count_app; simpl; lia.
Qed.

Lemma count_template datefirst week_expr keys (qsr : bool) (site : option (string * string)) :
  Str.count "?" (Sql.template datefirst week_expr keys qsr site) =
  2 + 3 * Str.count "?" week_expr +
  match site with
  | Some (lo, hi) => Str.count "?" lo + Str.count "?" hi
  | None => 0
  end.
Proof.
  unfold Sql.template. rewrite !count_app.
  rewrite count_str_of_Z, count_keys_csv, count_extra_where.
  unfold Sql.nl, Sql.year_of_week_expr. cbn [Str.count Text.char_eqb Ascii.eqb Bool.eqb].
  change (Text.char_eqb Text.LF "?") with false. cbv iota.
  destruct site as [[lo hi]|]; lia.
Qed.

(** [rstrip] and [lstrip] at the ends of a text. *)
Lemma rstrip_app (s t : string) : Str.rstrip t <> "" -> Str.rstrip (s +:+ t) = s +:+ Str.rstrip t.
Proof.
  intros Ht. induction s as [|a s IH]; [reflexivity|].
  rewrite !append_cons. cbn [Str.rstrip]. rewrite IH.
  destruct (s +:+ Str.rstrip t) eqn:Hs; [|reflexivity].
  destruct s; [|discriminate]. rewrite append_empty_l in Hs. contradiction.
Qed.

Lemma rstrip_blank (s : string) (c : ascii) :
  Str.isspace c = true -> Str.rstrip (s +:+ String c "") = Str.rstrip s.
Proof.
  intros Hc. induction s as [|a s IH].
  - rewrite append_empty_l. simpl. rewrite Hc. reflexivity.
  - rewrite append_cons. cbn [Str.rstrip]. rewrite IH. reflexivity.
Qed.

Lemma ends_with_line_app last s t : ends_with_line last t -> ends_with_line last (s +:+ t).
Proof.
  intros [b ->]. exists (s +:+ b). rewrite !append_assoc_str. reflexivity.
Qed.

Lemma ends_with_line_last last : ends_with_line last (last +:+ Sql.nl).
Proof. exists "". rewrite append_empty_l. reflexivity. Qed.

Lemma template_shape datefirst week_expr keys (qsr : bool) (site : option (string * string)) :
  exists middle,
    Sql.template datefirst week_expr keys qsr site =
    String Text.LF (("SET NOCOUNT ON;" +:+ middle +:+ "OPTION (OPTIMIZE FOR UNKNOWN);")
                    +:+ Sql.nl).
Proof.
  unfold Sql.template.
  match goal with
  | |- exists m, Sql.nl +:+ ?first +:+ ?rest = _ =>
      assert (H : ends_with_line "OPTION (OPTIMIZE FOR UNKNOWN);" rest)
  end.
  { repeat first [apply ends_with_line_last | apply ends_with_line_app]. }
  destruct H as [b Hb]. exists b. rewrite Hb.
  unfold Sql.nl at 1. rewrite append_cons, append_empty_l, !append_assoc_str. reflexivity.
Qed.

Lemma strip_between (middle : string) :
  Str.strip (String Text.LF (("SET NOCOUNT ON;" +:+ middle +:+ "OPTION (OPTIMIZE FOR UNKNOWN);")
                             +:+ Sql.nl)) =
  "SET NOCOUNT ON;" +:+ middle +:+ "OPTION (OPTIMIZE FOR UNKNOWN);".
Proof.
  unfold Str.strip.
  change (Str.lstrip (String Text.LF ?s)) with (Str.lstrip s).
  set (body := "SET NOCOUNT ON;" +:+ middle +:+ "OPTION (OPTIMIZE FOR UNKNOWN);").
  assert (Hl : Str.lstrip (body +:+ Sql.nl) = body +:+ Sql.nl).
  { unfold body. rewrite !append_cons. reflexivity. }
  rewrite Hl. unfold Sql.nl. rewrite rstrip_blank by reflexivity.
  unfold body.
  assert (Hm : Str.rstrip (middle +:+ "OPTION (OPTIMIZE FOR UNKNOWN);") =
               middle +:+ "OPTION (OPTIMIZE FOR UNKNOWN);").
  { rewrite rstrip_app; [reflexivity|discriminate]. }
  rewrite rstrip_app; rewrite Hm; [reflexivity|].
  destruct middle; discriminate.
Qed.

Lemma strip_template datefirst week_expr keys (qsr : bool) (site : option (string * string)) :
  Sql.template datefirst week_expr keys qsr site =
  String Text.LF (Sql.build_sales_query datefirst week_expr keys qsr site +:+ Sql.nl).
Proof.
  unfold Sql.build_sales_query.
  destruct (template_shape datefirst week_expr keys qsr site) as [middle ->].
  now rewrite strip_between.
Qed.

Lemma count_build_sales_query datefirst week_expr keys (qsr : bool)
    (site : option (string * string)) :
  Str.count "?" (Sql.build_sales_query datefirst week_expr keys qsr site) =
  2 + 3 * Str.count "?" week_expr +
  match site with
  | Some (lo, hi) => Str.count "?" lo + Str.count "?" hi
  | None => 0
  end.
Proof.
  rewrite <- count_template with (datefirst := datefirst) (keys := keys) (qsr := qsr).
  rewrite strip_template. cbn [Str.count]. rewrite count_app.
  change (Text.char_eqb Text.LF "?") with false. simpl. lia.
Qed.

Example extra_where_examples :
  Sql.extra_where false None = "" /\
  Sql.extra_where true None = "    AND pca.ProfCtr_Type_Desc = 'QSR'" +:+ Sql.nl /\
  Sql.extra_where true (Some ("2210", "2295")) =
    "    AND pca.ProfCtr_Type_Desc = 'QSR'" +:+ Sql.nl +:+
    "    AND pca.Site_ID BETWEEN '2210' AND '2295'" +:+ Sql.nl /\
  Sql.keys_csv [] = "" /\
  Sql.keys_csv [675; 1205; 1310]%Z = "675, 1205, 1310".
Proof. repeat split. Qed.

(** X1: when neither the week expression nor the bounds of the site range
    hold a question mark, the statement [build_sales_query] returns holds
    exactly two, the markers of the two dates, whatever the keys and the
    filters asked for. *)
Theorem build_sales_query_two_markers datefirst week_expr keys (qsr : bool)
    (site : option (string * string)) :
  Str.count "?" week_expr = 0 ->
  (forall lo hi, site = Some (lo, hi) -> Str.count "?" lo = 0 /\ Str.count "?" hi = 0) ->
  Str.count "?" (Sql.build_sales_query datefirst week_expr keys qsr site) = 2.
Proof.
  intros Hweek Hsite. rewrite count_build_sales_query, Hweek.
  destruct site as [[lo hi]|]; [|reflexivity].
  destruct (Hsite lo hi eq_refl) as [-> ->]. reflexivity.
Qed.

Lemma build_sales_query_two_markers_witness :
  Str.count "?" Program.sql_job1 = 2.
Proof.
  apply (build_sales_query_two_markers 3 "DATEPART(wk, pb.PaperworkBatch_BusDate)"
           [675; 1205; 1310; 673; 674; 683; 960]%Z true (Some ("2210", "2295"))).
  - reflexivity.
  - intros lo hi [= <- <-]. split; reflexivity.
Defined.

(** X2: [strip()] takes from the text between the triple quotes its first
    and its last line feed and nothing else: whatever the arguments, the
    statement starts with [SET NOCOUNT ON;] and ends with the [OPTION]
    clause. *)
Theorem build_sales_query_stripped datefirst week_expr keys (qsr : bool)
    (site : option (string * string)) :
  Sql.template datefirst week_expr keys qsr site =
    String Text.LF (Sql.build_sales_query datefirst week_expr keys qsr site +:+ Sql.nl) /\
  exists middle,
    Sql.build_sales_query datefirst week_expr keys qsr site =
    "SET NOCOUNT ON;" +:+ middle +:+ "OPTION (OPTIMIZE FOR UNKNOWN);".
Proof.
  split; [apply strip_template|].
  unfold Sql.build_sales_query.
  destruct (template_shape datefirst week_expr keys qsr site) as [middle ->].
  exists middle. apply strip_between.
Qed.

(** ** Dates *)

Lemma digit_char (c : ascii) :
  Strptime.is_digit c = true ->
  In c (map (fun n => ascii_of_nat (48 + n)) (seq 0 10)).
Proof.
  unfold Strptime.is_digit. rewrite andb_true_iff, !Nat.leb_le. intros [Hlo Hhi].
  apply in_map_iff. exists (nat_of_ascii c - 48). split.
  - replace (48 + (nat_of_ascii c - 48)) with (nat_of_ascii c) by lia.
    apply ascii_nat_embedding.
  - apply in_seq. lia.
Qed.

Lemma month_day_checked :
  let digits := map (fun n => ascii_of_nat (48 + n)) (seq 0 10) in
  forallb (fun e => forallb (fun f => forallb (fun g => forallb (fun h =>
    let m := 10 * Strptime.digit e + Strptime.digit f in
    let d := 10 * Strptime.digit g + Strptime.digit h in
    match Strptime.found_md (String e (String f (String g (String h EmptyString)))) with
    | Some (m', d', EmptyString) => (m' =? m)%nat && (d' =? d)%nat
    | _ => negb ((1 <=? m)%nat && (m <=? 12)%nat && (1 <=? d)%nat && (d <=? 31)%nat)
    end) digits) digits) digits) digits = true.
Proof. vm_compute. reflexivity. Qed.

Lemma days_in_month_le y m : Strptime.days_in_month y m <= 31.
Proof.
  unfold Strptime.days_in_month.
  do 12 (destruct m as [|m]; [try destruct (Strptime.is_leap y); lia|]). lia.
Qed.

(** X3: a text of eight digits is read as four digits of year, two of
    month and two of day; it is accepted when that is a day of the
    calendar and is a [ValueError] otherwise. *)
Theorem strptime_eight_digits (a b c d e f g h : ascii) :
  forallb Strptime.is_digit [a; b; c; d; e; f; g; h] = true ->
  let y := ((Strptime.digit a * 10 + Strptime.digit b) * 10 + Strptime.digit c) * 10
           + Strptime.digit d in
  let m := 10 * Strptime.digit e + Strptime.digit f in
  let dd := 10 * Strptime.digit g + Strptime.digit h in
  Strptime.strptime
    (String a (String b (String c (String d (String e (String f (String g (String h ""))))))))
  = if Strptime.valid_date y m dd then Ok (VDate y m dd) else Raise ValueError.
Proof.
  intros H y m dd. cbn [forallb] in H. rewrite !andb_true_iff in H.
  destruct H as (Ha & Hb & Hc & Hd & He & Hf & Hg & Hh & _).
  pose proof month_day_checked as HM. cbv zeta in HM.
  rewrite forallb_forall in HM. specialize (HM e (digit_char e He)).
  rewrite forallb_forall in HM. specialize (HM f (digit_char f Hf)).
  rewrite forallb_forall in HM. specialize (HM g (digit_char g Hg)).
  rewrite forallb_forall in HM. specialize (HM h (digit_char h Hh)).
  unfold Strptime.strptime, Strptime.found, Strptime.directive_Y.
  rewrite Ha, Hb, Hc, Hd. cbn [andb]. fold y. fold m dd in HM.
  assert (Hout : Strptime.valid_date y m dd = true ->
                 (1 <=? m)%nat && (m <=? 12)%nat && (1 <=? dd)%nat && (dd <=? 31)%nat = true).
  { unfold Strptime.valid_date. rewrite !andb_true_iff, !Nat.leb_le.
    pose proof (days_in_month_le y m). intros; repeat split; lia. }
  destruct (Strptime.found_md _) as [[[m' d'] [|x rest]]|].
  - rewrite andb_true_iff, !Nat.eqb_eq in HM. destruct HM as [-> ->]. reflexivity.
  - cbn [Text.is_empty]. destruct (Strptime.valid_date y m dd); [|reflexivity].
    rewrite Hout in HM by reflexivity. discriminate.
  - destruct (Strptime.valid_date y m dd); [|reflexivity].
    rewrite Hout in HM by reflexivity. discriminate.
Qed.

Lemma strptime_eight_digits_witness :
  Strptime.strptime "20240229" = Ok (VDate 2024 2 29).
Proof. apply (strptime_eight_digits "2" "0" "2" "4" "0" "2" "2" "9"). reflexivity. Defined.

(** What a directive reads is the head of the text. *)
Lemma two_length first second s n rest :
  In (n, rest) (Strptime.two first second s) -> String.length s = 2 + String.length rest.
Proof.
  unfold Strptime.two. destruct s as [|a [|b s]]; try (intros []).
  destruct (first a && second b); [|intros []].
  intros [[= _ <-]|[]]. reflexivity.
Qed.

Lemma one_length first s n rest :
  In (n, rest) (Strptime.one first s) -> String.length s = 1 + String.length rest.
Proof.
  unfold Strptime.one. destruct s as [|a s]; try (intros []).
  destruct (first a); [|intros []].
  intros [[= _ <-]|[]]. reflexivity.
Qed.

Lemma blank_then_length second s n rest :
  In (n, rest) (Strptime.blank_then second s) -> String.length s = 2 + String.length rest.
Proof.
  unfold Strptime.blank_then. destruct s as [|a [|b s]]; try (intros []).
  destruct (Text.char_eqb a " " && second b); [|intros []].
  intros [[= _ <-]|[]]. reflexivity.
Qed.

Lemma directive_m_length s n rest :
  In (n, rest) (Strptime.directive_m s) ->
  1 + String.length rest <= String.length s <= 2 + String.length rest.
Proof.
  unfold Strptime.directive_m. rewrite !in_app_iff.
  intros [H|[H|H]];
    [apply two_length in H | apply two_length in H | apply one_length in H]; lia.
Qed.

Lemma directive_d_length s n rest :
  In (n, rest) (Strptime.directive_d s) ->
  1 + String.length rest <= String.length s <= 2 + String.length rest.
Proof.
  unfold Strptime.directive_d. rewrite !in_app_iff.
  intros [H|[H|[H|[H|H]]]];
    [apply two_length in H | apply two_length in H | apply two_length in H
     | apply one_length in H | apply blank_then_length in H]; lia.
Qed.

Lemma found_md_length s m d rest :
  Strptime.found_md s = Some (m, d, rest) ->
  2 + String.length rest <= String.length s <= 4 + String.length rest.
Proof.
  unfold Strptime.found_md. intros H.
  assert (Hin : In (m, d, rest)
             (flat_map (fun '(m, s2) => map (fun '(d, s3) => (m, d, s3)) (Strptime.directive_d s2))
                       (Strptime.directive_m s))).
  { destruct (flat_map _ _); [discriminate|]. injection H as ->. left. reflexivity. }
  apply in_flat_map in Hin. destruct Hin as ([m' s2] & Hm & Hd).
  apply in_map_iff in Hd. destruct Hd as ([d' s3] & [= -> -> ->] & Hd).
  apply directive_m_length in Hm. apply directive_d_length in Hd. lia.
Qed.

(** X4: whatever [strptime] accepts among the texts of ASCII characters
    is a day of the calendar, read from a text of six to eight
    characters: a month or a day of one digit is accepted as well. *)
Theorem strptime_accepts_ascii s v :
  Str.isascii s = true ->
  Strptime.strptime s = Ok v ->
  (exists y m d, v = VDate y m d /\ Strptime.valid_date y m d = true) /\
  6 <= String.length s <= 8.
Proof.
  intros _. unfold Strptime.strptime, Strptime.found.
  destruct (Strptime.directive_Y s) as [|[y s1] l] eqn:HY; [discriminate|].
  destruct (Strptime.found_md s1) as [[[m d] rest]|] eqn:Hmd; [|discriminate].
  destruct rest; [|discriminate]. cbn [Text.is_empty].
  destruct (Strptime.valid_date y m d) eqn:Hvalid; [|discriminate].
  intros [= <-]. split; [eauto|].
  apply found_md_length in Hmd. simpl in Hmd.
  unfold Strptime.directive_Y in HY.
  destruct s as [|a [|b [|c [|e s]]]]; try discriminate.
  destruct (_ && _); [|discriminate]. injection HY as _ <- _. simpl. lia.
Qed.

Lemma strptime_accepts_ascii_witness :
  (exists y m d, VDate 2023 1 1 = VDate y m d /\ Strptime.valid_date y m d = true) /\
  6 <= String.length "202311" <= 8.
Proof.
  apply (strptime_accepts_ascii "202311" (VDate 2023 1 1)); reflexivity.
Defined.

(** ** [get_dates] *)

Lemma new_dict_run (w : world) :
  new_dict w =
  (Ok (fresh (dom (heap w))),
   World (fs w) (dirs w) (past w) (log w) (reads w)
         (<[fresh (dom (heap w)) := []]> (heap w)) (conns w) (console w)).
Proof. reflexivity. Qed.

(** One reading of the dates: the dictionary is made, the block runs
    between two readings of the clock, the span is printed. *)
Lemma timed_ephemeral {A} env label (a : A) (w : world) :
  exists w',
    (spans_tmp <- new_dict ;; timed env label (Some spans_tmp) (ret a)) w = (Ok a, w') /\
    fs w' = fs w /\ dirs w' = dirs w /\ past w' = past w /\ log w' = log w /\
    conns w' = conns w /\ reads w' = S (S (reads w)) /\
    console w' = console w ++ [SpanLine label (perf env (S (reads w)) - perf env (reads w))].
Proof.
  unfold bind at 1. rewrite new_dict_run, timed_Some.
  unfold ret at 1 2. cbn [fst snd]. rewrite timed_exit_Some.
  eexists. split; [reflexivity|]. cbn. repeat split.
Qed.

(** The dates [get_dates] returns, given what the block under [timed] left. *)
Lemma get_dates_run env src (w : world) :
  exists w',
    fs w' = fs w /\ dirs w' = dirs w /\ past w' = past w /\ log w' = log w /\
    conns w' = conns w /\ reads w' = S (S (reads w)) /\
    console w' = console w ++
      [SpanLine (if ini_exists src then "READ_DATE_VARS_INI" else "READ_DATE_VARS_XLSM")
                (perf env (S (reads w)) - perf env (reads w))] /\
    get_dates env src w =
    (if ini_exists src then
       match read_date_vars_ini src with
       | inl e => ret (inl e)
       | inr (sc_start, sc_end) =>
           d1 <- lift (Strptime.strptime sc_start) ;;
           d2 <- lift (Strptime.strptime sc_end) ;;
           ret (inr (d1, d2))
       end
     else
       match read_date_vars_xlsm src with
       | inl e => ret (inl e)
       | inr (start, end_) =>
           d1 <- lift (Strptime.strptime (Str.str start)) ;;
           d2 <- lift (Strptime.strptime (Str.str end_)) ;;
           ret (inr (d1, d2))
       end) w'.
Proof.
  unfold get_dates. destruct (ini_exists src).
  - destruct (timed_ephemeral env "READ_DATE_VARS_INI" (read_date_vars_ini src) w)
      as (w' & Hrun & Hw).
    exists w'. repeat (split; [apply Hw|]).
    rewrite <- bind_assoc. unfold bind at 1. rewrite Hrun. reflexivity.
  - destruct (timed_ephemeral env "READ_DATE_VARS_XLSM" (read_date_vars_xlsm src) w)
      as (w' & Hrun & Hw).
    exists w'. repeat (split; [apply Hw|]).
    rewrite <- bind_assoc. unfold bind at 1. rewrite Hrun. reflexivity.
Qed.

(** What the part after the [with] block does: it leaves the world alone. *)
Lemma parse_pair_run (s1 s2 : string) (w : world) :
  (d1 <- lift (Strptime.strptime s1) ;;
   d2 <- lift (Strptime.strptime s2) ;;
   ret (inr (d1, d2)) : M (config_error + value * value)) w =
  (match Strptime.strptime s1, Strptime.strptime s2 with
   | Ok d1, Ok d2 => Ok (inr (d1, d2))
   | Ok _, Raise e => Raise e
   | Raise e, _ => Raise e
   end, w).
Proof.
  unfold bind, lift, ret.
  destruct (Strptime.strptime s1); [|reflexivity].
  destruct (Strptime.strptime s2); reflexivity.
Qed.

(** The world after [get_dates]. *)
Lemma get_dates_world env src (w : world) :
  let w' := snd (get_dates env src w) in
  console w' = console w ++
    [SpanLine (if ini_exists src then "READ_DATE_VARS_INI" else "READ_DATE_VARS_XLSM")
              (perf env (S (reads w)) - perf env (reads w))] /\
  fs w' = fs w /\ log w' = log w /\ conns w' = conns w.
Proof.
  destruct (get_dates_run env src w) as (w1 & Hfs & _ & _ & Hlog & Hconns & _ & Hconsole & Hrun).
  assert (Hsame : snd (get_dates env src w) = w1).
  { rewrite Hrun. destruct (ini_exists src).
    - destruct (read_date_vars_ini src) as [e|[s1 s2]]; [reflexivity|].
      rewrite parse_pair_run. reflexivity.
    - destruct (read_date_vars_xlsm src) as [e|[s1 s2]]; [reflexivity|].
      rewrite parse_pair_run. reflexivity. }
  cbv zeta. rewrite Hsame. auto.
Qed.

Lemma fresh_console_app (w w' : world) ls :
  console w' = console w ++ ls -> fresh_console w w' = ls.
Proof. intros H. unfold fresh_console. rewrite H. apply drop_app_length. Qed.

Lemma fresh_log_app (w w' : world) es :
  log w' = log w ++ es -> fresh_log w w' = es.
Proof. intros H. unfold fresh_log. rewrite H. apply drop_app_length. Qed.

Example get_dates_examples :
  fst (get_dates Scenario.env Dates.ini empty_world)
    = Ok (inr (VDate 2023 12 18, VDate 2023 12 24)) /\
  fst (get_dates Scenario.env Dates.xlsm empty_world)
    = Ok (inr (VDate 2023 12 18, VDate 2023 12 24)) /\
  fst (get_dates Scenario.env Dates.ini_without_section empty_world)
    = Ok (inl (KeyError "dates")).
Proof. vm_compute. repeat split. Qed.

(** X6: whether it returns the dates or fails, [get_dates] prints one
    timing line, labelled by the source it read, and leaves the file
    system, the log of operations and the connections as they were. *)
Theorem get_dates_prints_one_span env src (w : world) :
  let w' := snd (get_dates env src w) in
  fresh_console w w' =
    [SpanLine (if ini_exists src then "READ_DATE_VARS_INI" else "READ_DATE_VARS_XLSM")
              (perf env (S (reads w)) - perf env (reads w))] /\
  fs w' = fs w /\ fresh_log w w' = [] /\ conns w' = conns w.
Proof.
  destruct (get_dates_world env src w) as (Hconsole & Hfs & Hlog & Hconns).
  cbv zeta. rewrite (fresh_console_app _ _ _ Hconsole).
  rewrite (fresh_log_app _ _ []) by (now rewrite app_nil_r). auto.
Qed.

(** X5: [get_dates] returns the dates exactly when the source it reads has
    them.  When the INI file exists that source is the INI file alone:
    section [dates] with [sc_start] and [sc_end], each a date once
    stripped; the workbook is not consulted, also when the INI file lacks
    them.  Without the INI file it is the two cells of the workbook. *)
Theorem get_dates_succeeds_iff env src (w : world) d1 d2 :
  fst (get_dates env src w) = Ok (inr (d1, d2)) <->
  if ini_exists src then
    exists cfg options v1 v2,
      ini_read src = Some cfg /\ cfg !! "dates" = Some options /\
      options !! "sc_start" = Some (Some v1) /\ options !! "sc_end" = Some (Some v2) /\
      Strptime.strptime (Str.strip v1) = Ok d1 /\
      Strptime.strptime (Str.strip v2) = Ok d2
  else
    exists start end_,
      workbook src = Some (start, end_) /\
      Strptime.strptime (Str.str start) = Ok d1 /\
      Strptime.strptime (Str.str end_) = Ok d2.
Proof.
  destruct (get_dates_run env src w) as (w1 & _ & _ & _ & _ & _ & _ & _ & ->).
  destruct (ini_exists src).
  - unfold read_date_vars_ini, cfg_getitem.
    destruct (ini_read src) as [cfg|]; [|split; [discriminate | intros (? & ? & ? & ? & [=] & _)]].
    destruct (cfg !! "dates") as [options|] eqn:Hsec;
      [|split; [discriminate | intros (? & ? & ? & ? & [= <-] & H & _); congruence]].
    destruct (options !! "sc_start") as [[v1|]|] eqn:H1;
      try (split; [discriminate | intros (? & ? & ? & ? & [= <-] & H & H' & _); congruence]).
    destruct (options !! "sc_end") as [[v2|]|] eqn:H2;
      try (split; [discriminate | intros (? & ? & ? & ? & [= <-] & H & H' & H'' & _); congruence]).
    rewrite parse_pair_run. cbn [fst]. split.
    + intros H. exists cfg, options, v1, v2.
      destruct (Strptime.strptime (Str.strip v1)); [|discriminate].
      destruct (Strptime.strptime (Str.strip v2)); [|discriminate].
      injection H as -> ->. auto 10.
    + intros (cfg' & options' & v1' & v2' & [= <-] & Ho & Hv1 & Hv2 & Hd1 & Hd2).
      rewrite Hsec in Ho. injection Ho as <-.
      rewrite H1 in Hv1. injection Hv1 as <-. rewrite H2 in Hv2. injection Hv2 as <-.
      rewrite Hd1, Hd2. reflexivity.
  - unfold read_date_vars_xlsm.
    destruct (workbook src) as [[start end_]|];
      [|split; [discriminate | intros (? & ? & [=] & _)]].
    rewrite parse_pair_run. cbn [fst]. split.
    + intros H. exists start, end_.
      destruct (Strptime.strptime (Str.str start)); [|discriminate].
      destruct (Strptime.strptime (Str.str end_)); [|discriminate].
      injection H as -> ->. auto.
    + intros (s & e & [= <- <-] & -> & ->). reflexivity.
Qed.

(** ** What a publish leaves in the file system *)

(** The file system after a publish, path by path. *)
Lemma published_fs_lookup (f : gmap path string) (unlink : bool) (local u final : path)
    (text : string) (i : path) :
  u <> final ->
  (if unlink then delete local else id)
    (<[final := text]> (delete u (<[u := text]> (<[local := text]> f)))) !! i
  = if unlink && bool_decide (i = local) then None
    else if bool_decide (i = final) then Some text
    else if bool_decide (i = u) then None
    else if bool_decide (i = local) then Some text
    else f !! i.
Proof.
  intros Hne.
  assert (Hrest : (<[final := text]> (delete u (<[u := text]> (<[local := text]> f)))) !! i
            = if bool_decide (i = final) then Some text
              else if bool_decide (i = u) then None
              else if bool_decide (i = local) then Some text
              else f !! i).
  { repeat case_bool_decide; subst.
    - apply lookup_insert_eq.
    - rewrite lookup_insert_ne by congruence. apply lookup_delete_eq.
    - rewrite lookup_insert_ne, lookup_delete_ne, lookup_insert_ne by congruence.
      apply lookup_insert_eq.
    - now rewrite lookup_insert_ne, lookup_delete_ne, !lookup_insert_ne by congruence. }
  destruct unlink; cbn [andb id]; [|exact Hrest].
  destruct (decide (i = local)) as [->|Hl].
  - rewrite bool_decide_eq_true_2 by reflexivity. apply lookup_delete_eq.
  - rewrite (bool_decide_eq_false_2 (i = local)) by assumption.
    rewrite lookup_delete_ne by congruence.
    rewrite (bool_decide_eq_false_2 (i = local)) in Hrest by assumption. exact Hrest.
Qed.

(** X8: a second run of the same job, with a staging name of its own,
    publishes the same export again: it returns the same count and leaves
    every path but its own staging file as the first run left it, the
    destination included; its staging file is gone when its deletion
    worked and holds the export otherwise.  When the deletion worked and
    that name was free before, the file system is as the first run left
    it. *)
Theorem rerun_changes_its_staging_file_only env1 env2 cxn sql params final_unc_path
    arraysize l1 l2 w u :
  healthy env1 = true -> healthy env2 = true -> same_source env1 env2 ->
  is_open cxn w = true ->
  unc_tmp_of env1 final_unc_path = Ok u ->
  local_tmp_of env1 <> u -> local_tmp_of env2 <> u ->
  local_tmp_of env1 <> final_unc_of env1 final_unc_path ->
  let first := save_csv_via_staging_streaming env1 cxn sql params final_unc_path arraysize
                 (Some l1) w in
  let second := save_csv_via_staging_streaming env2 cxn sql params final_unc_path arraysize
                  (Some l2) (snd first) in
  fst second = fst first /\
  (forall p, p <> local_tmp_of env2 -> fs (snd second) !! p = fs (snd first) !! p) /\
  fs (snd second) !! local_tmp_of env2
    = (if unlink_ok env2 then None else Some (export_of env1 arraysize)) /\
  (unlink_ok env2 = true -> fs (snd first) !! local_tmp_of env2 = None ->
   fs (snd second) = fs (snd first)).
Proof.
  intros Hh1 Hh2 (Hcols & Hres & Hpath) Hopen Hu Hne1 Hne2 Hlf first second.
  subst first second.
  assert (Hfinal : final_unc_of env2 final_unc_path = final_unc_of env1 final_unc_path)
    by (unfold final_unc_of; now rewrite Hpath).
  assert (Hu2 : unc_tmp_of env2 final_unc_path = Ok u)
    by (unfold unc_tmp_of; now rewrite Hfinal).
  assert (Hexp : export_of env2 arraysize = export_of env1 arraysize)
    by (unfold export_of; now rewrite Hcols, Hres).
  destruct (save_csv_healthy env1 cxn sql params final_unc_path arraysize l1 w u
              Hh1 Hopen Hu Hne1) as (w1 & -> & Hfs1 & Hc1). cbn [fst snd].
  assert (Hopen1 : is_open cxn w1 = true) by (unfold is_open in *; now rewrite Hc1).
  destruct (save_csv_healthy env2 cxn sql params final_unc_path arraysize l2 w1 u
              Hh2 Hopen1 Hu2 Hne2) as (w2 & -> & Hfs2 & _). cbn [fst snd].
  rewrite Hfinal, Hexp in Hfs2.
  pose proof (unc_tmp_fresh env1 final_unc_path u Hu) as Hfresh.
  assert (Hother : forall p, p <> local_tmp_of env2 -> fs w2 !! p = fs w1 !! p).
  { intros p Hp. rewrite Hfs2, published_fs_lookup by assumption.
    rewrite (bool_decide_eq_false_2 (p = local_tmp_of env2)) by assumption.
    rewrite andb_false_r.
    case_bool_decide as Hpf; [|case_bool_decide as Hpu].
    - subst p. rewrite Hfs1, published_fs_lookup by assumption.
      rewrite (bool_decide_eq_false_2 (_ = local_tmp_of env1)) by congruence.
      rewrite andb_false_r, bool_decide_eq_true_2 by reflexivity. reflexivity.
    - subst p. rewrite Hfs1, published_fs_lookup by assumption.
      rewrite (bool_decide_eq_false_2 (u = local_tmp_of env1)) by congruence.
      rewrite andb_false_r, (bool_decide_eq_false_2 (u = _)) by assumption.
      rewrite bool_decide_eq_true_2 by reflexivity. reflexivity.
    - reflexivity. }
  assert (Hown : fs w2 !! local_tmp_of env2
                 = (if unlink_ok env2 then None else Some (export_of env1 arraysize))).
  { rewrite Hfs2, published_fs_lookup by assumption.
    rewrite (bool_decide_eq_true_2 (local_tmp_of env2 = local_tmp_of env2)) by reflexivity.
    rewrite (bool_decide_eq_false_2 (local_tmp_of env2 = u)) by assumption.
    destruct (unlink_ok env2); cbn [andb]; [reflexivity|].
    now case_bool_decide. }
  split; [now rewrite Hres|]. split; [exact Hother|]. split; [exact Hown|].
  intros Hul Hfree. apply map_eq. intros p.
  destruct (decide (p = local_tmp_of env2)) as [->|Hp]; [|now apply Hother].
  now rewrite Hown, Hul, Hfree.
Qed.

Lemma rerun_changes_its_staging_file_only_witness :
  let env2 := Scenario.surroundings "6fa459ea-ee8a-3ca4-894e-db77e160355e" Scenario.cols
                Scenario.rows in
  let first := save_csv_via_staging_streaming Scenario.env 0 "SELECT" []
                 Scenario.destination 100 (Some 0) Scenario.world_with_export in
  let second := save_csv_via_staging_streaming env2 0 "SELECT" []
                  Scenario.destination 100 (Some 1) (snd first) in
  fst second = fst first /\
  (forall p, p <> local_tmp_of env2 -> fs (snd second) !! p = fs (snd first) !! p) /\
  fs (snd second) !! local_tmp_of env2
    = (if unlink_ok env2 then None else Some (export_of Scenario.env 100)) /\
  (unlink_ok env2 = true -> fs (snd first) !! local_tmp_of env2 = None ->
   fs (snd second) = fs (snd first)).
Proof.
  apply (rerun_changes_its_staging_file_only Scenario.env
           (Scenario.surroundings "6fa459ea-ee8a-3ca4-894e-db77e160355e" Scenario.cols
              Scenario.rows)
           0 "SELECT" [] Scenario.destination 100 0 1 Scenario.world_with_export
           Scenario.unc_tmp); try reflexivity.
  - repeat split.
  - vm_compute. discriminate.
  - vm_compute. discriminate.
  - vm_compute. discriminate.
Defined.

(** X9: after a run in which nothing fails the temporary file next to the
    destination is gone, whatever was under its name before; the staging
    file is gone when its deletion worked; every path but these two and
    the destination holds what it held. *)
Theorem published_leaves_no_temporary_file env cxn sql params final_unc_path arraysize l w u :
  healthy env = true -> is_open cxn w = true ->
  unc_tmp_of env final_unc_path = Ok u -> local_tmp_of env <> u ->
  let w' := snd (save_csv_via_staging_streaming env cxn sql params final_unc_path arraysize
                   (Some l) w) in
  fs w' !! u = None /\
  (unlink_ok env = true -> fs w' !! local_tmp_of env = None) /\
  (forall p, p <> u -> p <> local_tmp_of env -> p <> final_unc_of env final_unc_path ->
             fs w' !! p = fs w !! p).
Proof.
  intros Hh Hopen Hu Hne w'. subst w'.
  destruct (save_csv_healthy env cxn sql params final_unc_path arraysize l w u Hh Hopen Hu Hne)
    as (w1 & -> & Hfs1 & _). cbn [snd]. rewrite Hfs1.
  pose proof (unc_tmp_fresh env final_unc_path u Hu) as Hfresh.
  split; [|split].
  - rewrite published_fs_lookup by assumption.
    repeat case_bool_decide; destruct (unlink_ok env); cbn [andb]; congruence.
  - intros Hul. rewrite published_fs_lookup by assumption.
    rewrite Hul, bool_decide_eq_true_2 by reflexivity. reflexivity.
  - intros p H1 H2 H3. rewrite published_fs_lookup by assumption.
    rewrite !bool_decide_eq_false_2 by assumption. now rewrite andb_false_r.
Qed.

Lemma published_leaves_no_temporary_file_witness :
  let w' := snd (save_csv_via_staging_streaming Scenario.env 0 "SELECT" []
                   Scenario.destination 100 (Some 0) Scenario.world_with_export) in
  fs w' !! Scenario.unc_tmp = None /\
  (unlink_ok Scenario.env = true -> fs w' !! local_tmp_of Scenario.env = None) /\
  (forall p, p <> Scenario.unc_tmp -> p <> local_tmp_of Scenario.env ->
             p <> final_unc_of Scenario.env Scenario.destination ->
             fs w' !! p = fs Scenario.world_with_export !! p).
Proof.
  apply (published_leaves_no_temporary_file Scenario.env 0 "SELECT" [] Scenario.destination
           100 0 Scenario.world_with_export Scenario.unc_tmp); try reflexivity.
  vm_compute. discriminate.
Defined.

(** ** A copy that stops half-way *)

Lemma bind_raised {A B} (m : M A) (k : A -> M B) (w w' : world) e :
  m w = (Raise e, w') -> bind m k w = (Raise e, w').
Proof. unfold bind. now intros ->. Qed.

Lemma copyfile_fault env src dst (w : world) text k :
  copy_fault env = Some k -> src <> dst -> fs w !! src = Some text ->
  fst (copyfile env src dst w) = Raise OSError /\
  fs (snd (copyfile env src dst w)) = <[dst := Text.take_str k text]> (fs w).
Proof.
  intros Hk Hne Hsrc.
  unfold copyfile, bind, emit, get_world, update_fs, raise. cbn beta iota.
  destruct (decide (src = dst)) as [Heq|_]; [contradiction|]. cbn [fs].
  rewrite Hsrc, Hk. cbn. split; [reflexivity|]. apply insert_insert_eq.
Qed.

(** X10: when the copy to the share stops after [k] characters, the run
    ends with [OSError]; the temporary file next to the destination holds
    the first [k] characters of the export, the staging file the whole
    export, and nothing removes either; all other paths are as before. *)
Theorem failed_copy_leaves_partial_file env0 k cxn sql params final_unc_path arraysize l w u :
  healthy env0 = true -> is_open cxn w = true ->
  unc_tmp_of env0 final_unc_path = Ok u -> local_tmp_of env0 <> u ->
  let env := Scenario.with_copy_fault k env0 in
  let run := save_csv_via_staging_streaming env cxn sql params final_unc_path arraysize
               (Some l) w in
  fst run = Raise OSError /\
  fs (snd run) = <[u := Text.take_str k (export_of env0 arraysize)]>
                   (<[local_tmp_of env0 := export_of env0 arraysize]> (fs w)).
Proof.
  intros Hh Hopen Hu Hne env run. subst run.
  apply healthy_inv in Hh.
  destruct Hh as (_ & Hex & [cols Hcols] & Hff & Hmk & Hop & Hdr & _ & _).
  rewrite save_csv_phases.
  assert (Hstage : exists w',
    stage env cxn sql params final_unc_path arraysize (Some l) w = (Raise OSError, w') /\
    fs w' = <[u := Text.take_str k (export_of env0 arraysize)]>
              (<[local_tmp_of env0 := export_of env0 arraysize]> (fs w))).
  { unfold stage.
    step (mkdir_spec env (parent (final_unc_of env final_unc_path)) w);
      [destruct Hs as [Hfs0 Hc0] | cbn in Hs; congruence].
    unfold bind at 1, lift.
    change (unc_tmp_of env final_unc_path) with (unc_tmp_of env0 final_unc_path).
    rewrite Hu. cbn beta iota.
    unfold bind at 1. rewrite timed_Some. cbn beta iota.
    change (local_tmp_of env) with (local_tmp_of env0).
    pose proof (read_stream_spec env cxn sql params (local_tmp_of env0) arraysize
                  (snd (perf_counter env w0))) as Hr.
    destruct (read_stream env cxn sql params (local_tmp_of env0) arraysize
                (snd (perf_counter env w0))) as [[n|e] w1]; cbn [fst snd].
    2:{ exfalso.
        replace (is_open cxn (snd (perf_counter env w0))) with (is_open cxn w) in Hr
          by (unfold is_open; cbn [snd perf_counter conns]; now rewrite Hc0).
        cbn in Hr. intuition congruence. }
    destruct Hr as (cols' & Hcols' & -> & Hlocal).
    change (fs (snd (perf_counter env w0))) with (fs w0) in Hlocal. rewrite Hfs0 in Hlocal.
    cbn in Hcols'. rewrite Hcols in Hcols'. injection Hcols' as <-.
    change (result env) with (result env0) in Hlocal.
    assert (Hexp : export_text cols (fetched_rows arraysize (result env0)) =
                   export_of env0 arraysize).
    { unfold export_of. now rewrite Hcols. }
    rewrite Hexp in Hlocal.
    unfold bind at 1. rewrite timed_Some. cbn beta iota.
    match goal with
    | |- context [copyfile env (local_tmp_of env0) u ?w2] =>
        assert (Hfs2 : fs w2 = fs w1) by reflexivity;
        destruct (copyfile_fault env (local_tmp_of env0) u w2 (export_of env0 arraysize) k)
          as [Hc1 Hc2];
        [reflexivity | assumption | rewrite Hfs2, Hlocal; apply lookup_insert_eq |];
        destruct (copyfile env (local_tmp_of env0) u w2) as [r3 w3]
    end; cbn [fst snd] in *. subst r3.
    rewrite timed_exit_Some. cbn [fst snd fs].
    eexists. split; [reflexivity|]. cbn [fs].
    rewrite Hc2, Hfs2, Hlocal. reflexivity. }
  destruct Hstage as (w1 & Hstage & Hfs).
  rewrite (bind_raised _ _ _ _ _ Hstage). cbn [fst snd]. auto.
Qed.

Lemma failed_copy_leaves_partial_file_witness :
  let env := Scenario.with_copy_fault 5 Scenario.env in
  let run := save_csv_via_staging_streaming env 0 "SELECT" [] Scenario.destination 100
               (Some 0) connected_world in
  fst run = Raise OSError /\
  fs (snd run) = <[Scenario.unc_tmp := Text.take_str 5 (export_of Scenario.env 100)]>
                   (<[local_tmp_of Scenario.env := export_of Scenario.env 100]>
                      (fs connected_world)).
Proof.
  apply (failed_copy_leaves_partial_file Scenario.env 5 0 "SELECT" [] Scenario.destination
           100 0 connected_world Scenario.unc_tmp); try reflexivity.
  vm_compute. discriminate.
Defined.

(** ** Names of temporary files *)

Lemma rfind_app_dot stem ext :
  Text.rfind Text.DOT ext = None ->
  Text.rfind Text.DOT (stem +:+ String Text.DOT ext) = Some (String.length stem).
Proof.
  intros Hext. induction stem as [|a stem IH].
  - rewrite append_empty_l. simpl. rewrite Hext. reflexivity.
  - rewrite append_cons. simpl. rewrite IH. reflexivity.
Qed.

Lemma drop_str_app stem t : Text.drop_str (String.length stem) (stem +:+ t) = t.
Proof.
  induction stem as [|a stem IH]; [rewrite append_empty_l; now destruct t|].
  rewrite append_cons. simpl. exact IH.
Qed.

Lemma take_str_app stem t : Text.take_str (String.length stem) (stem +:+ t) = stem.
Proof.
  induction stem as [|a stem IH]; [rewrite append_empty_l; now destruct t|].
  rewrite append_cons. simpl. now rewrite IH.
Qed.

(** X11: the temporary name is the name of the destination with its last
    suffix replaced by [.tmp.csv]: destinations of one directory that
    differ only in that suffix get the same temporary file. *)
Theorem with_suffix_replaces_last_suffix dir stem ext :
  stem <> "" -> ext <> "" -> Text.rfind Text.DOT ext = None ->
  Pathlib.with_suffix (mkPath dir (stem +:+ String Text.DOT ext)) ".tmp.csv" =
  Ok (mkPath dir (stem +:+ ".tmp.csv")).
Proof.
  intros Hstem Hext Hdot. unfold Pathlib.with_suffix, Pathlib.suffix. cbn [name parent].
  rewrite rfind_app_dot by assumption.
  assert (Hlen : String.length (stem +:+ String Text.DOT ext) =
                 String.length stem + S (String.length ext)).
  { rewrite length_append_str. reflexivity. }
  assert (0 < String.length stem) by (destruct stem; [contradiction|simpl; lia]).
  assert (0 < String.length ext) by (destruct ext; [contradiction|simpl; lia]).
  assert (Hrange : (0 <? String.length stem)%nat &&
                   (String.length stem <? String.length (stem +:+ String Text.DOT ext) - 1)%nat
                   = true).
  { apply andb_true_intro. split; apply Nat.ltb_lt; lia. }
  assert (Hfull : Text.is_empty (stem +:+ String Text.DOT ext) = false).
  { destruct stem; [contradiction|]. rewrite append_cons. reflexivity. }
  rewrite Hfull, Hrange, drop_str_app. cbn [Text.is_empty]. rewrite Hlen.
  replace (String.length stem + S (String.length ext) - String.length (String Text.DOT ext))
    with (String.length stem) by (simpl; lia).
  rewrite take_str_app. reflexivity.
Qed.

Lemma with_suffix_replaces_last_suffix_witness :
  Pathlib.with_suffix (mkPath "\\fs\Accounting" "Sales.2024.txt") ".tmp.csv" =
  Ok (mkPath "\\fs\Accounting" "Sales.2024.tmp.csv").
Proof.
  apply (with_suffix_replaces_last_suffix "\\fs\Accounting" "Sales.2024" "txt");
    [discriminate | discriminate | reflexivity].
Defined.

(** ** A destination without a file name *)

(** X12: a destination whose name is empty is refused with [ValueError],
    but only after its directory was made; no statement was executed and
    no file was touched. *)
Theorem empty_name_rejected_after_mkdir env cxn sql params final_unc_path arraysize spans w :
  name (final_unc_of env final_unc_path) = "" -> mkdir_ok env = true ->
  let run := save_csv_via_staging_streaming env cxn sql params final_unc_path arraysize
               spans w in
  fst run = Raise ValueError /\
  fresh_log w (snd run) = [Mkdir (parent (final_unc_of env final_unc_path))] /\
  dirs (snd run) = {[parent (final_unc_of env final_unc_path)]} ∪ dirs w /\
  fs (snd run) = fs w.
Proof.
  intros Hname Hmk run. subst run.
  unfold save_csv_via_staging_streaming, mkdir_parents, unc_tmp_of, Pathlib.with_suffix.
  rewrite Hname, Hmk. cbn. unfold fresh_log. cbn. rewrite drop_app_length. auto.
Qed.

Lemma empty_name_rejected_after_mkdir_witness :
  let run := save_csv_via_staging_streaming Scenario.env 0 "SELECT" [] "\\fs\Accounting\" 100
               (Some 0) connected_world in
  fst run = Raise ValueError /\
  fresh_log connected_world (snd run) = [Mkdir "\\fs\Accounting"] /\
  dirs (snd run) = {["\\fs\Accounting"]} ∪ dirs connected_world /\
  fs (snd run) = fs connected_world.
Proof.
  apply (empty_name_rejected_after_mkdir Scenario.env 0 "SELECT" [] "\\fs\Accounting\" 100
           (Some 0) connected_world); reflexivity.
Defined.

(** ** Runs that keep a relation between worlds *)

Section Frames.

Context (R : relation world) `{!PreOrder R}.

Lemma frame_ret {A} (a : A) : preserves R (ret a).
Proof. intros w. reflexivity. Qed.

Lemma frame_raise {A} e : preserves R (@raise A e).
Proof. intros w. reflexivity. Qed.

Lemma frame_lift {A} (o : outcome A) : preserves R (lift o).
Proof. intros w. reflexivity. Qed.

Lemma frame_get_world : preserves R get_world.
Proof. intros w. reflexivity. Qed.

Lemma frame_bind {A B} (m : M A) (k : A -> M B) :
  preserves R m -> (forall a, preserves R (k a)) -> preserves R (bind m k).
Proof.
  intros Hm Hk w. unfold bind. specialize (Hm w).
  destruct (m w) as [[a|e] w1]; simpl in *; [|assumption].
  etransitivity; [exact Hm | apply Hk].
Qed.

Lemma frame_try_finally {A} (body : M A) (fin : M unit) :
  preserves R body -> preserves R fin -> preserves R (try_finally body fin).
Proof.
  intros Hb Hf w. unfold try_finally. specialize (Hb w).
  destruct (body w) as [r w1]. specialize (Hf w1).
  destruct (fin w1) as [[[]|e] w2]; simpl in *; etransitivity; eauto.
Qed.

Lemma frame_try_except_pass (body : M unit) :
  preserves R body -> preserves R (try_except_pass body).
Proof.
  intros Hb w. unfold try_except_pass. specialize (Hb w).
  now destruct (body w) as [r w1].
Qed.

End Frames.

Ltac frame_step :=
  lazymatch goal with
  | |- preserves _ (bind _ _) =>
      apply frame_bind; try typeclasses eauto; [|intros ?]
  | |- preserves _ (try_finally _ _) => apply frame_try_finally; try typeclasses eauto
  | |- preserves _ (try_except_pass _) => apply frame_try_except_pass; try typeclasses eauto
  | |- preserves _ (ret _) => apply frame_ret; typeclasses eauto
  | |- preserves _ (raise _) => apply frame_raise; typeclasses eauto
  | |- preserves _ (lift _) => apply frame_lift; typeclasses eauto
  | |- preserves _ get_world => apply frame_get_world; typeclasses eauto
  | |- preserves _ (if ?b then _ else _) => destruct b
  | |- preserves _ (match ?x with _ => _ end) => destruct x
  end.

#[global] Instance any_heap_preorder : PreOrder any_heap.
Proof. split; [intros h | intros h1 h2 h3 _ _]; exact I. Qed.

Section Advances.

Context (D : relation (gmap nat dict)) `{!PreOrder D}.
Context (E : event -> Prop) (N : line -> Prop).

Local Abbreviation R := (advances D E N).

#[local] Instance advances_refl : Reflexive R.
Proof.
  intros w. split; [lia | reflexivity | |]; exists [];
    (split; [now rewrite app_nil_r | constructor]).
Qed.

#[local] Instance advances_trans : Transitive R.
Proof.
  intros w1 w2 w3 [Hr1 Hh1 (e1 & He1 & HE1) (l1 & Hl1 & HN1)]
                  [Hr2 Hh2 (e2 & He2 & HE2) (l2 & Hl2 & HN2)].
  split.
  - lia.
  - etransitivity; eassumption.
  - exists (e1 ++ e2). split; [now rewrite He2, He1, app_assoc | now apply Forall_app].
  - exists (l1 ++ l2). split; [now rewrite Hl2, Hl1, app_assoc | now apply Forall_app].
Qed.

#[global] Instance advances_preorder : PreOrder R.
Proof. split; apply _. Qed.

Lemma advances_intro (w w' : world) es ls :
  reads w <= reads w' -> D (heap w) (heap w') ->
  log w' = log w ++ es -> Forall E es ->
  console w' = console w ++ ls -> Forall N ls -> R w w'.
Proof. intros; split; eauto. Qed.

Lemma advances_emit e : E e -> preserves R (emit e).
Proof.
  intros He w. apply (advances_intro _ _ [e] []); simpl;
    auto using app_nil_r; reflexivity.
Qed.

Lemma advances_print l : N l -> preserves R (print l).
Proof.
  intros Hl w. apply (advances_intro _ _ [] [l]); simpl;
    auto using app_nil_r; reflexivity.
Qed.

Lemma advances_still (w w' : world) :
  reads w <= reads w' -> heap w' = heap w -> log w' = log w -> console w' = console w ->
  R w w'.
Proof.
  intros Hr Hh Hl Hc. apply (advances_intro _ _ [] []); auto.
  - rewrite Hh. reflexivity.
  - now rewrite app_nil_r.
  - now rewrite app_nil_r.
Qed.

Lemma advances_update_fs F : preserves R (update_fs F).
Proof. intros w. apply advances_still; reflexivity. Qed.

Lemma advances_update_dirs F : preserves R (update_dirs F).
Proof. intros w. apply advances_still; reflexivity. Qed.

Lemma advances_update_conns F : preserves R (update_conns F).
Proof. intros w. apply advances_still; reflexivity. Qed.

Lemma advances_perf_counter env : preserves R (perf_counter env).
Proof. intros w. apply advances_still; simpl; auto. Qed.

Lemma advances_update_heap F : (forall h, D h (F h)) -> preserves R (update_heap F).
Proof.
  intros HF w. apply (advances_intro _ _ [] []); simpl; auto using app_nil_r.
Qed.

(** Every event but the execution of a statement and the closing of a
    cursor is admitted. *)
Context (HE : forall e, match e with Execute _ _ _ | CursorClose _ => False | _ => True end ->
                        E e).
Context (HN : forall rows dt arraysize, (0 < dt)%Z -> N (StreamedLine rows dt arraysize)).

Ltac advance_step :=
  lazymatch goal with
  | |- preserves _ (emit _) => apply advances_emit; try (apply HE; exact I)
  | |- preserves _ (update_fs _) => apply advances_update_fs
  | |- preserves _ (update_dirs _) => apply advances_update_dirs
  | |- preserves _ (update_conns _) => apply advances_update_conns
  | |- preserves _ (perf_counter _) => apply advances_perf_counter
  | |- _ => frame_step
  end.

Ltac advance := repeat advance_step.

Lemma advances_mkdir_parents env d : preserves R (mkdir_parents env d).
Proof. unfold mkdir_parents. advance. Qed.

Lemma advances_open_w env p : preserves R (open_w env p).
Proof. unfold open_w. advance. Qed.

Lemma advances_write env p s : preserves R (write env p s).
Proof. unfold write. advance. Qed.

Lemma advances_copyfile env src dst : preserves R (copyfile env src dst).
Proof. unfold copyfile. advance. Qed.

Lemma advances_os_replace env src dst : preserves R (os_replace env src dst).
Proof. unfold os_replace. advance. Qed.

Lemma advances_unlink env p : preserves R (unlink_missing_ok env p).
Proof. unfold unlink_missing_ok. advance. Qed.

Lemma advances_connect env database : preserves R (pyodbc_connect env database).
Proof. unfold pyodbc_connect. advance. Qed.

Lemma advances_conn_close cxn : preserves R (conn_close cxn).
Proof. unfold conn_close. advance. Qed.

Lemma advances_cxn_cursor cxn : preserves R (cxn_cursor cxn).
Proof. unfold cxn_cursor. advance. Qed.

Lemma advances_execute env cur sql params :
  E (Execute (cur_cxn cur) sql params) -> preserves R (execute env cur sql params).
Proof. intros He. unfold execute. advance. assumption. Qed.

Lemma advances_writerows env f rows : preserves R (writerows env f rows).
Proof.
  induction rows as [|r rows IH]; simpl; advance; [|assumption].
  apply advances_write.
Qed.

Lemma advances_stream_loop env f cur k : preserves R (stream_loop env f cur k).
Proof.
  remember (length (pending cur)) as n eqn:Hn.
  revert cur k Hn. induction n as [n IH] using lt_wf_ind. intros cur k Hn w.
  rewrite stream_loop_step.
  assert (Hlog : R w (logged (FetchMany (cur_cxn cur)) w)).
  { apply (advances_emit (FetchMany (cur_cxn cur))). apply HE. exact I. }
  destruct (fetchmany env cur) as [[[|r rows] cur']|e] eqn:Hfetch; try exact Hlog.
  pose proof (advances_writerows env f (r :: rows)
                (logged (FetchMany (cur_cxn cur)) w)) as Hw.
  destruct (writerows env f (r :: rows) (logged (FetchMany (cur_cxn cur)) w))
    as [[[]|e] w1]; cbn [snd] in Hw |- *.
  - transitivity w1; [now transitivity (logged (FetchMany (cur_cxn cur)) w)|].
    apply (IH (length (pending cur'))); [|reflexivity].
    subst n. eapply fetchmany_shrinks; eassumption.
  - now transitivity (logged (FetchMany (cur_cxn cur)) w).
Qed.

(** [stream_query_to_local_csv] up to the closing of the cursor. *)
Lemma advances_stream_opened env cxn sql params local_csv_path arraysize
    (include_header : bool) :
  (forall c, E (Execute c sql params)) ->
  preserves R
    (cur <- cxn_cursor cxn ;;
     cur <- execute env (set_arraysize cur arraysize) sql params ;;
     cols <- lift (match description cur with
                   | Some names => Ok names
                   | None => Raise TypeError
                   end) ;;
     with_open_w env local_csv_path (fun f =>
       (if include_header then writerow env f (Csv.header_record cols) else ret tt) ;;;
       stream_loop env f cur 0)).
Proof.
  intros He.
  advance_step; [apply advances_cxn_cursor|].
  advance_step; [apply advances_execute, He|].
  advance_step; [advance|].
  unfold with_open_w. advance_step; [apply advances_open_w|].
  advance_step; [|advance].
  advance_step; [|apply advances_stream_loop].
  unfold writerow. destruct include_header; [apply advances_write | advance].
Qed.

Lemma advances_stream_query env cxn sql params local_csv_path arraysize
    (include_header : bool) :
  (forall c, E (Execute c sql params)) -> E (CursorClose cxn) ->
  preserves R (stream_query_to_local_csv env cxn sql params local_csv_path arraysize
                 include_header).
Proof.
  intros He Hc. unfold stream_query_to_local_csv.
  advance_step; [apply advances_cxn_cursor|].
  advance_step; [apply advances_execute, He|].
  advance_step; [advance|].
  advance_step; [|advance_step; [apply advances_emit, Hc | advance]].
  unfold with_open_w. advance_step; [apply advances_open_w|].
  advance_step; [|advance].
  advance_step; [|apply advances_stream_loop].
  unfold writerow. destruct include_header; [apply advances_write | advance].
Qed.

Lemma advances_read_stream env cxn sql params local_tmp arraysize :
  (forall c, E (Execute c sql params)) -> E (CursorClose cxn) ->
  preserves R (read_stream env cxn sql params local_tmp arraysize).
Proof.
  intros He Hc. unfold read_stream.
  advance_step; [advance|].
  advance_step; [now apply advances_stream_query|].
  advance_step; [advance|].
  advance_step; [|advance].
  destruct (0 <? _)%Z eqn:Hdt; [|advance].
  apply advances_print, HN. now apply Z.ltb_lt.
Qed.

End Advances.

(** *** With any dictionary and any line *)

Section Loose.

Context (E : event -> Prop).
Context (HE : forall e, match e with Execute _ _ _ | CursorClose _ => False | _ => True end ->
                        E e).

Local Abbreviation R := (advances any_heap E any_line).

Ltac loose_step :=
  lazymatch goal with
  | |- preserves _ (emit _) =>
      apply advances_emit; try typeclasses eauto; try (apply HE; exact I)
  | |- preserves _ (print _) => apply advances_print; try typeclasses eauto; try exact I
  | |- preserves _ (update_heap _) =>
      apply advances_update_heap; try typeclasses eauto; try (intros ?; exact I)
  | |- preserves _ (update_fs _) => apply advances_update_fs; typeclasses eauto
  | |- preserves _ (update_dirs _) => apply advances_update_dirs; typeclasses eauto
  | |- preserves _ (update_conns _) => apply advances_update_conns; typeclasses eauto
  | |- preserves _ (perf_counter _) => apply advances_perf_counter; typeclasses eauto
  | |- _ => frame_step
  end.

Ltac loose := repeat loose_step.

Lemma loose_timed_exit env label bucket t0 : preserves R (timed_exit env label bucket t0).
Proof. unfold timed_exit, bucket_get, bucket_setitem. loose. Qed.

Lemma loose_timed {A} env label bucket (body : M A) :
  preserves R body -> preserves R (timed env label bucket body).
Proof.
  intros Hb. unfold timed. loose; [assumption|]. apply loose_timed_exit.
Qed.

Ltac side := try typeclasses eauto; try assumption; try (intros; exact I).

Lemma loose_save_csv env cxn sql params final_unc_path arraysize spans :
  (forall c, E (Execute c sql params)) -> E (CursorClose cxn) ->
  preserves R (save_csv_via_staging_streaming env cxn sql params final_unc_path arraysize
                 spans).
Proof.
  intros He Hc. unfold save_csv_via_staging_streaming.
  loose_step; [apply advances_mkdir_parents; side|].
  loose_step; [loose|].
  loose_step; [apply loose_timed, advances_read_stream; side|].
  loose_step; [apply loose_timed, advances_copyfile; side|].
  loose_step; [apply loose_timed, advances_os_replace; side|].
  loose_step; [|loose].
  loose_step. apply advances_unlink; side.
Qed.

Lemma loose_run_sales_export env server database username password packet_size arraysize
    final_unc_path sql params done_message :
  (forall c, E (Execute c sql params)) -> (forall c, E (CursorClose c)) ->
  preserves R (run_sales_export env server database username password packet_size arraysize
                 final_unc_path sql params done_message).
Proof.
  intros He Hc. unfold run_sales_export.
  loose_step; [loose|].
  loose_step; [unfold new_dict; loose|].
  loose_step; [loose|].
  loose_step; [unfold bucket_setitem; loose|].
  loose_step; [apply loose_timed; loose|].
  loose_step; [apply loose_timed, advances_connect; side|].
  loose_step; [apply loose_save_csv; auto|].
  apply loose_timed. unfold job_report. loose.
  apply advances_conn_close; side.
Qed.

Lemma loose_main env1 env2 env3 ARRAY_SIZE PACKET_SIZE start_date end_date
    sql_job1 sql_job2 sql_job3 :
  (forall c, E (Execute c sql_job1 [start_date; end_date])) ->
  (forall c, E (Execute c sql_job2 [start_date; end_date])) ->
  (forall c, E (Execute c sql_job3 [start_date; end_date])) ->
  (forall c, E (CursorClose c)) ->
  preserves R (Script.main env1 env2 env3 ARRAY_SIZE PACKET_SIZE start_date end_date
                 sql_job1 sql_job2 sql_job3).
Proof.
  intros H1 H2 H3 Hc. unfold Script.main.
  loose_step; [apply loose_run_sales_export; assumption|].
  loose_step; [apply loose_run_sales_export; assumption|].
  loose_step; [apply loose_run_sales_export; assumption|].
  loose.
Qed.

Lemma loose_get_dates env src : preserves R (get_dates env src).
Proof.
  unfold get_dates. destruct (ini_exists src).
  - loose_step; [unfold new_dict; loose|].
    loose_step; [apply loose_timed; loose|]. loose.
  - loose_step; [unfold new_dict; loose|].
    loose_step; [apply loose_timed; loose|]. loose.
Qed.

Lemma loose_script src env0 env1 env2 env3 ARRAY_SIZE PACKET_SIZE :
  (forall c s e, E (Execute c Program.sql_job1 [s; e])) ->
  (forall c s e, E (Execute c Program.sql_job2 [s; e])) ->
  (forall c s e, E (Execute c Program.sql_job3 [s; e])) ->
  (forall c, E (CursorClose c)) ->
  preserves R (Program.script src env0 env1 env2 env3 ARRAY_SIZE PACKET_SIZE).
Proof.
  intros H1 H2 H3 Hc. unfold Program.script.
  loose_step; [apply loose_get_dates|].
  loose_step; [loose|]. destruct p as [start_date end_date].
  loose_step; [apply loose_main; auto | loose].
Qed.

End Loose.

(** ** Durations *)

Lemma get_nonneg k (d : dict) :
  Forall (fun kv => (0 <= snd kv)%Z) d -> (0 <= Dict.get k 0 d)%Z.
Proof.
  induction 1 as [|[k' v'] d Hv Hd IH]; simpl; [lia|].
  destruct (String.eqb k' k); [exact Hv | exact IH].
Qed.

Lemma setitem_nonneg k v (d : dict) :
  Forall (fun kv => (0 <= snd kv)%Z) d -> (0 <= v)%Z ->
  Forall (fun kv => (0 <= snd kv)%Z) (Dict.setitem k v d).
Proof.
  intros Hd Hv. induction Hd as [|[k' v'] d Hv' Hd IH]; simpl.
  - repeat constructor. exact Hv.
  - destruct (String.eqb k' k); constructor; auto.
Qed.

#[global] Instance ticks_preorder l : PreOrder (ticks l).
Proof.
  split.
  - intros w. split; [reflexivity | auto].
  - intros w1 w2 w3 [H1 A1] [H2 A2]. split; [etransitivity; eassumption | auto].
Qed.

Lemma calm_ticks l (w w' : world) : calm w w' -> ticks l w w'.
Proof.
  intros [Hr Hh Hlog Hcon]. split.
  - split; [assumption | exact I | assumption | assumption].
  - unfold nonneg_entries, deref. now rewrite <- Hh.
Qed.

Lemma preserves_calm_ticks {A} l (m : M A) :
  preserves calm m -> preserves (ticks l) m.
Proof. intros Hm w. apply calm_ticks, Hm. Qed.

Lemma ticks_timed {A} env l label (body : M A) :
  monotone (perf env) -> preserves calm body ->
  preserves (ticks l) (timed env label (Some l) body).
Proof.
  intros Hmono Hb w. rewrite timed_Some. cbn [snd].
  specialize (Hb (snd (perf_counter env w))).
  destruct (body (snd (perf_counter env w))) as [r w1]. cbn [fst snd] in *.
  destruct Hb as [Hr Hh (es & Hes & _) (ls & Hls & Hnn)].
  cbn [perf_counter snd reads heap log console] in Hr, Hh, Hes, Hls.
  rewrite timed_exit_Some. cbn [snd].
  assert (Hdt : (0 <= perf env (reads w1) - perf env (reads w))%Z).
  { pose proof (Hmono (reads w) (reads w1) ltac:(lia)). lia. }
  split.
  - split; cbn [reads heap log console].
    + lia.
    + exact I.
    + exists es. split; [assumption | apply Forall_forall; intros; exact I].
    + exists (ls ++ [SpanLine label (perf env (reads w1) - perf env (reads w))]).
      split; [now rewrite Hls, app_assoc|].
      apply Forall_app. split; [assumption|]. repeat constructor. exact Hdt.
  - intros Hpos. unfold nonneg_entries, deref in *. cbn [heap].
    rewrite lookup_insert_eq. cbn [default]. rewrite <- Hh.
    apply setitem_nonneg; [assumption|].
    pose proof (get_nonneg label _ Hpos). lia.
Qed.

Lemma calm_admitted e :
  match e with Execute _ _ _ | CursorClose _ => False | _ => True end -> any_event e.
Proof. intros _. exact I. Qed.

Lemma calm_streamed rows dt arraysize :
  (0 < dt)%Z -> nonneg_line (StreamedLine rows dt arraysize).
Proof. simpl. lia. Qed.

Lemma ticks_save_csv env l cxn sql params final_unc_path arraysize :
  monotone (perf env) ->
  preserves (ticks l)
    (save_csv_via_staging_streaming env cxn sql params final_unc_path arraysize (Some l)).
Proof.
  intros Hmono. unfold save_csv_via_staging_streaming.
  frame_step.
  { apply preserves_calm_ticks.
    apply advances_mkdir_parents; [typeclasses eauto | exact calm_admitted]. }
  frame_step; [frame_step|].
  frame_step.
  { apply ticks_timed; [assumption|].
    apply advances_read_stream;
      [typeclasses eauto | exact calm_admitted | exact calm_streamed
       | intros; exact I | exact I]. }
  frame_step.
  { apply ticks_timed; [assumption|].
    apply advances_copyfile; [typeclasses eauto | exact calm_admitted]. }
  frame_step.
  { apply ticks_timed; [assumption|].
    apply advances_os_replace; [typeclasses eauto | exact calm_admitted]. }
  frame_step; [|frame_step].
  frame_step. apply preserves_calm_ticks.
  apply advances_unlink; [typeclasses eauto | exact calm_admitted].
Qed.

Lemma ticks_connect env l database :
  monotone (perf env) ->
  preserves (ticks l) (timed env "CONNECT" (Some l) (pyodbc_connect env database)).
Proof.
  intros Hmono. apply ticks_timed; [assumption|].
  apply advances_connect; [typeclasses eauto | exact calm_admitted].
Qed.

(** The start of a job: what the dictionary holds when the connection is
    about to be made. *)
Lemma job_start_timing env (w : world) :
  exists l w1,
    job_start env w = (Ok (perf env (reads w), l), w1) /\
    conns w1 = conns w /\ reads w1 = 4 + reads w /\
    console w1 = console w ++
      [SpanLine "PREP" (perf env (3 + reads w) - perf env (2 + reads w))] /\
    deref l w1 =
      [("IMPORTS", perf env (1 + reads w) - perf env (reads w));
       ("PREP", 0 + (perf env (3 + reads w) - perf env (2 + reads w)))]%Z.
Proof.
  unfold job_start.
  unfold bind at 1, perf_counter at 1. cbn beta iota.
  unfold bind at 1, new_dict. unfold bind at 1, get_world. cbn beta iota.
  unfold bind at 1, update_heap. cbn beta iota. unfold ret at 1. cbn beta iota.
  unfold bind at 1, perf_counter at 1.
  cbn [reads fs dirs past log heap conns console]. cbn beta iota.
  unfold bind at 1, bucket_setitem, update_heap.
  cbn [reads fs dirs past log heap conns console]. cbn beta iota.
  unfold bind at 1. rewrite timed_Some. cbn [fst snd].
  rewrite timed_exit_Some. unfold ret, perf_counter.
  cbn [fst snd reads fs dirs past log heap conns console].
  eexists. eexists. split; [reflexivity|].
  cbn [fst snd reads fs dirs past log heap conns console].
  split; [reflexivity|]. split; [reflexivity|]. split; [reflexivity|].
  unfold deref. cbn [heap]. rewrite !lookup_insert_eq. reflexivity.
Qed.

Lemma durations_of_job env server database username password packet_size arraysize
    final_unc_path sql params done_message w :
  monotone (perf env) ->
  exists ls,
    console (snd (run_sales_export env server database username password packet_size
                    arraysize final_unc_path sql params done_message w))
    = console w ++ ls /\ Forall nonneg_line ls.
Proof.
  intros Hmono.
  destruct (run_sales_export env server database username password packet_size arraysize
              final_unc_path sql params done_message w) as [r w'] eqn:Hrun; cbn [snd].
  revert Hrun. rewrite run_phases.
  destruct (job_start_timing env w) as (l & w1 & Hstart & Hc1 & Hr1 & Hcon1 & Hd1).
  unfold bind at 1. rewrite Hstart. cbn [fst snd].
  set (T0 := perf env (reads w)).
  assert (Hprep : (0 <= perf env (3 + reads w) - perf env (2 + reads w))%Z).
  { pose proof (Hmono (2 + reads w) (3 + reads w) ltac:(lia)). lia. }
  assert (Hacc1 : nonneg_entries l w1).
  { unfold nonneg_entries. rewrite Hd1.
    pose proof (Hmono (reads w) (1 + reads w) ltac:(lia)).
    repeat (apply Forall_cons_2; [cbn [snd]; lia|]). apply Forall_nil_2. }
  unfold bind at 1.
  pose proof (connect_spec env database l w1) as Hcon.
  pose proof (ticks_connect env l database Hmono w1) as Ht2.
  destruct (timed env "CONNECT" (Some l) (pyodbc_connect env database) w1)
    as [[cxn|e] w2]; cbn [snd] in Ht2.
  2:{ intros Hrun. injection Hrun as <- <-.
      destruct Ht2 as [[_ _ _ (ls & Hls & Hnn)] _].
      exists ([SpanLine "PREP" (perf env (3 + reads w) - perf env (2 + reads w))] ++ ls).
      split; [now rewrite Hls, Hcon1, app_assoc|].
      apply Forall_app. split; [|assumption].
      apply Forall_cons_2; [exact Hprep | apply Forall_nil_2]. }
  destruct Hcon as (Hok & -> & Hc2).
  unfold bind at 1.
  pose proof (save_csv_conns env (length (conns w1)) sql params final_unc_path arraysize
                (Some l) w2) as Hc3.
  pose proof (ticks_save_csv env l (length (conns w1)) sql params final_unc_path
                arraysize Hmono w2) as Ht3.
  destruct (save_csv_via_staging_streaming env (length (conns w1)) sql params
              final_unc_path arraysize (Some l) w2) as [[rows|e] w3]; cbn [fst snd] in *.
  all: pose proof (transitivity Ht2 Ht3) as [[Hr3 _ _ (ls & Hls & Hnn)] Hacc3].
  2:{ intros Hrun. injection Hrun as <- <-.
      exists ([SpanLine "PREP" (perf env (3 + reads w) - perf env (2 + reads w))] ++ ls).
      split; [now rewrite Hls, Hcon1, app_assoc|].
      apply Forall_app. split; [|assumption].
      apply Forall_cons_2; [exact Hprep | apply Forall_nil_2]. }
  assert (Hopen : is_open (length (conns w1)) w3 = true).
  { unfold is_open. rewrite Hc3, Hc2, list_lookup_middle by reflexivity. reflexivity. }
  destruct (job_report_spec env T0 l (length (conns w1)) rows done_message w3 Hopen)
    as (w4 & Hrep & _ & Hcon4 & _).
  cbv zeta in Hrep. rewrite Hrep. intros Hrun. injection Hrun as <- <-.
  pose proof (Hacc3 Hacc1) as Hpos3. unfold nonneg_entries in Hpos3.
  eexists. split.
  { rewrite Hcon4, Hls, Hcon1, <- !app_assoc. reflexivity. }
  apply Forall_app. split; [apply Forall_cons_2; [exact Hprep | apply Forall_nil_2]|].
  apply Forall_app. split; [assumption|].
  pose proof (Hmono (reads w) (S (reads w3)) ltac:(lia)).
  pose proof (Hmono (reads w3) (S (S (reads w3))) ltac:(lia)).
  subst T0.
  repeat (apply Forall_cons_2; [cbn [nonneg_line]; first [assumption | exact I | lia]|]). apply Forall_nil_2.
Qed.

(** X13: with a clock that never runs backwards a job prints no negative
    span, total or entry of the breakdown, whether it succeeds or fails,
    and prints the rate of streaming over a positive duration only.  Each
    of these is a difference of two readings taken in that order, or a
    sum of such differences, so its sign does not depend on rounding.
    Nothing is said of the unaccounted time: with the floating-point
    numbers of the source it can come out a rounding error below zero. *)
Theorem spans_and_total_never_negative env server database username password packet_size
    arraysize final_unc_path sql params done_message w :
  monotone (perf env) ->
  Forall nonneg_line
    (fresh_console w
       (snd (run_sales_export env server database username password packet_size arraysize
               final_unc_path sql params done_message w))).
Proof.
  intros Hmono.
  destruct (durations_of_job env server database username password packet_size arraysize
              final_unc_path sql params done_message w Hmono) as (ls & Hls & Hnn).
  now rewrite (fresh_console_app _ _ _ Hls).
Qed.

Lemma spans_and_total_never_negative_witness :
  Forall nonneg_line
    (fresh_console empty_world
       (snd (run_sales_export Scenario.env "server" "PDICompany_2875_10" "user" "password"
               "32767" 100000 Scenario.destination "SELECT" [] "done" empty_world))).
Proof.
  apply (spans_and_total_never_negative Scenario.env "server" "PDICompany_2875_10" "user"
           "password" "32767" 100000 Scenario.destination "SELECT" [] "done" empty_world).
  intros i j Hij. simpl. unfold Scenario.ticking. lia.
Defined.

(** ** The script as a whole *)

Lemma markers_admitted e :
  match e with Execute _ _ _ | CursorClose _ => False | _ => True end -> markers_match e.
Proof. destruct e; intros H; try exact I; destruct H. Qed.

Example script_executes_job1 :
  let run := Program.script Dates.ini Scenario.env Scenario.env_job1 Scenario.env_job2
               Scenario.env_job3 100000 "32767" empty_world in
  fst run = Ok (inr 45%Z) /\
  log (snd run) !! 3 = Some (Execute 0 Program.sql_job1 [VDate 2023 12 18; VDate 2023 12 24]).
Proof. vm_compute. split; reflexivity. Qed.

(** X14: whatever the surroundings, every statement the script executes
    has as many question marks as it is given parameters: the statements
    of the three jobs hold two and run with the two dates. *)
Theorem script_markers_match_parameters src env0 env1 env2 env3 ARRAY_SIZE PACKET_SIZE w :
  Forall markers_match
    (fresh_log w (snd (Program.script src env0 env1 env2 env3 ARRAY_SIZE PACKET_SIZE w))).
Proof.
  destruct (loose_script markers_match markers_admitted src env0 env1 env2 env3 ARRAY_SIZE
              PACKET_SIZE) with (w := w) as [_ _ (es & Hes & Hall) _].
  - intros c s e. unfold markers_match, Program.sql_job1.
    rewrite count_build_sales_query. reflexivity.
  - intros c s e. unfold markers_match, Program.sql_job2.
    rewrite count_build_sales_query. reflexivity.
  - intros c s e. unfold markers_match, Program.sql_job3.
    rewrite count_build_sales_query. reflexivity.
  - intros c. exact I.
  - now rewrite (fresh_log_app _ _ _ Hes).
Qed.

(** The connection handles after one job. *)
Lemma run_sales_export_conns env server database username password packet_size arraysize
    final_unc_path sql params done_message w :
  match run_sales_export env server database username password packet_size arraysize
          final_unc_path sql params done_message w with
  | (Ok _, w') => conns w' = conns w ++ [false]
  | (Raise _, w') => conns w' = conns w ++ [true] \/ conns w' = conns w
  end.
Proof.
  destruct (run_sales_export env server database username password packet_size arraysize
              final_unc_path sql params done_message w) as [r w'] eqn:Hrun.
  revert Hrun. rewrite run_phases.
  destruct (job_start_spec env w) as (l & w1 & Hstart & Hc1 & _).
  unfold bind at 1. rewrite Hstart. cbn [fst snd].
  unfold bind at 1.
  pose proof (connect_spec env database l w1) as Hcon.
  destruct (timed env "CONNECT" (Some l) (pyodbc_connect env database) w1)
    as [[cxn|e] w2].
  2:{ intros Hrun. injection Hrun as <- <-. destruct Hcon as [_ Hc2]. right. congruence. }
  destruct Hcon as (Hok & -> & Hc2).
  unfold bind at 1.
  pose proof (save_csv_conns env (length (conns w1)) sql params final_unc_path arraysize
                (Some l) w2) as Hc3.
  destruct (save_csv_via_staging_streaming env (length (conns w1)) sql params
              final_unc_path arraysize (Some l) w2) as [[rows|e] w3]; cbn [fst snd] in *.
  2:{ intros Hrun. injection Hrun as <- <-. left. congruence. }
  assert (Hopen : is_open (length (conns w1)) w3 = true).
  { unfold is_open. rewrite Hc3, Hc2, list_lookup_middle by reflexivity. reflexivity. }
  destruct (job_report_spec env (perf env (reads w)) l (length (conns w1)) rows
              done_message w3 Hopen) as (w4 & Hrep & Hc4 & _).
  cbv zeta in Hrep. rewrite Hrep. intros Hrun. injection Hrun as <- <-.
  rewrite Hc4, Hc3, Hc2, <- Hc1.
  rewrite insert_app_r_alt by lia. now rewrite Nat.sub_diag.
Qed.

(** X15: when the three jobs succeed the script has opened three
    connections and closed each; when a job fails the later jobs are not
    started, the connections of the jobs before it are closed and at most
    one connection, that of the failed job, is left open. *)
Theorem script_connections env1 env2 env3 ARRAY_SIZE PACKET_SIZE start_date end_date
    sql_job1 sql_job2 sql_job3 w :
  let run := Script.main env1 env2 env3 ARRAY_SIZE PACKET_SIZE start_date end_date
               sql_job1 sql_job2 sql_job3 w in
  match fst run with
  | Ok _ => conns (snd run) = conns w ++ [false; false; false]
  | Raise _ =>
      exists done, done < 3 /\
        (conns (snd run) = conns w ++ repeat false done ++ [true] \/
         conns (snd run) = conns w ++ repeat false done)
  end.
Proof.
  intros run. subst run.
  destruct (Script.main env1 env2 env3 ARRAY_SIZE PACKET_SIZE start_date end_date
              sql_job1 sql_job2 sql_job3 w) as [r w'] eqn:Hrun; cbn [fst snd].
  revert Hrun. unfold Script.main.
  unfold bind at 1.
  match goal with
  | |- context [run_sales_export env1 ?s ?d ?u ?p ?k ?a ?f ?q ?ps ?m w] =>
      pose proof (run_sales_export_conns env1 s d u p k a f q ps m w) as H1;
      destruct (run_sales_export env1 s d u p k a f q ps m w) as [[t1|e] w1]
  end.
  2:{ intros Hrun. injection Hrun as <- <-.
      exists 0. split; [lia|]. cbn [repeat app]. rewrite app_nil_r. exact H1. }
  unfold bind at 1.
  match goal with
  | |- context [run_sales_export env2 ?s ?d ?u ?p ?k ?a ?f ?q ?ps ?m w1] =>
      pose proof (run_sales_export_conns env2 s d u p k a f q ps m w1) as H2;
      destruct (run_sales_export env2 s d u p k a f q ps m w1) as [[t2|e] w2]
  end.
  2:{ intros Hrun. injection Hrun as <- <-.
      exists 1. split; [lia|]. rewrite H1, <- !app_assoc in H2. exact H2. }
  unfold bind at 1.
  match goal with
  | |- context [run_sales_export env3 ?s ?d ?u ?p ?k ?a ?f ?q ?ps ?m w2] =>
      pose proof (run_sales_export_conns env3 s d u p k a f q ps m w2) as H3;
      destruct (run_sales_export env3 s d u p k a f q ps m w2) as [[t3|e] w3]
  end.
  2:{ intros Hrun. injection Hrun as <- <-.
      exists 2. split; [lia|]. rewrite H2, H1, <- !app_assoc in H3. exact H3. }
  unfold bind, print, ret. intros Hrun. injection Hrun as <- <-. cbn [conns].
  rewrite H3, H2, H1, <- !app_assoc. reflexivity.
Qed.

(** X16: when [get_dates] does not return the dates the script ends there:
    no job is started, nothing is asked of the database or of the file
    system. *)
Theorem script_stops_without_dates src env0 env1 env2 env3 ARRAY_SIZE PACKET_SIZE w :
  (forall dates, fst (get_dates env0 src w) <> Ok (inr dates)) ->
  let run := Program.script src env0 env1 env2 env3 ARRAY_SIZE PACKET_SIZE w in
  (forall total, fst run <> Ok (inr total)) /\
  fresh_log w (snd run) = [] /\ fs (snd run) = fs w /\ conns (snd run) = conns w.
Proof.
  intros Hno run. subst run.
  destruct (Program.script src env0 env1 env2 env3 ARRAY_SIZE PACKET_SIZE w)
    as [r w'] eqn:Hrun; cbn [fst snd].
  revert Hrun. unfold Program.script. unfold bind at 1.
  pose proof (get_dates_world env0 src w) as (_ & Hfs & Hlog & Hconns).
  destruct (get_dates env0 src w) as [[[e|dates]|e] w1]; cbn [fst snd] in *.
  - unfold ret. intros Hrun. injection Hrun as <- <-. split; [discriminate|].
    rewrite (fresh_log_app w w1 []) by (now rewrite app_nil_r). auto.
  - now destruct (Hno dates).
  - intros Hrun. injection Hrun as <- <-. split; [discriminate|].
    rewrite (fresh_log_app w w1 []) by (now rewrite app_nil_r). auto.
Qed.

Lemma script_stops_without_dates_witness :
  let run := Program.script Dates.ini_without_section Scenario.env Scenario.env_job1
               Scenario.env_job2 Scenario.env_job3 100000 "32767" empty_world in
  (forall total, fst run <> Ok (inr total)) /\
  fresh_log empty_world (snd run) = [] /\ fs (snd run) = fs empty_world /\
  conns (snd run) = conns empty_world.
Proof.
  apply (script_stops_without_dates Dates.ini_without_section Scenario.env
           Scenario.env_job1 Scenario.env_job2 Scenario.env_job3 100000 "32767" empty_world).
  intros dates. vm_compute. discriminate.
Defined.

(** ** The cursor and the staging file *)

Lemma not_cursor_close_admitted e :
  match e with Execute _ _ _ | CursorClose _ => False | _ => True end ->
  ~ is_cursor_close e.
Proof. destruct e; intros H; try (intros []); destruct H. Qed.

Lemma stream_query_phases env cxn sql params local_csv_path arraysize
    (include_header : bool) w :
  stream_query_to_local_csv env cxn sql params local_csv_path arraysize include_header w =
  (row_count <-
     (cur <- cxn_cursor cxn ;;
      cur <- execute env (set_arraysize cur arraysize) sql params ;;
      cols <- lift (match description cur with
                    | Some names => Ok names
                    | None => Raise TypeError
                    end) ;;
      with_open_w env local_csv_path (fun f =>
        (if include_header then writerow env f (Csv.header_record cols) else ret tt) ;;;
        stream_loop env f cur 0)) ;;
   emit (CursorClose cxn) ;;;
   ret row_count) w.
Proof.
  unfold stream_query_to_local_csv.
  do 3 (rewrite bind_assoc; apply bind_ext; intros ? ?).
  reflexivity.
Qed.

(** An opened file is closed when its block is left, however it is left. *)
Lemma with_open_w_log {A} env p (body : path -> M A) (w : world) :
  open_ok env = true ->
  (forall w0, exists es, log (snd (body p w0)) = log w0 ++ es) ->
  exists es, log (snd (with_open_w env p body w)) = log w ++ OpenW p :: es ++ [Close p].
Proof.
  intros Hopen Hbody.
  unfold with_open_w, open_w, bind, emit, update_fs, try_finally. rewrite Hopen.
  cbn beta iota.
  match goal with
  | |- context [body p ?w0] =>
      destruct (Hbody w0) as (es & Hes); destruct (body p w0) as [r w1]
  end.
  cbn [snd log] in *. exists es. rewrite Hes, <- !app_assoc. reflexivity.
Qed.

Lemma stream_body_log env (f : path) cols (include_header : bool) cur (w0 : world) :
  exists es,
    log (snd (((if include_header then writerow env f (Csv.header_record cols) else ret tt) ;;;
               stream_loop env f cur 0) w0)) = log w0 ++ es.
Proof.
  assert (H : preserves (advances any_heap any_event any_line)
                ((if include_header then writerow env f (Csv.header_record cols) else ret tt) ;;;
                 stream_loop env f cur 0)).
  { frame_step.
    - unfold writerow. destruct include_header.
      + apply advances_write; [typeclasses eauto | intros; exact I].
      + frame_step.
    - apply advances_stream_loop; [typeclasses eauto | intros; exact I]. }
  destruct (H w0) as [_ _ (es & Hes & _) _]. eauto.
Qed.

(** X17: [stream_query_to_local_csv] closes its cursor as its last step
    when it succeeds and never when it fails; the file it writes to is
    closed whenever it was opened, on failure too. *)
Theorem cursor_closed_on_success_only env cxn sql params local_csv_path arraysize
    (include_header : bool) w :
  let run := stream_query_to_local_csv env cxn sql params local_csv_path arraysize
               include_header w in
  let fresh := fresh_log w (snd run) in
  match fst run with
  | Ok _ => exists es, fresh = es ++ [CursorClose cxn] /\
                       Forall (fun e => ~ is_cursor_close e) es
  | Raise _ => Forall (fun e => ~ is_cursor_close e) fresh
  end /\
  (open_ok env = true -> In (OpenW local_csv_path) fresh -> In (Close local_csv_path) fresh).
Proof.
  intros run fresh. subst run fresh.
  destruct (stream_query_to_local_csv env cxn sql params local_csv_path arraysize
              include_header w) as [r w'] eqn:Hrun; cbn [fst snd].
  revert Hrun. rewrite stream_query_phases. unfold bind at 1.
  pose proof (advances_stream_opened any_heap (fun e => ~ is_cursor_close e) any_line
                not_cursor_close_admitted env cxn sql params local_csv_path arraysize
                include_header ltac:(intros c []) w) as [_ _ (es & Hes & Hnone) _].
  assert (Hfile : open_ok env = true -> In (OpenW local_csv_path) es ->
                  In (Close local_csv_path) es).
  { intros Hopen. revert Hes.
    unfold bind at 1, cxn_cursor at 1. unfold bind at 1, emit at 1. cbn beta iota.
    unfold bind at 1, get_world at 1. cbn beta iota.
    match goal with |- context [is_open cxn ?w0] => destruct (is_open cxn w0) end.
    2:{ unfold raise. cbn [snd log]. intros Hes Hin.
        apply app_inv_head in Hes. subst es.
        destruct Hin as [[=]|[]]. }
    unfold ret at 1. cbn beta iota.
    unfold bind at 1, execute at 1. unfold bind at 1, emit at 1. cbn beta iota.
    destruct (execute_ok env).
    2:{ unfold raise. cbn [snd log]. intros Hes Hin.
        rewrite <- app_assoc in Hes. apply app_inv_head in Hes. subst es.
        destruct Hin as [[=]|[[=]|[]]]. }
    unfold ret at 1. cbn beta iota.
    unfold bind at 1, lift at 1. cbn [description].
    destruct (columns env) as [cols|].
    2:{ cbn [snd log]. intros Hes Hin.
        rewrite <- app_assoc in Hes. apply app_inv_head in Hes. subst es.
        destruct Hin as [[=]|[[=]|[]]]. }
    match goal with
    | |- context [with_open_w env local_csv_path ?body ?w0] =>
        destruct (with_open_w_log env local_csv_path body w0 Hopen) as (es' & Hes');
        [intros w1; apply stream_body_log|]
    end.
    rewrite Hes'. cbn [log]. intros Hes _.
    rewrite <- !app_assoc in Hes. apply app_inv_head in Hes. subst es.
    apply in_or_app. right. right. right. apply in_or_app. right. left. reflexivity. }
  match goal with
  | |- context [match ?m w with _ => _ end] => destruct (m w) as [[n|e] w1]
  end; cbn [snd] in Hes.
  - unfold bind, emit, ret. intros Hrun. injection Hrun as <- <-.
    rewrite (fresh_log_app w _ (es ++ [CursorClose cxn]))
      by (cbn [log]; now rewrite Hes, app_assoc).
    split; [eauto|]. intros Hopen Hin. apply in_or_app. left.
    apply Hfile; [assumption|].
    apply in_app_or in Hin as [Hin|[[=]|[]]]. exact Hin.
  - intros Hrun. injection Hrun as <- <-.
    rewrite (fresh_log_app w _ es Hes). split; [assumption|]. exact Hfile.
Qed.

(** ** The dates returned *)

Lemma strptime_valid s v :
  Strptime.strptime s = Ok v ->
  exists y m d, v = VDate y m d /\ Strptime.valid_date y m d = true.
Proof.
  unfold Strptime.strptime.
  destruct (Strptime.found s) as [[[[y m] d] rest]|]; [|discriminate].
  destruct (Text.is_empty rest); [|discriminate].
  destruct (Strptime.valid_date y m d) eqn:Hvalid; [|discriminate].
  intros [= <-]. eauto.
Qed.

(** X7: the two dates [get_dates] returns are days of the calendar. *)
Theorem get_dates_returns_calendar_dates env src (w : world) d1 d2 :
  fst (get_dates env src w) = Ok (inr (d1, d2)) ->
  (exists y m d, d1 = VDate y m d /\ Strptime.valid_date y m d = true) /\
  (exists y m d, d2 = VDate y m d /\ Strptime.valid_date y m d = true).
Proof.
  destruct (get_dates_run env src w) as (w1 & _ & _ & _ & _ & _ & _ & _ & ->).
  assert (Hpair : forall s1 s2,
    fst ((x <- lift (Strptime.strptime s1) ;;
          y <- lift (Strptime.strptime s2) ;;
          ret (inr (x, y)) : M (config_error + value * value)) w1) = Ok (inr (d1, d2)) ->
    (exists y m d, d1 = VDate y m d /\ Strptime.valid_date y m d = true) /\
    (exists y m d, d2 = VDate y m d /\ Strptime.valid_date y m d = true)).
  { intros s1 s2. rewrite parse_pair_run. cbn [fst].
    destruct (Strptime.strptime s1) as [v1|] eqn:H1; [|discriminate].
    destruct (Strptime.strptime s2) as [v2|] eqn:H2; [|discriminate].
    intros [= <- <-]. split; eapply strptime_valid; eassumption. }
  destruct (ini_exists src).
  - destruct (read_date_vars_ini src) as [e|[s1 s2]]; [discriminate | apply Hpair].
  - destruct (read_date_vars_xlsm src) as [e|[s1 s2]]; [discriminate | apply Hpair].
Qed.

Lemma get_dates_returns_calendar_dates_witness :
  (exists y m d, VDate 2023 12 18 = VDate y m d /\ Strptime.valid_date y m d = true) /\
  (exists y m d, VDate 2023 12 24 = VDate y m d /\ Strptime.valid_date y m d = true).
Proof.
  apply (get_dates_returns_calendar_dates Scenario.env Dates.ini empty_world).
  vm_compute. reflexivity.
Defined.

(** ** Records counted and records written *)

(** X18: when [stream_query_to_local_csv] returns, the file holds as many
    records as the count returned, and one more when a header was asked
    for, whatever the batch size; values with commas, quotes or line
    feeds do not change the number. *)
Theorem streamed_count_matches_file env cxn sql params p arraysize (include_header : bool)
    (w : world) n :
  let run := stream_query_to_local_csv env cxn sql params p arraysize include_header w in
  fst run = Ok n ->
  exists text, fs (snd run) !! p = Some text /\
               count_records text = (if include_header then 1 else 0) + n.
Proof.
  intros run Hok. subst run.
  pose proof (stream_query_spec env cxn sql params p arraysize include_header w) as Hs.
  destruct (stream_query_to_local_csv env cxn sql params p arraysize include_header w)
    as [[n'|e] w']; cbn [fst snd] in *; [|discriminate].
  injection Hok as ->. destruct Hs as (cols & _ & -> & Hfs).
  eexists. split; [rewrite Hfs; apply lookup_insert_eq|].
  rewrite count_records_csv_text, length_app. now destruct include_header.
Qed.

Lemma streamed_count_matches_file_witness :
  let run := stream_query_to_local_csv Scenario.env 0 "SELECT" [] Scenario.local_tmp 1 false
               connected_world in
  exists text, fs (snd run) !! Scenario.local_tmp = Some text /\
               count_records text = 0 + 2.
Proof.
  apply (streamed_count_matches_file Scenario.env 0 "SELECT" [] Scenario.local_tmp 1 false
           connected_world 2).
  vm_compute. reflexivity.
Defined.

(** ** The labels of the breakdown *)

Lemma keys_setitem k v (d : dict) :
  Dict.keys (Dict.setitem k v d) = push_label k (Dict.keys d).
Proof.
  unfold push_label. induction d as [|[k' v'] d IH]; [reflexivity|].
  simpl. destruct (String.eqb k' k) eqn:Hk.
  - apply String.eqb_eq in Hk. subst. simpl.
    rewrite bool_decide_eq_true_2 by (left). reflexivity.
  - apply String.eqb_neq in Hk. simpl. rewrite IH.
    case_bool_decide as Hin.
    + rewrite bool_decide_eq_true_2 by (now right). reflexivity.
    + rewrite bool_decide_eq_false_2; [reflexivity|].
      intros H. apply elem_of_cons in H as [->|H]; congruence.
Qed.

Lemma timed_keys {A} env label l (body : M A) (w : world) :
  preserves calm body ->
  Dict.keys (deref l (snd (timed env label (Some l) body w))) =
  push_label label (Dict.keys (deref l w)).
Proof.
  intros Hb. rewrite timed_Some. cbn [snd]. rewrite deref_timed_exit, keys_setitem.
  destruct (Hb (snd (perf_counter env w))) as [_ Hh _ _].
  unfold deref. rewrite <- Hh. reflexivity.
Qed.

Lemma calm_deref {A} (m : M A) l (w : world) :
  preserves calm m -> deref l (snd (m w)) = deref l w.
Proof. intros Hm. destruct (Hm w) as [_ Hh _ _]. unfold deref. now rewrite <- Hh. Qed.

Lemma save_csv_keys env cxn sql params final_unc_path arraysize l (w : world) n w' :
  save_csv_via_staging_streaming env cxn sql params final_unc_path arraysize (Some l) w
    = (Ok n, w') ->
  Dict.keys (deref l w') =
  push_label "RENAME_ON_UNC"
    (push_label "COPY_TO_UNC"
       (push_label "READ_STREAM_TO_LOCAL_CSV" (Dict.keys (deref l w)))).
Proof.
  unfold save_csv_via_staging_streaming.
  unfold bind at 1.
  pose proof (calm_deref (mkdir_parents env (parent (final_unc_of env final_unc_path))) l w
                ltac:(apply advances_mkdir_parents; [typeclasses eauto | exact calm_admitted]))
    as H0.
  destruct (mkdir_parents env (parent (final_unc_of env final_unc_path)) w) as [[[]|e] w0];
    [|discriminate]. cbn [snd] in H0.
  unfold bind at 1, lift.
  destruct (unc_tmp_of env final_unc_path) as [u|e]; [|discriminate].
  unfold bind at 1.
  match goal with
  | |- context [timed env ?lbl (Some l) ?body w0] =>
      pose proof (timed_keys env lbl l body w0
                    ltac:(apply advances_read_stream;
                          [typeclasses eauto | exact calm_admitted | exact calm_streamed
                           | intros; exact I | exact I])) as H1;
      destruct (timed env lbl (Some l) body w0) as [[rows|e] w1]; [|discriminate]
  end. cbn [snd] in H1.
  unfold bind at 1.
  match goal with
  | |- context [timed env ?lbl (Some l) ?body w1] =>
      pose proof (timed_keys env lbl l body w1
                    ltac:(apply advances_copyfile;
                          [typeclasses eauto | exact calm_admitted])) as H2;
      destruct (timed env lbl (Some l) body w1) as [[[]|e] w2]; [|discriminate]
  end. cbn [snd] in H2.
  unfold bind at 1.
  match goal with
  | |- context [timed env ?lbl (Some l) ?body w2] =>
      pose proof (timed_keys env lbl l body w2
                    ltac:(apply advances_os_replace;
                          [typeclasses eauto | exact calm_admitted])) as H3;
      destruct (timed env lbl (Some l) body w2) as [[[]|e] w3]; [|discriminate]
  end. cbn [snd] in H3.
  unfold bind at 1.
  match goal with
  | |- context [try_except_pass ?body w3] =>
      pose proof (calm_deref (try_except_pass body) l w3
                    ltac:(apply frame_try_except_pass; try typeclasses eauto;
                          apply advances_unlink;
                          [typeclasses eauto | exact calm_admitted])) as H4;
      destruct (try_except_pass body w3) as [[[]|e] w4]; [|discriminate]
  end. cbn [snd] in H4.
  unfold ret. intros [= <- <-]. rewrite H4, H3, H2, H1, H0. reflexivity.
Qed.

(** X19: the breakdown a job prints lists six spans in the order they
    were first recorded; [CLEANUP], whose block prints the breakdown, is
    not among them. *)
Theorem breakdown_lists_six_spans env server database username password packet_size
    arraysize final_unc_path sql params done_message w total :
  let run := run_sales_export env server database username password packet_size arraysize
               final_unc_path sql params done_message w in
  fst run = Ok total ->
  exists spans,
    In (BreakdownLine spans) (fresh_console w (snd run)) /\
    Dict.keys spans = ["IMPORTS"; "PREP"; "CONNECT"; "READ_STREAM_TO_LOCAL_CSV";
                       "COPY_TO_UNC"; "RENAME_ON_UNC"].
Proof.
  intros run. subst run.
  destruct (run_sales_export env server database username password packet_size arraysize
              final_unc_path sql params done_message w) as [r w'] eqn:Hrun; cbn [fst snd].
  revert Hrun. rewrite run_phases.
  destruct (job_start_timing env w) as (l & w1 & Hstart & Hc1 & Hr1 & Hcon1 & Hd1).
  unfold bind at 1. rewrite Hstart. cbn [fst snd].
  unfold bind at 1.
  pose proof (connect_spec env database l w1) as Hcon.
  pose proof (timed_keys env "CONNECT" l (pyodbc_connect env database) w1
                ltac:(apply advances_connect; [typeclasses eauto | exact calm_admitted]))
    as Hk2.
  assert (Hcons2 : exists ls, console (snd (timed env "CONNECT" (Some l)
                                              (pyodbc_connect env database) w1))
                              = console w1 ++ ls).
  { destruct (loose_timed any_event env "CONNECT" (Some l)
                (pyodbc_connect env database)
                ltac:(apply advances_connect; [typeclasses eauto | exact calm_admitted]) w1)
      as [_ _ _ (ls & Hls & _)]. eauto. }
  destruct (timed env "CONNECT" (Some l) (pyodbc_connect env database) w1)
    as [[cxn|e] w2]; cbn [snd] in *.
  2:{ intros [= <- _]. discriminate. }
  destruct Hcon as (Hok & -> & Hc2). destruct Hcons2 as (ls2 & Hls2).
  unfold bind at 1.
  pose proof (save_csv_conns env (length (conns w1)) sql params final_unc_path arraysize
                (Some l) w2) as Hc3.
  assert (Hcons3 : exists ls, console (snd (save_csv_via_staging_streaming env
                     (length (conns w1)) sql params final_unc_path arraysize (Some l) w2))
                              = console w2 ++ ls).
  { destruct (loose_save_csv any_event calm_admitted env (length (conns w1)) sql params
                final_unc_path arraysize (Some l) ltac:(intros; exact I) I w2)
      as [_ _ _ (ls & Hls & _)]. eauto. }
  destruct (save_csv_via_staging_streaming env (length (conns w1)) sql params
              final_unc_path arraysize (Some l) w2) as [[rows|e] w3] eqn:Hsave;
    cbn [fst snd] in *.
  2:{ intros [= <- _]. discriminate. }
  destruct Hcons3 as (ls3 & Hls3).
  apply save_csv_keys in Hsave.
  assert (Hopen : is_open (length (conns w1)) w3 = true).
  { unfold is_open. rewrite Hc3, Hc2, list_lookup_middle by reflexivity. reflexivity. }
  destruct (job_report_spec env (perf env (reads w)) l (length (conns w1)) rows
              done_message w3 Hopen) as (w4 & Hrep & _ & Hcon4 & _).
  cbv zeta in Hrep. rewrite Hrep. intros [= <- <-] _.
  exists (deref l w3). split.
  - rewrite (fresh_console_app w w4 _
               ltac:(rewrite Hcon4, Hls3, Hls2, Hcon1, <- !app_assoc; reflexivity)).
    apply in_or_app. right. apply in_or_app. right. apply in_or_app. right.
    right. left. reflexivity.
  - rewrite Hsave, Hk2, Hd1. reflexivity.
Qed.

Lemma breakdown_lists_six_spans_witness :
  let run := run_sales_export Scenario.env "server" "PDICompany_2875_10" "user" "password"
               "32767" 100000 Scenario.destination "SELECT" [] "done" empty_world in
  exists spans,
    In (BreakdownLine spans) (fresh_console empty_world (snd run)) /\
    Dict.keys spans = ["IMPORTS"; "PREP"; "CONNECT"; "READ_STREAM_TO_LOCAL_CSV";
                       "COPY_TO_UNC"; "RENAME_ON_UNC"].
Proof.
  apply (breakdown_lists_six_spans Scenario.env "server" "PDICompany_2875_10" "user"
           "password" "32767" 100000 Scenario.destination "SELECT" [] "done" empty_world 15).
  vm_compute. reflexivity.
Defined.

(** ** Delimiters of a record *)

Lemma delimiters_plain b s t :
  Csv.needs_quotes s = false ->
  count_delimiters_from b (s +:+ t) = count_delimiters_from b t.
Proof.
  induction s as [|a s IH]; [reflexivity|]. simpl. intros H.
  apply orb_false_elim in H as [Ha Hs]. unfold Csv.special in Ha.
  apply orb_false_elim in Ha as [Ha Hlf]. apply orb_false_elim in Ha as [Hc Hq].
  rewrite Hq, Hc. simpl. now apply IH.
Qed.

Lemma delimiters_quoted_body s t :
  count_delimiters_from true (Csv.double_quotes s +:+ t) = count_delimiters_from true t.
Proof.
  induction s as [|a s IH]; [reflexivity|]. simpl.
  destruct (Text.char_eqb a Text.DQUOTE) eqn:Hq.
  - simpl. exact IH.
  - simpl. rewrite Hq, andb_false_r. exact IH.
Qed.

Lemma delimiters_quoted s t :
  count_delimiters_from false (Csv.quoted s +:+ t) = count_delimiters_from false t.
Proof.
  unfold Csv.quoted. rewrite append_cons, append_assoc_str. simpl.
  rewrite delimiters_quoted_body. reflexivity.
Qed.

Lemma delimiters_field s t :
  count_delimiters_from false (Csv.encode_field s +:+ t) = count_delimiters_from false t.
Proof.
  unfold Csv.encode_field. destruct (Csv.needs_quotes s) eqn:H.
  - apply delimiters_quoted.
  - now apply delimiters_plain.
Qed.

Lemma delimiters_join (fields : list string) t :
  count_delimiters_from false
    (Text.join (String Text.COMMA EmptyString) (map Csv.encode_field fields) +:+ t)
  = (length fields - 1) + count_delimiters_from false t.
Proof.
  induction fields as [|s fields IH]; [reflexivity|].
  destruct fields as [|s' fields].
  - simpl. apply delimiters_field.
  - change (Text.join _ (map Csv.encode_field (s :: s' :: fields)))
      with (Csv.encode_field s +:+ String Text.COMMA EmptyString
            +:+ Text.join (String Text.COMMA EmptyString)
                  (map Csv.encode_field (s' :: fields))).
    rewrite !append_assoc_str, delimiters_field. rewrite append_cons. simpl.
    rewrite append_empty_l. simpl in IH. rewrite IH. simpl. lia.
Qed.

(** X20: a record of [n] fields is written with [n - 1] delimiters outside
    quotes, whatever the fields hold: a comma, a quote or a line feed in a
    value adds no column. *)
Theorem record_has_one_delimiter_less_than_fields (r : row) :
  count_delimiters (Csv.encode_record r) = length r - 1.
Proof.
  unfold count_delimiters.
  assert (Hgen : count_delimiters_from false
            (Text.join (String Text.COMMA EmptyString)
               (map (fun v => Csv.encode_field (Csv.field_text v)) r)
             +:+ String Text.LF EmptyString) = length r - 1).
  { rewrite <- (map_map Csv.field_text Csv.encode_field).
    rewrite delimiters_join, length_map. simpl. lia. }
  destruct r as [|v [|v' r]]; try exact Hgen.
  unfold Csv.encode_record. destruct (Text.is_empty (Csv.field_text v)); [|exact Hgen].
  rewrite delimiters_quoted. reflexivity.
Qed.

(* ===================================================================== *)
(** * Timing spans and the report of a job *)
(* ===================================================================== *)

(** The start of a job, with the dictionary it makes. *)
Lemma job_start_dict env (w : world) :
  exists w1,
    job_start env w = (Ok (perf env (reads w), fresh (dom (heap w))), w1) /\
    conns w1 = conns w /\ reads w1 = 4 + reads w.
Proof.
  unfold job_start.
  unfold bind at 1, perf_counter at 1. cbn beta iota.
  unfold bind at 1, new_dict. unfold bind at 1, get_world. cbn beta iota.
  unfold bind at 1, update_heap. cbn beta iota. unfold ret at 1. cbn beta iota.
  unfold bind at 1, perf_counter at 1.
  cbn [reads fs dirs past log heap conns console]. cbn beta iota.
  unfold bind at 1, bucket_setitem, update_heap.
  cbn [reads fs dirs past log heap conns console]. cbn beta iota.
  unfold bind at 1. rewrite timed_Some. cbn [fst snd].
  rewrite timed_exit_Some. unfold ret, perf_counter.
  cbn [fst snd reads fs dirs past log heap conns console].
  eexists. split; [reflexivity|].
  cbn [fst snd reads fs dirs past log heap conns console].
  split; reflexivity.
Qed.

(** The [CLEANUP] block reads the clock three times: on entry, for the
    total, and on exit. *)
Lemma job_report_reads env job_T0 l cxn rows_total done_message (w : world) :
  is_open cxn w = true ->
  reads (snd (timed env "CLEANUP" (Some l)
                (job_report env job_T0 l cxn rows_total done_message) w)) = 3 + reads w.
Proof.
  intros Hopen. rewrite timed_Some.
  destruct w as [f d p lg r h c co]. unfold is_open in Hopen. cbn [conns] in Hopen.
  lazy beta iota zeta delta
    [job_report conn_close is_open timed_exit bucket_get bucket_setitem bind perf_counter
     get_world print emit update_conns update_heap raise ret fst snd reads fs dirs past
     log heap conns console].
  rewrite Hopen.
  cbn [fst snd reads fs dirs past log heap conns console]. reflexivity.
Qed.

(** C9: a timed block adds the time elapsed between its entry and its
    exit to the entry of its label in the dictionary, whatever entry was
    there and whether its body returns or raises, which the block passes
    on unchanged; the other entries are left as the body left them.  And
    a job that ends well has reported, as its last lines, its total, the
    dictionary it made at its start as that then stood, and as
    unaccounted time that total minus the values of that dictionary added
    up from the first to the last.  The total is the reading of the clock
    taken inside the [CLEANUP] block, the last but one of the job, minus
    the reading at the start of the job; the [CLEANUP] span, from the
    reading before it to the reading after it, enters the dictionary
    after the report. *)
Theorem timing_spans_accumulate_and_report :
  (forall (A : Type) env label l (body : M A) w,
     let w1 := snd (body (snd (perf_counter env w))) in
     let elapsed := (perf env (reads w1) - perf env (reads w))%Z in
     let w' := snd (timed env label (Some l) body w) in
     fst (timed env label (Some l) body w) = fst (body (snd (perf_counter env w))) /\
     Dict.get label 0 (deref l w') = (Dict.get label 0 (deref l w1) + elapsed)%Z /\
     (forall k, k <> label -> Dict.get k 0 (deref l w') = Dict.get k 0 (deref l w1))) /\
  (forall env server database username password packet_size arraysize final_unc_path sql
          params done_message w total w',
     run_sales_export env server database username password packet_size arraysize
       final_unc_path sql params done_message w = (Ok total, w') ->
     let l := fresh (dom (heap w)) in
     exists before spans_then rows_total r,
       reads w' = 3 + r /\ reads w < r /\
       console w' = before ++
         [TotalLine total; BreakdownLine spans_then;
          UnaccountedLine (total - fold_left Z.add (map snd spans_then) 0)%Z;
          TotalRowsLine rows_total; MessageLine done_message;
          SpanLine "CLEANUP" (perf env (2 + r) - perf env r)%Z] /\
       total = (perf env (1 + r) - perf env (reads w))%Z /\
       deref l w' =
         Dict.setitem "CLEANUP"
           (Dict.get "CLEANUP" 0 spans_then + (perf env (2 + r) - perf env r))%Z spans_then).
Proof.
  split.
  - intros A env label l body w w1 elapsed w'. subst w1 elapsed w'.
    rewrite timed_Some. cbn [fst snd]. split; [reflexivity|].
    rewrite deref_timed_exit.
    split; [apply dict_get_setitem_eq|].
    intros k Hk. now apply dict_get_setitem_ne.
  - intros env server database username password packet_size arraysize final_unc_path sql
      params done_message w total w'.
    rewrite run_phases.
    destruct (job_start_dict env w) as (w1 & Hstart & Hc1 & Hr1).
    unfold bind at 1. rewrite Hstart. cbn [fst snd].
    set (l := fresh (dom (heap w))).
    unfold bind at 1.
    pose proof (connect_spec env database l w1) as Hcon.
    pose proof (loose_timed any_event env "CONNECT" (Some l) (pyodbc_connect env database)
                  ltac:(apply advances_connect; [typeclasses eauto | exact calm_admitted])
                  w1) as [Hr2 _ _ _].
    destruct (timed env "CONNECT" (Some l) (pyodbc_connect env database) w1)
      as [[cxn|e] w2]; [|discriminate]. cbn [snd] in Hr2.
    destruct Hcon as (Hok & -> & Hc2).
    unfold bind at 1.
    pose proof (save_csv_conns env (length (conns w1)) sql params final_unc_path arraysize
                  (Some l) w2) as Hc3.
    pose proof (loose_save_csv any_event calm_admitted env (length (conns w1)) sql params
                  final_unc_path arraysize (Some l) ltac:(intros; exact I) I w2)
      as [Hr3 _ _ _].
    destruct (save_csv_via_staging_streaming env (length (conns w1)) sql params
                final_unc_path arraysize (Some l) w2) as [[rows|e] w3]; cbn [fst snd] in *;
      [|discriminate].
    assert (Hopen : is_open (length (conns w1)) w3 = true).
    { unfold is_open. rewrite Hc3, Hc2, list_lookup_middle by reflexivity. reflexivity. }
    pose proof (job_report_reads env (perf env (reads w)) l (length (conns w1)) rows
                  done_message w3 Hopen) as Hreads.
    destruct (job_report_spec env (perf env (reads w)) l (length (conns w1)) rows
                done_message w3 Hopen) as (w4 & Hrep & _ & Hcons & Hdict).
    cbv zeta in Hrep. rewrite Hrep in Hreads |- *. cbn [snd] in Hreads.
    intros Hrun. injection Hrun as <- <-.
    exists (console w3), (deref l w3), rows, (reads w3).
    split; [exact Hreads|]. split; [lia|].
    split; [exact Hcons|]. split; [reflexivity | exact Hdict].
Qed.

Lemma timing_spans_accumulate_and_report_witness :
  exists before spans_then rows_total r,
    reads (snd (run_sales_export Scenario.env "server" "PDICompany_2875_10" "user"
                  "password" "32767" 100000 Scenario.destination "SELECT" [] "done"
                  empty_world)) = 3 + r /\
    reads empty_world < r /\
    console (snd (run_sales_export Scenario.env "server" "PDICompany_2875_10" "user"
                    "password" "32767" 100000 Scenario.destination "SELECT" [] "done"
                    empty_world))
    = before ++
      [TotalLine 15%Z; BreakdownLine spans_then;
       UnaccountedLine (15 - fold_left Z.add (map snd spans_then) 0)%Z;
       TotalRowsLine rows_total; MessageLine "done";
       SpanLine "CLEANUP" (perf Scenario.env (2 + r) - perf Scenario.env r)%Z] /\
    15%Z = (perf Scenario.env (1 + r) - perf Scenario.env (reads empty_world))%Z /\
    deref (fresh (dom (heap empty_world)))
      (snd (run_sales_export Scenario.env "server" "PDICompany_2875_10" "user"
              "password" "32767" 100000 Scenario.destination "SELECT" [] "done"
              empty_world))
    = Dict.setitem "CLEANUP"
        (Dict.get "CLEANUP" 0 spans_then
         + (perf Scenario.env (2 + r) - perf Scenario.env r))%Z spans_then.
Proof.
  apply (proj2 timing_spans_accumulate_and_report Scenario.env "server"
           "PDICompany_2875_10" "user" "password" "32767" 100000%Z Scenario.destination
           "SELECT" [] "done" empty_world 15%Z).
  apply pair_of_fst. vm_compute. reflexivity.
Defined.
